(** * yahoo_archive: the archive-scan spider, its date handling and its output sort

    A shallow embedding of [yahoo_news/spiders/yahoo_archive.py].

    - [PyStr]: the few [str] methods the spider calls.
    - [Calendar], [DateTime]: the part of Python's [datetime] the spider
      relies on ([fromisoformat], [isoformat], [astimezone], arithmetic).
    - [Json]: the values [json.loads] returns, and the two name resolvers.
    - [Spider]: [__init__], [_parse_datetime], the body of [parse_archive],
      [parse_article] and [_sort_output_csv_by_date].
    - [Run]: every interleaving of listing steps and article callbacks.
    - [Window], [Iso], [Inv]: names for the decisions of the callbacks, for
      the texts of an instant and for the invariants of a run.
    - [Sample]: the data of the worked examples.
    - [Jsonld]: [_walk_json_nodes] and [_extract_from_jsonld].
    - [Retry]: [start_requests], [_make_archive_request], [on_archive_error].
    - [Output]: [_build_output_filename], [from_crawler],
      [_pick_output_csv_uri].
    - [Ledger], [Inv2], [Reason], [Old], [Stable], [Text], [Words]: further
      predicates on runs, rows and texts.

    Python strings are modelled by [string], each character standing for a
    code point below 256; Python integers by [Z]; the set [seen_urls] by a
    [gset string]. *)

From Stdlib Require Import ZArith Lia Bool List Ascii String Sorted.
From stdpp Require Import base gmap strings list sorting.

Local Open Scope Z_scope.

(** ** Python strings *)

Module PyStr.

(** Truth value of an [Optional[str]]: [None] and [""] are falsy. *)
Definition truthy (o : option string) : bool :=
  match o with
  | Some (String _ _) => true
  | _ => false
  end.

(** [a or b] on optional strings. *)
Definition or_else (a b : option string) : option string :=
  if truthy a then a else b.

(** [str.isspace] on one code point below 256. *)
Definition is_space (c : ascii) : bool :=
  let n := Z.of_nat (nat_of_ascii c) in
  ((9 <=? n) && (n <=? 13)) || ((28 <=? n) && (n <=? 32))
  || (n =? 133) || (n =? 160).

Fixpoint lstrip (s : string) : string :=
  match s with
  | String c s' => if is_space c then lstrip s' else s
  | EmptyString => EmptyString
  end.

(** Drops trailing white space: a character is kept when it is not a space
    or when something is kept after it. *)
Fixpoint rstrip (s : string) : string :=
  match s with
  | String c s' =>
      match rstrip s' with
      | EmptyString => if is_space c then EmptyString else String c EmptyString
      | r => String c r
      end
  | EmptyString => EmptyString
  end.

(** [s.strip()] *)
Definition strip (s : string) : string := rstrip (lstrip s).

(** [s.startswith(p)] *)
Fixpoint startswith (p s : string) : bool :=
  match p, s with
  | EmptyString, _ => true
  | String a p', String b s' => if Ascii.eqb a b then startswith p' s' else false
  | String _ _, EmptyString => false
  end.

(** [s.endswith(p)]: some suffix of [s] is [p]. *)
Fixpoint endswith (p s : string) : bool :=
  String.eqb s p ||
  match s with
  | String _ s' => endswith p s'
  | EmptyString => false
  end.

(** [s.replace(c, r)] for a one-character pattern [c]: every occurrence. *)
Fixpoint replace_char (c : ascii) (r : string) (s : string) : string :=
  match s with
  | String a s' =>
      if Ascii.eqb a c then r +:+ replace_char c r s'
      else String a (replace_char c r s')
  | EmptyString => EmptyString
  end.

(** [sep.join(l)] *)
Fixpoint join (sep : string) (l : list string) : string :=
  match l with
  | [] => EmptyString
  | [x] => x
  | x :: rest => x +:+ sep +:+ join sep rest
  end.

End PyStr.

(** ** The proleptic Gregorian calendar of [datetime] *)

Module Calendar.

Definition MINYEAR : Z := 1.
Definition MAXYEAR : Z := 9999.
(** [date.max.toordinal()] *)
Definition MAXORDINAL : Z := 3652059.

Definition DI400Y : Z := 146097.
Definition DI100Y : Z := 36524.
Definition DI4Y : Z := 1461.

Definition DAYS_IN_MONTH (month : Z) : Z :=
  match month with
  | 1 => 31 | 2 => 28 | 3 => 31 | 4 => 30 | 5 => 31 | 6 => 30
  | 7 => 31 | 8 => 31 | 9 => 30 | 10 => 31 | 11 => 30 | 12 => 31
  | _ => -1
  end.

Definition DAYS_BEFORE_MONTH (month : Z) : Z :=
  match month with
  | 1 => 0 | 2 => 31 | 3 => 59 | 4 => 90 | 5 => 120 | 6 => 151
  | 7 => 181 | 8 => 212 | 9 => 243 | 10 => 273 | 11 => 304 | 12 => 334
  | _ => -1
  end.

Definition is_leap (year : Z) : bool :=
  (year mod 4 =? 0) && (negb (year mod 100 =? 0) || (year mod 400 =? 0)).

Definition days_before_year (year : Z) : Z :=
  let y := year - 1 in
  y * 365 + y / 4 - y / 100 + y / 400.

Definition days_in_month (year month : Z) : Z :=
  if (month =? 2) && is_leap year then 29 else DAYS_IN_MONTH month.

Definition days_before_month (year month : Z) : Z :=
  DAYS_BEFORE_MONTH month + (if (2 <? month) && is_leap year then 1 else 0).

Definition ymd2ord (year month day : Z) : Z :=
  days_before_year year + days_before_month year month + day.

Definition ord2ymd (n : Z) : Z * Z * Z :=
  let n := n - 1 in
  let n400 := n / DI400Y in
  let n := n mod DI400Y in
  let year := n400 * 400 + 1 in
  let n100 := n / DI100Y in
  let n := n mod DI100Y in
  let n4 := n / DI4Y in
  let n := n mod DI4Y in
  let n1 := n / 365 in
  let n := n mod 365 in
  let year := year + n100 * 100 + n4 * 4 + n1 in
  if (n1 =? 4) || (n100 =? 4) then (year - 1, 12, 31)
  else
    let leapyear := (n1 =? 3) && (negb (n4 =? 24) || (n100 =? 3)) in
    let month := Z.shiftr (n + 50) 5 in
    let preceding :=
      DAYS_BEFORE_MONTH month + (if (2 <? month) && leapyear then 1 else 0) in
    if n <? preceding then
      let month := month - 1 in
      let preceding :=
        preceding
        - (DAYS_IN_MONTH month + (if (month =? 2) && leapyear then 1 else 0)) in
      (year, month, n - preceding + 1)
    else (year, month, n - preceding + 1).

(** The range check of the [date] constructor. *)
Definition check_date_fields (year month day : Z) : bool :=
  (MINYEAR <=? year) && (year <=? MAXYEAR)
  && (1 <=? month) && (month <=? 12)
  && (1 <=? day) && (day <=? days_in_month year month).

(** The range check of the [time] constructor. *)
Definition check_time_fields (hour minute second microsecond : Z) : bool :=
  (0 <=? hour) && (hour <=? 23) && (0 <=? minute) && (minute <=? 59)
  && (0 <=? second) && (second <=? 59)
  && (0 <=? microsecond) && (microsecond <=? 999999).

End Calendar.

(** ** The part of [datetime] the spider uses

    A [datetime] is modelled by the number of microseconds its wall-clock
    reading lies after [datetime.min] (0001-01-01T00:00:00), together with
    its [tzinfo].  The calendar fields are recovered with [ord2ymd], as
    [date.fromordinal] does. *)

Module DateTime.
Import Calendar.

Definition US_PER_SECOND : Z := 1000000.
Definition US_PER_DAY : Z := 86400 * US_PER_SECOND.
(** One past the reading of [datetime.max]. *)
Definition MAX_US : Z := MAXORDINAL * US_PER_DAY.

Inductive tzinfo : Type :=
| TZ                      (* the module constant [ZoneInfo("Asia/Taipei")] *)
| timezone (offset : Z).  (* [timezone(timedelta(microseconds=offset))] *)

(** [tz.utcoffset(dt)] in microseconds.  Asia/Taipei is taken at UTC+08:00,
    the offset the zone has had without change since 1979-10-01 (it was at
    +08:06 before 1896, at +09:00 from 1937 to 1945 and in the summers of
    some years up to 1979).  What depends on the offset of the zone is
    stated for instants from 1980 on ([Iso.SINCE_1980]). *)
Definition utcoffset (tz : tzinfo) : Z :=
  match tz with
  | TZ => 8 * 3600 * US_PER_SECOND
  | timezone off => off
  end.

Record datetime : Type := mk_datetime {
  naive : Z;
  tz_of : option tzinfo
}.

Record fields : Type := mk_fields {
  year : Z; month : Z; day : Z;
  hour : Z; minute : Z; second : Z; microsecond : Z
}.

Definition fields_of (n : Z) : fields :=
  let '(y, m, d) := ord2ymd (n / US_PER_DAY + 1) in
  let rem := n mod US_PER_DAY in
  let secs := rem / US_PER_SECOND in
  {| year := y; month := m; day := d;
     hour := secs / 3600; minute := (secs mod 3600) / 60; second := secs mod 60;
     microsecond := rem mod US_PER_SECOND |}.

Definition of_fields (f : fields) : Z :=
  (((ymd2ord (year f) (month f) (day f) - 1) * 86400
    + hour f * 3600 + minute f * 60 + second f) * US_PER_SECOND)
  + microsecond f.

(** The constructor [datetime(year, ..., microsecond, tzinfo)]; [None]
    stands for its [ValueError]. *)
Definition new_datetime (f : fields) (tz : option tzinfo) : option datetime :=
  if check_date_fields (year f) (month f) (day f)
     && check_time_fields (hour f) (minute f) (second f) (microsecond f)
  then Some {| naive := of_fields f; tz_of := tz |}
  else None.

(** [datetime.min.replace(tzinfo=TZ)] *)
Definition min_TZ : datetime := {| naive := 0; tz_of := Some TZ |}.

(** [dt + timedelta(microseconds=delta)] on the wall-clock reading;
    [None] stands for [OverflowError]. *)
Definition add_us (n delta : Z) : option Z :=
  let r := n + delta in
  if (0 <=? r) && (r <? MAX_US) then Some r else None.

(** [dt.astimezone(TZ)] for an aware [dt]: the same object when it
    already carries [TZ], otherwise through UTC. *)
Definition astimezone_TZ (n : Z) (tz : tzinfo) : option datetime :=
  match tz with
  | TZ => Some {| naive := n; tz_of := Some TZ |}
  | timezone off =>
      utc ← add_us n (- off);
      loc ← add_us utc (utcoffset TZ);
      Some {| naive := loc; tz_of := Some TZ |}
  end.

(** Comparison of two datetimes that carry the same [tzinfo]: Python
    then compares the wall-clock readings. *)
Definition ltb (a b : datetime) : bool := naive a <? naive b.
Definition leb (a b : datetime) : bool := naive a <=? naive b.

(** *** Reading *)

Definition digit_of (c : ascii) : option Z :=
  let n := Z.of_nat (nat_of_ascii c) in
  if (48 <=? n) && (n <=? 57) then Some (n - 48) else None.

(** Reads exactly [k] decimal digits. *)
Fixpoint parse_digits (k : nat) (acc : Z) (s : string) : option (Z * string) :=
  match k with
  | O => Some (acc, s)
  | S k' =>
      match s with
      | String c s' => d ← digit_of c; parse_digits k' (acc * 10 + d) s'
      | EmptyString => None
      end
  end.

Definition expect (c : ascii) (s : string) : option string :=
  match s with
  | String a s' => if Ascii.eqb a c then Some s' else None
  | EmptyString => None
  end.

(** [fff[fff]] *)
Definition parse_fraction (s : string) : option (Z * string) :=
  '(f3, s3) ← parse_digits 3 0 s;
  match parse_digits 3 f3 s3 with
  | Some r => Some r
  | None => Some (f3 * 1000, s3)
  end.

(** [HH[:MM[:SS[.fff[fff]]]]] *)
Definition parse_hh_mm_ss_ff (s : string) : option (Z * Z * Z * Z * string) :=
  '(hh, s) ← parse_digits 2 0 s;
  match s with
  | String ":" s =>
      '(mm, s) ← parse_digits 2 0 s;
      match s with
      | String ":" s =>
          '(ss, s) ← parse_digits 2 0 s;
          match s with
          | String "." s => '(ff, s) ← parse_fraction s; Some (hh, mm, ss, ff, s)
          | _ => Some (hh, mm, ss, 0, s)
          end
      | _ => Some (hh, mm, 0, 0, s)
      end
  | _ => Some (hh, 0, 0, 0, s)
  end.

(** [[+HH:MM[:SS[.ffffff]]]] up to the end of the string; the offset must
    lie strictly between minus and plus one day, as [timezone] demands. *)
Definition parse_tz (s : string) : option (option tzinfo) :=
  match s with
  | EmptyString => Some None
  | String c s =>
      sign ← (if Ascii.eqb c "+" then Some 1
              else if Ascii.eqb c "-" then Some (-1) else None);
      '(hh, s) ← parse_digits 2 0 s;
      s ← expect ":" s;
      '(mm, s) ← parse_digits 2 0 s;
      '(ss, ff, s) ←
        match s with
        | String ":" s =>
            '(ss, s) ← parse_digits 2 0 s;
            match s with
            | String "." s => '(ff, s) ← parse_digits 6 0 s; Some (ss, ff, s)
            | _ => Some (ss, 0, s)
            end
        | _ => Some (0, 0, s)
        end;
      match s with
      | EmptyString =>
          let off := sign * ((hh * 3600 + mm * 60 + ss) * US_PER_SECOND + ff) in
          if (- US_PER_DAY <? off) && (off <? US_PER_DAY)
          then Some (Some (timezone off)) else None
      | String _ _ => None
      end
  end.

(** [datetime.fromisoformat(s)] on the format Python documents for it,
    [YYYY-MM-DD[*HH[:MM[:SS[.fff[fff]]]][+HH:MM[:SS[.ffffff]]]]], where [*]
    is any one character; [None] stands for [ValueError]. *)
Definition fromisoformat (s : string) : option datetime :=
  '(y, s) ← parse_digits 4 0 s;
  s ← expect "-" s;
  '(m, s) ← parse_digits 2 0 s;
  s ← expect "-" s;
  '(d, s) ← parse_digits 2 0 s;
  match s with
  | EmptyString => new_datetime (mk_fields y m d 0 0 0 0) None
  | String _ s =>
      '(hh, mm, ss, ff, s) ← parse_hh_mm_ss_ff s;
      tz ← parse_tz s;
      new_datetime (mk_fields y m d hh mm ss ff) tz
  end.

(** *** Writing *)

Definition digit_char (d : Z) : ascii := ascii_of_nat (Z.to_nat (48 + d)).

(** ["%0kd" % n] for [0 <= n < 10^k]. *)
Fixpoint print_digits (k : nat) (n : Z) : string :=
  match k with
  | O => EmptyString
  | S k' =>
      String (digit_char (n / 10 ^ Z.of_nat k')) (print_digits k' (n mod 10 ^ Z.of_nat k'))
  end.

(** The date and time part of [isoformat()]. *)
Definition format_naive (n : Z) : string :=
  let f := fields_of n in
  print_digits 4 (year f) +:+ "-" +:+ print_digits 2 (month f) +:+ "-"
  +:+ print_digits 2 (day f) +:+ "T" +:+ print_digits 2 (hour f) +:+ ":"
  +:+ print_digits 2 (minute f) +:+ ":" +:+ print_digits 2 (second f)
  +:+ (if microsecond f =? 0 then EmptyString
       else "." +:+ print_digits 6 (microsecond f)).

(** The UTC offset suffix of [isoformat()]. *)
Definition format_offset (off : Z) : string :=
  let sign := if off <? 0 then "-" else "+" in
  let a := Z.abs off in
  let hh := a / (3600 * US_PER_SECOND) in
  let r := a mod (3600 * US_PER_SECOND) in
  let mm := r / (60 * US_PER_SECOND) in
  let r := r mod (60 * US_PER_SECOND) in
  let ss := r / US_PER_SECOND in
  let us := r mod US_PER_SECOND in
  sign +:+ print_digits 2 hh +:+ ":" +:+ print_digits 2 mm
  +:+ (if (ss =? 0) && (us =? 0) then EmptyString
       else ":" +:+ print_digits 2 ss
            +:+ (if us =? 0 then EmptyString else "." +:+ print_digits 6 us)).

(** [dt.isoformat()] *)
Definition isoformat (dt : datetime) : string :=
  format_naive (naive dt)
  +:+ match tz_of dt with
      | None => EmptyString
      | Some tz => format_offset (utcoffset tz)
      end.

End DateTime.

(** ** Values returned by [json.loads], and the two name resolvers *)

Module Json.

#[local] Set Warnings "-register-all".

(** A [dict] is kept as its items in insertion order; its keys are
    distinct, so [dict_get] returns the value of the only match. *)
Inductive value : Type :=
| JNull
| JBool (b : bool)
| JInt (n : Z)
| JFloat (mantissa exponent : Z)
| JStr (s : string)
| JList (l : list value)
| JDict (items : list (string * value)).

(** [d.get(key)] *)
Fixpoint dict_get (key : string) (items : list (string * value)) : option value :=
  match items with
  | [] => None
  | (k, v) :: rest => if String.eqb k key then Some v else dict_get key rest
  end.

(** [s or None] *)
Definition or_None (s : string) : option string :=
  match s with
  | EmptyString => None
  | String _ _ => Some s
  end.

(** The [name] entry of a mapping, when it is a string with something
    left after [strip()]. *)
Definition name_of (items : list (string * value)) : option string :=
  match dict_get "name" items with
  | Some (JStr name) => or_None (PyStr.strip name)
  | _ => None
  end.

Fixpoint _extract_person_name (v : value) : option string :=
  match v with
  | JStr s => or_None (PyStr.strip s)
  | JDict items => name_of items
  | JList l =>
      let names :=
        (fix collect (l : list value) : list string :=
           match l with
           | [] => []
           | item :: rest =>
               let n := _extract_person_name item in
               if PyStr.truthy n
               then match n with Some n => n :: collect rest | None => collect rest end
               else collect rest
           end) l in
      match names with
      | [] => None
      | _ :: _ => Some (PyStr.join ", " names)
      end
  | _ => None
  end.

Fixpoint _extract_org_name (v : value) : option string :=
  match v with
  | JStr s => or_None (PyStr.strip s)
  | JDict items => name_of items
  | JList l =>
      (fix first (l : list value) : option string :=
         match l with
         | [] => None
         | item :: rest =>
             let n := _extract_org_name item in
             if PyStr.truthy n then n else first rest
         end) l
  | _ => None
  end.

End Json.

(** ** The spider *)

Module Spider.
Import DateTime.

(** The attributes [__init__] fixes for the whole run. *)
Record Config : Type := mk_config {
  max_scroll : option Z;
  max_urls : option Z;
  old_streak_stop : Z;
  scroll_wait_ms : Z;
  start_dt : datetime;
  end_dt : datetime
}.

(** The attributes the callbacks mutate. *)
Record State : Type := mk_state {
  seen_urls : gset string;
  old_count_streak : Z;
  seen_recent_article : bool;
  stop_requested : bool;
  item_count : Z
}.

Definition initial_state : State :=
  {| seen_urls := ∅; old_count_streak := 0; seen_recent_article := false;
     stop_requested := false; item_count := 0 |}.

(** [__init__]: [end_reading] is the wall-clock reading of [end] (or of
    [datetime.now(TZ)]).  [None] stands for the [OverflowError] of
    [end_dt - timedelta(hours=1)]. *)
Definition __init__ (end_reading : Z) (max_scroll max_urls : option Z)
    (old_streak_stop scroll_wait_ms : Z) : option (Config * State) :=
  start ← add_us end_reading (- (3600 * US_PER_SECOND));
  Some ({| max_scroll := max_scroll; max_urls := max_urls;
           old_streak_stop := old_streak_stop; scroll_wait_ms := scroll_wait_ms;
           start_dt := {| naive := start; tz_of := Some TZ |};
           end_dt := {| naive := end_reading; tz_of := Some TZ |} |},
        initial_state).

Definition _parse_datetime (s : option string) : option datetime :=
  if negb (PyStr.truthy s) then None
  else
    match s with
    | None => None
    | Some s =>
        let s := PyStr.strip s in
        dt ← (if PyStr.endswith "Z" s
              then fromisoformat (PyStr.replace_char "Z" "+00:00" s)
              else fromisoformat s);
        match tz_of dt with
        | None => astimezone_TZ (naive dt) TZ   (* after [replace(tzinfo=TZ)] *)
        | Some tz => astimezone_TZ (naive dt) tz
        end
    end.

(** *** State updates *)

Definition bump_streak (s : State) : State :=
  {| seen_urls := seen_urls s; old_count_streak := old_count_streak s + 1;
     seen_recent_article := seen_recent_article s;
     stop_requested := stop_requested s; item_count := item_count s |}.

Definition request_stop (s : State) : State :=
  {| seen_urls := seen_urls s; old_count_streak := old_count_streak s;
     seen_recent_article := seen_recent_article s;
     stop_requested := true; item_count := item_count s |}.

(** [self.seen_recent_article = True; self.old_count_streak = 0] *)
Definition mark_recent (s : State) : State :=
  {| seen_urls := seen_urls s; old_count_streak := 0;
     seen_recent_article := true;
     stop_requested := stop_requested s; item_count := item_count s |}.

Definition add_seen (url : string) (s : State) : State :=
  {| seen_urls := {[ url ]} ∪ seen_urls s; old_count_streak := old_count_streak s;
     seen_recent_article := seen_recent_article s;
     stop_requested := stop_requested s; item_count := item_count s |}.

Definition count_item (s : State) : State :=
  {| seen_urls := seen_urls s; old_count_streak := old_count_streak s;
     seen_recent_article := seen_recent_article s;
     stop_requested := stop_requested s; item_count := item_count s + 1 |}.

(** [self.max_urls is not None and len(self.seen_urls) >= self.max_urls] *)
Definition hit_max_urls (c : Config) (s : State) : bool :=
  match max_urls c with
  | Some m => m <=? Z.of_nat (size (seen_urls s))
  | None => false
  end.

(** *** [parse_archive] *)

(** What the loop body reads off one [<a>] element of the listing. *)
Record Anchor : Type := mk_anchor {
  href : option string;           (* [anchor.xpath("./@href").get()] *)
  joined : string;                (* [response.urljoin(h)] *)
  time_inside : option string;    (* first [time/@datetime] below the anchor *)
  time_beside : option string;    (* ... child of the nearest such ancestor *)
  time_around : option string     (* ... below the nearest such ancestor *)
}.

Record Request : Type := mk_request {
  req_url : string;
  archive_dt_str : option string  (* [cb_kwargs] *)
}.

Inductive Flow : Type := Continue | Break.

(** From [self.seen_urls.add(url)] to the [max_urls] test after the
    [yield]. *)
Definition dispatch (c : Config) (s : State) (url : string)
    (hint : option string) : State * list Request * Flow :=
  let s := add_seen url s in
  (s, [ {| req_url := url; archive_dt_str := hint |} ],
   if hit_max_urls c s then Break else Continue).

(** One iteration of [for anchor in anchors]. *)
Definition visit_anchor (c : Config) (s : State) (a : Anchor)
    : State * list Request * Flow :=
  if negb (PyStr.truthy (href a)) then (s, [], Continue)
  else
    let url := joined a in
    if negb (PyStr.startswith "https://tw.news.yahoo.com/" url) then (s, [], Continue)
    else if negb (PyStr.endswith ".html" url) then (s, [], Continue)
    else if bool_decide (url ∈ seen_urls s) then (s, [], Continue)
    else
      let hint :=
        PyStr.or_else (PyStr.or_else (time_inside a) (time_beside a)) (time_around a) in
      match _parse_datetime hint with
      | Some archive_pub_dt =>
          if ltb (end_dt c) archive_pub_dt then (s, [], Continue)
          else if ltb archive_pub_dt (start_dt c) then
            if seen_recent_article s then
              let s := bump_streak s in
              if old_streak_stop c <=? old_count_streak s
              then (request_stop s, [], Break)
              else (s, [], Continue)
            else (s, [], Continue)
          else dispatch c (mark_recent s) url hint
      | None => dispatch c s url hint
      end.

(** The [for] loop over the anchors of one rendering. *)
Fixpoint scan_anchors (c : Config) (s : State) (anchors : list Anchor)
    : State * list Request :=
  match anchors with
  | [] => (s, [])
  | a :: rest =>
      let '(s, reqs, flow) := visit_anchor c s a in
      match flow with
      | Break => (s, reqs)
      | Continue =>
          let '(s, more) := scan_anchors c s rest in
          (s, reqs ++ more)
      end
  end.

Inductive StopReason : Type :=
| StopRequested   (* [self.stop_requested] *)
| HitMaxScroll
| HitMaxUrls
| OutOfPages.     (* the renderings supplied to the model are used up *)

Definition hit_max_scroll (c : Config) (scroll_round : Z) : bool :=
  match max_scroll c with
  | Some m => m <=? scroll_round
  | None => false
  end.

(** The [while True] loop; [pages] are the anchors of the successive
    results of [page.content()]. *)
Fixpoint scroll_loop (c : Config) (s : State) (scroll_round : Z)
    (pages : list (list Anchor)) : State * list Request * StopReason :=
  if stop_requested s then (s, [], StopRequested)
  else if hit_max_scroll c scroll_round then (s, [], HitMaxScroll)
  else
    match pages with
    | [] => (s, [], OutOfPages)
    | anchors :: later =>
        let '(s, reqs) := scan_anchors c s anchors in
        if hit_max_urls c s then (s, reqs, HitMaxUrls)
        else
          let '(s, more, why) := scroll_loop c s (scroll_round + 1) later in
          (s, reqs ++ more, why)
    end.

(** *** [parse_article] *)

(** What [parse_article] reads off the article page;
    [jsonld_author] and [jsonld_provider] are the pair returned by
    [_extract_from_jsonld]. *)
Record Response : Type := mk_response {
  url : string;
  h1_text : option string;
  jsonld_author : option string;
  jsonld_provider : option string;
  meta_author : option string;
  rel_author : option string;
  og_site_name : option string;
  application_name : option string;
  time_datetime : option string;
  meta_published_time : option string;
  meta_pubdate : option string
}.

Record Item : Type := mk_item {
  link : string;
  title : option string;
  author : option string;
  provider : option string;
  date : string
}.

(** [x.strip() if x else None] *)
Definition strip_or_None (x : option string) : option string :=
  if PyStr.truthy x then PyStr.strip <$> x else None.

(** The string handed to the first [_parse_datetime] call. *)
Definition dt_str (r : Response) : option string :=
  PyStr.or_else (PyStr.or_else (time_datetime r) (meta_published_time r))
                (meta_pubdate r).

(** [self._parse_datetime(dt_str) or self._parse_datetime(archive_dt_str)] *)
Definition pub_dt (r : Response) (hint : option string) : option datetime :=
  match _parse_datetime (dt_str r) with
  | Some d => Some d
  | None => _parse_datetime hint
  end.

Definition parse_article (c : Config) (s : State) (r : Response)
    (hint : option string) : State * list Item :=
  let title := strip_or_None (h1_text r) in
  let author :=
    strip_or_None
      (PyStr.or_else (PyStr.or_else (jsonld_author r) (meta_author r)) (rel_author r)) in
  let provider :=
    strip_or_None
      (PyStr.or_else (PyStr.or_else (jsonld_provider r) (og_site_name r))
                     (application_name r)) in
  match pub_dt r hint with
  | None => (s, [])
  | Some pub_dt =>
      if ltb (end_dt c) pub_dt then (s, [])
      else if ltb pub_dt (start_dt c) then
        if seen_recent_article s then
          let s := bump_streak s in
          if old_streak_stop c <=? old_count_streak s
          then (request_stop s, [])
          else (s, [])
        else (s, [])
      else
        let s := mark_recent s in
        if negb (leb (start_dt c) pub_dt && leb pub_dt (end_dt c)) then (s, [])
        else
          (count_item s,
           [ {| link := url r; title := title; author := author;
                provider := provider; date := isoformat pub_dt |} ])
  end.

(** *** [_sort_output_csv_by_date] *)

(** A row as [csv.DictReader] returns it: column name to cell. *)
Definition Row : Type := list (string * option string).

Fixpoint row_get (key : string) (row : Row) : option string :=
  match row with
  | [] => None
  | (k, v) :: rest => if String.eqb k key then v else row_get key rest
  end.

Record Csv : Type := mk_csv {
  fieldnames : list string;
  rows : list Row
}.

(** The first component of the sort key. *)
Definition date_key (row : Row) : datetime :=
  match _parse_datetime (PyStr.or_else (row_get "date" row) (Some EmptyString)) with
  | Some d => d
  | None => min_TZ
  end.

(** Order of the key tuples [(datetime, index)]. *)
Definition key_leb (a b : nat * Row) : bool :=
  ltb (date_key a.2) (date_key b.2)
  || ((naive (date_key a.2) =? naive (date_key b.2)) && (a.1 <=? b.1)%nat).

Fixpoint insert_sorted (x : nat * Row) (l : list (nat * Row)) : list (nat * Row) :=
  match l with
  | [] => [x]
  | y :: rest => if key_leb x y then x :: l else y :: insert_sorted x rest
  end.

(** [list.sort(key=...)]: the keys are pairwise distinct, so the result
    is the one ascending arrangement; it is computed here by insertion. *)
Fixpoint sort_pairs (l : list (nat * Row)) : list (nat * Row) :=
  match l with
  | [] => []
  | x :: rest => insert_sorted x (sort_pairs rest)
  end.

(** [list(enumerate(rows))] *)
Definition enumerate (rows : list Row) : list (nat * Row) :=
  zip (seq 0 (length rows)) rows.

Definition sort_rows (rows : list Row) : list Row :=
  (sort_pairs (enumerate rows)).*2.

(** The content of the output file after the call, from its content
    before ([None]: no such file). *)
Definition _sort_output_csv_by_date (file : option Csv) : option Csv :=
  match file with
  | None => None
  | Some csv =>
      if bool_decide (rows csv = []) || bool_decide (fieldnames csv = [])
         || negb (bool_decide ("date" ∈ fieldnames csv))
      then Some csv
      else Some {| fieldnames := fieldnames csv; rows := sort_rows (rows csv) |}
  end.

End Spider.

(** ** A run: listing steps interleaved with article callbacks

    [parse_archive] is an asynchronous generator: between two of its
    iterations the engine may deliver any response whose request is in
    flight to [parse_article], or drop a request whose download failed.
    One [visit_anchor] is taken as a single step; nothing that
    [parse_article] writes is read between the [yield] and the [max_urls]
    test that follows it. *)

Module Run.
Import Spider.

(** Where [parse_archive] stands. *)
Inductive Archive : Type :=
| AtLoopTop (scroll_round : Z)
| InRound (scroll_round : Z) (todo : list Anchor)
| AfterRound (scroll_round : Z)
| Finished (why : StopReason).

Record Sys : Type := mk_sys {
  st : State;
  archive : Archive;
  in_flight : list Request;   (* yielded, callback not yet run *)
  dispatched : list Request;  (* every request yielded so far *)
  emitted : list Item         (* every item yielded so far *)
}.

Definition initial : Sys :=
  {| st := initial_state; archive := AtLoopTop 0; in_flight := [];
     dispatched := []; emitted := [] |}.

Inductive step (c : Config) : Sys -> Sys -> Prop :=
| step_stop s n fl dsp em :
    stop_requested s = true ->
    step c (mk_sys s (AtLoopTop n) fl dsp em)
           (mk_sys s (Finished StopRequested) fl dsp em)
| step_max_scroll s n fl dsp em :
    stop_requested s = false ->
    hit_max_scroll c n = true ->
    step c (mk_sys s (AtLoopTop n) fl dsp em)
           (mk_sys s (Finished HitMaxScroll) fl dsp em)
| step_render s n fl dsp em anchors :
    stop_requested s = false ->
    hit_max_scroll c n = false ->
    step c (mk_sys s (AtLoopTop n) fl dsp em)
           (mk_sys s (InRound (n + 1) anchors) fl dsp em)
| step_anchor s n a todo fl dsp em s' reqs flow :
    visit_anchor c s a = (s', reqs, flow) ->
    step c (mk_sys s (InRound n (a :: todo)) fl dsp em)
           (mk_sys s' (match flow with
                       | Continue => InRound n todo
                       | Break => AfterRound n
                       end) (fl ++ reqs) (dsp ++ reqs) em)
| step_round_end s n fl dsp em :
    step c (mk_sys s (InRound n []) fl dsp em)
           (mk_sys s (AfterRound n) fl dsp em)
| step_after_round s n fl dsp em :
    step c (mk_sys s (AfterRound n) fl dsp em)
           (mk_sys s (if hit_max_urls c s then Finished HitMaxUrls
                      else AtLoopTop n) fl dsp em)
| step_article s a fl1 req fl2 dsp em r s' items :
    url r = req_url req ->
    parse_article c s r (archive_dt_str req) = (s', items) ->
    step c (mk_sys s a (fl1 ++ req :: fl2) dsp em)
           (mk_sys s' a (fl1 ++ fl2) dsp (em ++ items))
| step_fetch_failed s a fl1 req fl2 dsp em :
    step c (mk_sys s a (fl1 ++ req :: fl2) dsp em)
           (mk_sys s a (fl1 ++ fl2) dsp em).

(** The states a run can be in. *)
Definition reachable (c : Config) (y : Sys) : Prop := rtc (step c) initial y.

End Run.


(** ** Names for what the two callbacks decide

    Both callbacks compare a parsed date with [end_dt] and [start_dt] in the
    same order; [classify] names the three outcomes of those comparisons. *)

Module Window.
Import DateTime Spider.

Inductive Class : Type := TOO_NEW | IN_WINDOW | TOO_OLD.

Definition classify (c : Config) (d : datetime) : Class :=
  if ltb (end_dt c) d then TOO_NEW
  else if ltb d (start_dt c) then TOO_OLD
  else IN_WINDOW.

(** [archive_dt_str] of the listing loop. *)
Definition listing_hint (a : Anchor) : option string :=
  PyStr.or_else (PyStr.or_else (time_inside a) (time_beside a)) (time_around a).

(** The anchor passes the four [continue] tests on its URL. *)
Definition candidate (s : State) (a : Anchor) : bool :=
  PyStr.truthy (href a)
  && PyStr.startswith "https://tw.news.yahoo.com/" (joined a)
  && PyStr.endswith ".html" (joined a)
  && negb (bool_decide (joined a ∈ seen_urls s)).

(** What a date before [start_dt] does to the state. *)
Definition after_old (c : Config) (s : State) : State :=
  if seen_recent_article s then
    if old_streak_stop c <=? old_count_streak s + 1
    then request_stop (bump_streak s) else bump_streak s
  else s.

(** A candidate whose listing timestamp is missing, unreadable or in the
    window: the loop requests its article. *)
Definition qualifies (c : Config) (a : Anchor) : Prop :=
  PyStr.truthy (href a) = true
  /\ PyStr.startswith "https://tw.news.yahoo.com/" (joined a) = true
  /\ PyStr.endswith ".html" (joined a) = true
  /\ match _parse_datetime (listing_hint a) with
     | Some d => classify c d = IN_WINDOW
     | None => True
     end.

Definition request_for (a : Anchor) : Request :=
  {| req_url := joined a; archive_dt_str := listing_hint a |}.

(** The rule for the article date as the specification words it: the first
    of the four sources that parses. *)
Definition first_parsing_source (r : Response) (hint : option string)
    : option datetime :=
  head (omap _parse_datetime
          [time_datetime r; meta_published_time r; meta_pubdate r; hint]).

(** The first of the three page sources that is present and not empty. *)
Definition first_present (r : Response) : option string :=
  default None
    (head (filter (fun o => PyStr.truthy o = true)
             [time_datetime r; meta_published_time r; meta_pubdate r])).

End Window.

(** ** The texts of an instant *)

Module Iso.
Import DateTime.

(** 1 in a leap year, 0 otherwise. *)
Definition leap_extra (b : bool) : Z := if b then 1 else 0.

(** What may follow the time of day: nothing, or a signed offset. *)
Definition offset_like (tail : string) : Prop :=
  tail = EmptyString \/ exists t, tail = String "+" t \/ tail = String "-" t.

(** The time of day as [isoformat] writes it. *)
Definition time_text (H M S us : Z) : string :=
  print_digits 2 H +:+ ":" +:+ print_digits 2 M +:+ ":" +:+ print_digits 2 S
  +:+ (if us =? 0 then EmptyString else "." +:+ print_digits 6 us).

(** The serialisation of the instant whose reading in the reference
    timezone is [n]: what [pub_dt.isoformat()] writes. *)
Definition canonical (n : Z) : string :=
  isoformat {| naive := n; tz_of := Some TZ |}.


(** The reading of 1980-01-01T00:00:00.  From this reading on, on the
    reference clock as well as on the UTC clock, Asia/Taipei is at
    UTC+08:00. *)
Definition SINCE_1980 : Z :=
  of_fields {| year := 1980; month := 1; day := 1; hour := 0; minute := 0;
               second := 0; microsecond := 0 |}.

End Iso.

(** ** Predicates on the state of a run *)

Module Inv.
Import DateTime Spider Run.

(** The flags and the set only grow from [s] to [s']. *)
Definition flags_grow (s s' : State) : Prop :=
  (stop_requested s = true -> stop_requested s' = true)
  /\ (seen_recent_article s = true -> seen_recent_article s' = true)
  /\ seen_urls s ⊆ seen_urls s'.

Definition dedup_inv (y : Sys) : Prop :=
  NoDup (req_url <$> dispatched y)
  /\ NoDup ((link <$> emitted y) ++ (req_url <$> in_flight y))
  /\ (forall u, u ∈ (req_url <$> dispatched y) -> u ∈ seen_urls (st y))
  /\ (forall u, u ∈ (link <$> emitted y) ++ (req_url <$> in_flight y) ->
                u ∈ seen_urls (st y)).

(** The item carries the serialisation of a date between [start_dt] and
    [end_dt], both included. *)
Definition dated_in_window (c : Config) (it : Item) : Prop :=
  exists d, date it = isoformat d
            /\ naive (start_dt c) <= naive d <= naive (end_dt c).

(** Order of the sort keys, as a relation. *)
Definition key_le (a b : nat * Row) : Prop := key_leb a b = true.

(** Rows in ascending order of their date key (equal keys allowed). *)
Definition date_sorted (rows : list Row) : Prop :=
  Sorted (fun r1 r2 => naive (date_key r1) <= naive (date_key r2)) rows.

(** The streak counter: never negative, zero until an in-window item has
    been seen, and below a positive threshold while no stop is requested. *)
Definition streak_inv (c : Config) (s : State) : Prop :=
  0 <= old_count_streak s
  /\ (seen_recent_article s = false -> old_count_streak s = 0)
  /\ (1 <= old_streak_stop c -> stop_requested s = false ->
      old_count_streak s < old_streak_stop c).

End Inv.

(** ** Sample data: the window 2024-06-01 09:00 to 10:00 *)

Module Sample.
Import DateTime Spider Run.

(** The reading of 2024-06-01T10:00:00. *)
Definition ten_o_clock : Z := 63852832800000000.

Definition config (max_urls : option Z) (old_streak_stop : Z) : Config :=
  {| max_scroll := None; max_urls := max_urls;
     old_streak_stop := old_streak_stop; scroll_wait_ms := 350;
     start_dt := {| naive := ten_o_clock - 3600 * US_PER_SECOND; tz_of := Some TZ |};
     end_dt := {| naive := ten_o_clock; tz_of := Some TZ |} |}.

Definition site : string := "https://tw.news.yahoo.com/".

(** An anchor with an absolute [href] and a [<time>] child. *)
Definition anchor (name : string) (stamp : option string) : Anchor :=
  {| href := Some (site +:+ name); joined := site +:+ name;
     time_inside := stamp; time_beside := None; time_around := None |}.

(** An article page with nothing but a [<time datetime>] and a
    [article:published_time] meta tag. *)
Definition page (name : string) (stamp published : option string) : Response :=
  {| url := site +:+ name; h1_text := None;
     jsonld_author := None; jsonld_provider := None;
     meta_author := None; rel_author := None;
     og_site_name := None; application_name := None;
     time_datetime := stamp; meta_published_time := published;
     meta_pubdate := None |}.

Definition eight_anchors : list Anchor :=
  [ anchor "1.html" None; anchor "2.html" (Some "2024-06-01T09:30:00+08:00");
    anchor "3.html" None; anchor "4.html" (Some "2024-06-01T09:59:59+08:00");
    anchor "5.html" (Some "soon"); anchor "6.html" None;
    anchor "7.html" None; anchor "8.html" (Some "2024-06-01T09:00:00+08:00") ].

Definition half_past_nine : Anchor :=
  anchor "a.html" (Some "2024-06-01T09:30:00+08:00").

(** The article of [half_past_nine], dated at 09:30 and at 10:00 sharp. *)
Definition page_at_half_past : Response :=
  page "a.html" (Some "2024-06-01T09:30:00+08:00") None.
Definition page_at_end : Response :=
  page "a.html" (Some "2024-06-01T10:00:00+08:00") None.

(** An article whose [<time>] attribute is not a date while its
    [article:published_time] meta tag is one. *)
Definition page_with_bad_time : Response :=
  page "a.html" (Some "yesterday") (Some "2024-06-01T09:15:00+08:00").

(** Three rows of an output file; the first two carry the same date. *)
Definition row (name stamp : string) : Row :=
  [("link"%string, Some (site +:+ name)); ("title"%string, Some name);
   ("author"%string, None); ("provider"%string, None);
   ("date"%string, Some stamp)].

Definition sorted_rows : list Row :=
  [ row "b.html" "2024-06-01T09:10:00+08:00";
    row "a.html" "2024-06-01T09:10:00+08:00";
    row "c.html" "2024-06-01T09:40:00+08:00" ].

Definition unsorted_rows : list Row :=
  [ row "c.html" "2024-06-01T09:40:00+08:00";
    row "b.html" "2024-06-01T09:10:00+08:00";
    row "a.html" "2024-06-01T09:10:00+08:00" ].

(** A run of three steps: one rendering whose first anchor is in the
    window, its request, and the callback of its article; [todo] are the
    anchors of that rendering still to be visited. *)
Definition after_first_article (c : Config) (a : Anchor) (todo : list Anchor)
    (r : Response) : Sys :=
  let s1 := (visit_anchor c initial_state a).1.1 in
  let out := parse_article c s1 r (Window.listing_hint a) in
  {| st := out.1; archive := InRound 1 todo; in_flight := [];
     dispatched := [Window.request_for a]; emitted := out.2 |}.

(** A listing entry stamped an hour before the window opens. *)
Definition eight_o_clock : Anchor :=
  anchor "b.html" (Some "2024-06-01T08:00:00+08:00").

End Sample.


(** ** Book-keeping of a run *)

Module Ledger.
Import Spider Run.

(** The two tests of the listing loop on a joined URL. *)
Definition url_ok (u : string) : Prop :=
  PyStr.startswith "https://tw.news.yahoo.com/" u = true
  /\ PyStr.endswith ".html" u = true.

(** What the counters and the set say about the requests and items of a
    run. *)
Definition books_inv (y : Sys) : Prop :=
  item_count (st y) = Z.of_nat (length (emitted y))
  /\ seen_urls (st y) = list_to_set (req_url <$> dispatched y)
  /\ (link <$> emitted y) ++ (req_url <$> in_flight y) ⊆ req_url <$> dispatched y
  /\ (length (emitted y) + length (in_flight y) <= length (dispatched y))%nat
  /\ Forall url_ok (req_url <$> dispatched y).

(** With [max_urls = m]: the set never holds more than [max m 1] URLs, and
    while the loop is at its top or inside a rendering it holds fewer than
    [m], or none. *)
Definition below_limit (m : Z) (y : Sys) : Prop :=
  Z.of_nat (size (seen_urls (st y))) <= Z.max m 1
  /\ match archive y with
     | AtLoopTop _ | InRound _ _ =>
         Z.of_nat (size (seen_urls (st y))) < m \/ size (seen_urls (st y)) = 0%nat
     | _ => True
     end.

(** The anchors of the rendering in progress that are still to be
    visited. *)
Definition todo_of (a : Archive) : list Anchor :=
  match a with
  | InRound _ todo => todo
  | _ => []
  end.

(** The value of [scroll_round] while the loop runs. *)
Definition scroll_round_of (a : Archive) : option Z :=
  match a with
  | AtLoopTop n | InRound n _ | AfterRound n => Some n
  | Finished _ => None
  end.

End Ledger.

(** ** Texts without white space *)

Module Text.

(** Neither white space nor the letter Z. *)
Fixpoint plain (s : string) : bool :=
  match s with
  | String c s' => negb (PyStr.is_space c) && negb (Ascii.eqb c "Z") && plain s'
  | EmptyString => true
  end.

End Text.

(** ** Rows of one date *)

Module Stable.
Import DateTime Spider.

(** The rows whose date key reads [k], in the order of the file. *)
Definition dated (k : Z) (rows : list Row) : list Row :=
  filter (fun r => naive (date_key r) = k) rows.

Definition dated_pairs (k : Z) (l : list (nat * Row)) : list (nat * Row) :=
  filter (fun p => naive (date_key p.2) = k) l.

End Stable.

(** ** Structured data of an article page: [_extract_from_jsonld] *)

Module Jsonld.
Import Json.

(** [c.lower()] on one code point below 256: the letters A to Z and the
    capital letters of Latin-1. *)
Definition lower_char (c : ascii) : ascii :=
  let n := nat_of_ascii c in
  if ((65 <=? n) && (n <=? 90) || (192 <=? n) && (n <=? 222) && negb (n =? 215))%nat
  then ascii_of_nat (n + 32) else c.

(** [s.lower()] *)
Fixpoint lower (s : string) : string :=
  match s with
  | String c s' => String (lower_char c) (lower s')
  | EmptyString => EmptyString
  end.

(** [p in s] *)
Fixpoint contains (p s : string) : bool :=
  PyStr.startswith p s ||
  match s with
  | String _ s' => contains p s'
  | EmptyString => false
  end.

(** The nodes [_walk_json_nodes] yields, in the order it yields them. *)
Fixpoint _walk_json_nodes (data : value) : list value :=
  match data with
  | JDict items =>
      data :: (fix values (items : list (string * value)) : list value :=
                 match items with
                 | [] => []
                 | (_, v) :: rest => _walk_json_nodes v ++ values rest
                 end) items
  | JList l =>
      (fix each (l : list value) : list value :=
         match l with
         | [] => []
         | item :: rest => _walk_json_nodes item ++ each rest
         end) l
  | _ => []
  end.

(** [author_name, provider_name] *)
Definition Names : Type := option string * option string.

Definition is_None {A : Type} (o : option A) : bool :=
  match o with
  | None => true
  | Some _ => false
  end.

Section Extract.

(** [json.loads]; [None] when it raises. *)
Variable loads : string -> option value.

(** [str(x)] of a value that is not a string. *)
Variable py_str : value -> string.

Definition str (v : value) : string :=
  match v with
  | JStr s => s
  | _ => py_str v
  end.

(** [ntype_lower] of a node. *)
Definition ntype_lower (node : list (string * value)) : string :=
  let ntype := dict_get "@type" node in
  let ntype :=
    match ntype with
    | Some (JList l) => Some (JStr (PyStr.join " " (str <$> l)))
    | _ => ntype
    end in
  lower match ntype with
        | None | Some JNull => EmptyString
        | Some v => str v
        end.

(** [value.get("name")] when it is a string with something left after
    [strip()], else the name held so far. *)
Definition candidate_or (node : list (string * value)) (held : option string)
    : option string :=
  match dict_get "name" node with
  | Some (JStr candidate) =>
      if PyStr.truthy (Some (PyStr.strip candidate))
      then Some (PyStr.strip candidate) else held
  | _ => held
  end.

(** The body of the loop over the nodes, for a node that is a [dict], up
    to the test that returns. *)
Definition visit_node (names : Names) (node : list (string * value)) : Names :=
  let '(author_name, provider_name) := names in
  let t := ntype_lower node in
  let '(author_name, provider_name) :=
    if contains "newsarticle" t || contains "article" t then
      (if is_None author_name
       then v ← dict_get "author" node; _extract_person_name v
       else author_name,
       if is_None provider_name
       then v ← dict_get "provider" node; _extract_org_name v
       else provider_name)
    else (author_name, provider_name) in
  let author_name :=
    if is_None author_name && contains "person" t
    then candidate_or node author_name else author_name in
  let provider_name :=
    if is_None provider_name && contains "organization" t
    then candidate_or node provider_name else provider_name in
  (author_name, provider_name).

(** The loop over the nodes of one payload; the flag tells that the
    function has returned from inside it. *)
Fixpoint scan_nodes (names : Names) (nodes : list value) : Names * bool :=
  match nodes with
  | [] => (names, false)
  | JDict node :: rest =>
      let names := visit_node names node in
      if PyStr.truthy names.1 && PyStr.truthy names.2 then (names, true)
      else scan_nodes names rest
  | _ :: rest => scan_nodes names rest
  end.

(** The loop over the scripts. *)
Fixpoint scan_scripts (names : Names) (scripts : list string) : Names :=
  match scripts with
  | [] => names
  | raw :: rest =>
      let raw := if PyStr.truthy (Some raw) then PyStr.strip raw else EmptyString in
      if negb (PyStr.truthy (Some raw)) then scan_scripts names rest
      else
        match loads raw with
        | None => scan_scripts names rest
        | Some payload =>
            let '(names, returned) := scan_nodes names (_walk_json_nodes payload) in
            if returned then names else scan_scripts names rest
        end
  end.

(** [scripts] are the texts of the [application/ld+json] scripts of the
    page. *)
Definition _extract_from_jsonld (scripts : list string) : Names :=
  match scripts with
  | [] => (None, None)
  | _ => scan_scripts (None, None) scripts
  end.

(** What one node offers for each of the two names. *)
Definition author_of (node : value) : option string :=
  match node with
  | JDict node =>
      let t := ntype_lower node in
      match (if contains "article" t
             then v ← dict_get "author" node; _extract_person_name v
             else None) with
      | Some n => Some n
      | None => if contains "person" t then name_of node else None
      end
  | _ => None
  end.

Definition provider_of (node : value) : option string :=
  match node with
  | JDict node =>
      let t := ntype_lower node in
      match (if contains "article" t
             then v ← dict_get "provider" node; _extract_org_name v
             else None) with
      | Some n => Some n
      | None => if contains "organization" t then name_of node else None
      end
  | _ => None
  end.

(** The payloads of the scripts that are not blank and that parse, and
    their nodes in document order. *)
Definition payloads (scripts : list string) : list value :=
  omap (fun raw => if negb (PyStr.truthy (Some (PyStr.strip raw))) then None
                   else loads (PyStr.strip raw)) scripts.

Definition nodes (scripts : list string) : list value :=
  payloads scripts ≫= _walk_json_nodes.

End Extract.

(** [a or b] when [a] is [None] or a name. *)
Definition first_of (a b : option string) : option string :=
  match a with
  | Some _ => a
  | None => b
  end.

(** [None], or a text that is not empty. *)
Definition named (o : option string) : Prop :=
  forall n, o = Some n -> PyStr.truthy (Some n) = true.

(** [inner] is [outer] or is nested in it, through lists and through the
    values of mappings. *)
Inductive inside (inner : value) : value -> Prop :=
| inside_here : inside inner inner
| inside_list l item : item ∈ l -> inside inner item -> inside inner (JList l)
| inside_dict items k v : (k, v) ∈ items -> inside inner v -> inside inner (JDict items).

Definition is_dict (v : value) : Prop :=
  match v with
  | JDict _ => True
  | _ => False
  end.

(** A text that is not empty and has no white space at either end. *)
Definition trimmed (s : string) : Prop :=
  s <> EmptyString /\ PyStr.strip s = s.

(** [None], or a text that [strip()] leaves as it is. *)
Definition stripped (o : option string) : Prop :=
  forall t, o = Some t -> PyStr.strip t = t.

(** A page with one script, which holds an article and its publisher. *)
Definition sample_loads (raw : string) : option value :=
  if String.eqb raw "article"
  then Some (JList
         [ JDict [("@type"%string, JStr "NewsArticle");
                  ("author"%string, JList [JDict [("name"%string, JStr " Ann ")];
                                           JStr "Bob"])];
           JDict [("@type"%string, JList [JStr "Thing"; JStr "Organization"]);
                  ("name"%string, JStr "Daily")] ])
  else None.

Definition sample_str (v : value) : string := "None".

End Jsonld.

Module SamplePage.
Import Spider.

(** An article page whose script is the one [Jsonld.sample_loads] reads,
    with a heading and an [author] meta tag. *)
Definition sample_page : Response :=
  {| url := Sample.site +:+ "a.html"; h1_text := Some "  Rain at last ";
     jsonld_author := Some "Ann, Bob"; jsonld_provider := Some "Daily";
     meta_author := Some "desk"; rel_author := None;
     og_site_name := Some "Yahoo News"; application_name := None;
     time_datetime := Some "2024-06-01T09:30:00+08:00";
     meta_published_time := None; meta_pubdate := None |}.

End SamplePage.


(** ** The request for the listing page, and its retries *)

Module Retry.

(** The [archive_retry_count] entry of the request built by
    [_make_archive_request]. *)
Definition _make_archive_request (retry_count : Z) : Z := retry_count.

Definition start_requests : list Z := [_make_archive_request 0].

(** [on_archive_error]: [meta] is the [archive_retry_count] entry of the
    failed request, or [None] without one; the result lists the requests
    yielded. *)
Definition on_archive_error (meta : option Z) : list Z :=
  let retry_count := default 0 meta in
  if retry_count <? 2 then [_make_archive_request (retry_count + 1)] else [].

(** The requests for the listing page when each of them fails, from a
    first [request] on; [fuel] bounds the failures looked at. *)
Fixpoint attempts (fuel : nat) (request : Z) : list Z :=
  request ::
  match fuel with
  | O => []
  | S fuel => on_archive_error (Some request) ≫= attempts fuel
  end.

End Retry.

(** ** The name of the output file *)

Module Output.
Import DateTime Spider.

(** [dt.date()] *)
Definition date_of (dt : datetime) : Z * Z * Z :=
  let f := fields_of (naive dt) in (year f, month f, day f).

(** [dt.strftime("%Y%m%d")] and [dt.strftime("%H%M")]; the year is
    written as the platform's [strftime] writes years from 1000 on. *)
Definition strftime_Ymd (dt : datetime) : string :=
  let f := fields_of (naive dt) in
  print_digits 4 (year f) +:+ print_digits 2 (month f) +:+ print_digits 2 (day f).

Definition strftime_HM (dt : datetime) : string :=
  let f := fields_of (naive dt) in
  print_digits 2 (hour f) +:+ print_digits 2 (minute f).

Definition _build_output_filename (c : Config) : string :=
  if decide (date_of (start_dt c) = date_of (end_dt c)) then
    let date_part := strftime_Ymd (end_dt c) in
    let time_part := strftime_HM (start_dt c) +:+ "~" +:+ strftime_HM (end_dt c) in
    "result_" +:+ date_part +:+ "_" +:+ time_part +:+ ".csv"
  else
    "result_" +:+ strftime_Ymd (start_dt c) +:+ "-" +:+ strftime_HM (start_dt c)
    +:+ "~" +:+ strftime_Ymd (end_dt c) +:+ "-" +:+ strftime_HM (end_dt c) +:+ ".csv".

(** The value [from_crawler] leaves in [spider.output_uri]; [feeds] are
    the keys of the [FEEDS] setting. *)
Definition from_crawler (feeds : list string) (feed_uri : option string)
    (c : Config) : option string :=
  if bool_decide (feeds = []) && negb (PyStr.truthy feed_uri)
  then Some (_build_output_filename c)
  else None.

Definition _pick_output_csv_uri (output_uri : option string) (feeds : list string)
    (feed_uri : option string) : option string :=
  if PyStr.truthy output_uri then output_uri
  else
    match filter (fun uri => PyStr.endswith ".csv" (Jsonld.lower uri) = true) feeds with
    | uri :: _ => Some uri
    | [] => feed_uri
    end.

End Output.

(** ** A listing entry dated before the window *)

Module Old.
Import DateTime Spider Window.

Definition old_entry (c : Config) (s : State) (a : Anchor) : Prop :=
  candidate s a = true
  /\ exists d, _parse_datetime (listing_hint a) = Some d /\ classify c d = TOO_OLD.

End Old.

(** ** More predicates on the state of a run *)

Module Inv2.
Import DateTime Spider Run.

(** A stop is requested only after an in-window date has been seen, and
    without limits the loop has ended only for a requested stop. *)
Definition stop_inv (y : Sys) : Prop :=
  (stop_requested (st y) = true -> seen_recent_article (st y) = true)
  /\ forall why, archive y = Finished why ->
       why = StopRequested /\ stop_requested (st y) = true.

(** The item carries the text of a date of the reference timezone that
    lies in the window. *)
Definition stamped_in_window (c : Config) (it : Item) : Prop :=
  exists d, date it = isoformat d /\ tz_of d = Some TZ
            /\ naive (start_dt c) <= naive d <= naive (end_dt c)
            /\ 0 <= naive d < MAX_US.

End Inv2.

(** ** Texts without a space *)

Module Words.

(** No character of [p] is a space. *)
Fixpoint spaceless (p : string) : bool :=
  match p with
  | String c p' => negb (Ascii.eqb c " ") && spaceless p'
  | EmptyString => true
  end.

End Words.

(** ** Why the loop has ended *)

Module Reason.
Import Spider Run.

(** The test that made the loop [break] for the reason [why]. *)
Definition justified (c : Config) (s : State) (why : StopReason) : Prop :=
  match why with
  | StopRequested => stop_requested s = true
  | HitMaxScroll => exists m, max_scroll c = Some m
  | HitMaxUrls => exists m, max_urls c = Some m /\ m <= Z.of_nat (size (seen_urls s))
  | OutOfPages => False
  end.

End Reason.


(** * Proofs *)

Import Calendar DateTime Json Spider Run Window Inv Iso.
#[local] Set Warnings "-clear-no-such-hyp".

(** ** The two callbacks, case by case *)

Lemma visit_anchor_skip c s a :
  candidate s a = false -> visit_anchor c s a = (s, [], Continue).
Proof.
  unfold candidate, visit_anchor. intros H.
  destruct (PyStr.truthy (href a)); [|reflexivity].
  destruct (PyStr.startswith _ (joined a)); [|reflexivity].
  destruct (PyStr.endswith _ (joined a)); [|reflexivity].
  destruct (bool_decide (joined a ∈ seen_urls s)); [reflexivity|discriminate].
Qed.

Lemma visit_anchor_candidate c s a :
  candidate s a = true ->
  visit_anchor c s a =
    match _parse_datetime (listing_hint a) with
    | Some d =>
        match classify c d with
        | TOO_NEW => (s, [], Continue)
        | TOO_OLD =>
            (after_old c s, [],
             if seen_recent_article s && (old_streak_stop c <=? old_count_streak s + 1)
             then Break else Continue)
        | IN_WINDOW => dispatch c (mark_recent s) (joined a) (listing_hint a)
        end
    | None => dispatch c s (joined a) (listing_hint a)
    end.
Proof.
  unfold candidate, visit_anchor, classify, after_old. intros H.
  destruct (PyStr.truthy (href a)); [|discriminate].
  destruct (PyStr.startswith _ (joined a)); [|discriminate].
  destruct (PyStr.endswith _ (joined a)); [|discriminate].
  destruct (bool_decide (joined a ∈ seen_urls s)); [discriminate|].
  cbn [negb]. fold (listing_hint a).
  destruct (_parse_datetime (listing_hint a)) as [d|]; [|reflexivity].
  destruct (ltb (end_dt c) d); [reflexivity|].
  destruct (ltb d (start_dt c)); [|reflexivity].
  destruct (seen_recent_article s); [|reflexivity].
  cbn [bump_streak old_count_streak andb].
  destruct (old_streak_stop c <=? old_count_streak s + 1); reflexivity.
Qed.

Lemma parse_article_cases c s r hint :
  parse_article c s r hint =
    match pub_dt r hint with
    | None => (s, [])
    | Some d =>
        match classify c d with
        | TOO_NEW => (s, [])
        | TOO_OLD => (after_old c s, [])
        | IN_WINDOW =>
            (count_item (mark_recent s),
             [ {| link := url r;
                  title := strip_or_None (h1_text r);
                  author := strip_or_None
                    (PyStr.or_else (PyStr.or_else (jsonld_author r) (meta_author r))
                                   (rel_author r));
                  provider := strip_or_None
                    (PyStr.or_else (PyStr.or_else (jsonld_provider r) (og_site_name r))
                                   (application_name r));
                  date := isoformat d |} ])
        end
    end.
Proof.
  unfold parse_article, classify, after_old, ltb, leb.
  destruct (pub_dt r hint) as [d|]; [|reflexivity].
  destruct (Z.ltb_spec (naive (end_dt c)) (naive d)); [reflexivity|].
  destruct (Z.ltb_spec (naive d) (naive (start_dt c))).
  - destruct (seen_recent_article s); [|reflexivity].
    cbn [bump_streak old_count_streak].
    destruct (old_streak_stop c <=? old_count_streak s + 1); reflexivity.
  - destruct (Z.leb_spec (naive (start_dt c)) (naive d)); [|lia].
    destruct (Z.leb_spec (naive d) (naive (end_dt c))); [|lia].
    reflexivity.
Qed.

(** ** Effects of one callback on the state *)

Ltac split_visit H :=
  match type of H with
  | visit_anchor ?c ?s ?a = _ =>
      let Hc := fresh "Hcand" in
      destruct (candidate s a) eqn:Hc;
      [ rewrite (visit_anchor_candidate c s a Hc) in H;
        unfold dispatch, after_old in H;
        repeat case_match; simplify_eq
      | rewrite (visit_anchor_skip c s a Hc) in H; simplify_eq ]
  end.

Ltac split_article H :=
  match type of H with
  | parse_article ?c ?s ?r ?h = _ =>
      rewrite (parse_article_cases c s r h) in H;
      unfold after_old in H;
      repeat case_match; simplify_eq
  end.

Lemma flags_grow_refl s : flags_grow s s.
Proof. unfold flags_grow. set_solver. Qed.

Lemma flags_grow_trans s1 s2 s3 :
  flags_grow s1 s2 -> flags_grow s2 s3 -> flags_grow s1 s3.
Proof. unfold flags_grow. intros (?&?&?) (?&?&?). repeat split; [tauto | tauto | set_solver]. Qed.

Lemma visit_anchor_grows c s a s' reqs flow :
  visit_anchor c s a = (s', reqs, flow) -> flags_grow s s'.
Proof.
  intros H. unfold flags_grow. split_visit H; simpl; repeat split; try tauto; try set_solver.
Qed.

Lemma parse_article_grows c s r hint s' items :
  parse_article c s r hint = (s', items) -> flags_grow s s'.
Proof.
  intros H. unfold flags_grow. split_article H; simpl; repeat split; try tauto; try set_solver.
Qed.

Lemma step_grows c y y' : step c y y' -> flags_grow (st y) (st y').
Proof.
  destruct 1; simpl; eauto using flags_grow_refl, visit_anchor_grows, parse_article_grows.
Qed.

Lemma steps_grow c y y' : rtc (step c) y y' -> flags_grow (st y) (st y').
Proof.
  induction 1; eauto using flags_grow_refl, flags_grow_trans, step_grows.
Qed.

Lemma classify_IN_WINDOW c d :
  classify c d = IN_WINDOW <-> naive (start_dt c) <= naive d <= naive (end_dt c).
Proof.
  unfold classify, ltb.
  destruct (Z.ltb_spec (naive (end_dt c)) (naive d));
    destruct (Z.ltb_spec (naive d) (naive (start_dt c))); split; intros; try discriminate; try lia; reflexivity.
Qed.

Lemma classify_TOO_NEW c d :
  classify c d = TOO_NEW <-> naive (end_dt c) < naive d.
Proof.
  unfold classify, ltb.
  destruct (Z.ltb_spec (naive (end_dt c)) (naive d));
    destruct (Z.ltb_spec (naive d) (naive (start_dt c))); split; intros; try discriminate; try lia; reflexivity.
Qed.

Lemma classify_TOO_OLD c d :
  classify c d = TOO_OLD <-> naive d <= naive (end_dt c) /\ naive d < naive (start_dt c).
Proof.
  unfold classify, ltb.
  destruct (Z.ltb_spec (naive (end_dt c)) (naive d));
    destruct (Z.ltb_spec (naive d) (naive (start_dt c))); split; intros; try discriminate; try lia; reflexivity.
Qed.

(** Every item [parse_article] yields carries the URL of the response and
    the serialisation of the resolved date, which is in the window. *)
Lemma parse_article_items c s r hint s' items :
  parse_article c s r hint = (s', items) ->
  items = [] \/
  exists d it,
    items = [it] /\ pub_dt r hint = Some d /\ classify c d = IN_WINDOW
    /\ link it = url r /\ date it = isoformat d.
Proof.
  intros H. rewrite parse_article_cases in H.
  destruct (pub_dt r hint) as [d|]; [|left; congruence].
  destruct (classify c d) eqn:Hc; simplify_eq; eauto 10.
Qed.

(** A listing step yields no request, or one request for a URL that was
    not in [seen_urls] and now is. *)
Lemma visit_anchor_requests c s a s' reqs flow :
  visit_anchor c s a = (s', reqs, flow) ->
  reqs = [] \/
  (reqs = [ {| req_url := joined a; archive_dt_str := listing_hint a |} ]
   /\ (joined a ∉ seen_urls s) /\ (joined a ∈ seen_urls s')).
Proof.
  intros H.
  destruct (candidate s a) eqn:Hcand.
  - assert (Hfresh : joined a ∉ seen_urls s).
    { unfold candidate in Hcand. apply andb_true_iff in Hcand as [_ Hcand].
      apply negb_true_iff, bool_decide_eq_false in Hcand. exact Hcand. }
    rewrite (visit_anchor_candidate c s a Hcand) in H.
    unfold dispatch in H. repeat case_match; simplify_eq; auto.
    all: right; simpl; repeat split; auto; set_solver.
  - rewrite (visit_anchor_skip c s a Hcand) in H. simplify_eq. auto.
Qed.

Lemma dedup_inv_initial : dedup_inv initial.
Proof.
  unfold dedup_inv, initial; simpl. repeat split; try constructor; set_solver.
Qed.

Lemma dedup_inv_step c y y' : step c y y' -> dedup_inv y -> dedup_inv y'.
Proof.
  intros Hstep (Hd & He & Hds & Hes).
  pose proof (step_grows _ _ _ Hstep) as (_ & _ & Hsub).
  unfold dedup_inv.
  destruct Hstep; cbn [st in_flight dispatched emitted] in *;
    try (repeat split; assumption).
  - (* a listing step *)
    destruct (visit_anchor_requests _ _ _ _ _ _ H) as [-> | (-> & Hfresh & Hin)].
    + rewrite !app_nil_r. repeat split; auto.
    + rewrite !fmap_app. simpl. repeat split.
      * apply NoDup_app. repeat split; [assumption | | apply NoDup_singleton].
        intros u Hu Hu'. apply list_elem_of_singleton in Hu'. subst u.
        apply Hfresh, Hds, Hu.
      * rewrite app_assoc. apply NoDup_app. repeat split; [assumption | | apply NoDup_singleton].
        intros u Hu Hu'. apply list_elem_of_singleton in Hu'. subst u.
        apply Hfresh, Hes, Hu.
      * intros u Hu. apply elem_of_app in Hu as [Hu | Hu]; [auto|].
        apply list_elem_of_singleton in Hu. subst u. exact Hin.
      * intros u Hu. rewrite app_assoc in Hu.
        apply elem_of_app in Hu as [Hu | Hu]; [auto|].
        apply list_elem_of_singleton in Hu. subst u. exact Hin.
  - (* an article callback *)
    assert (Hperm : (link <$> em) ++ (req_url <$> (fl1 ++ req :: fl2))
                    ≡ₚ ((link <$> em) ++ [req_url req]) ++ (req_url <$> (fl1 ++ fl2))).
    { rewrite !fmap_app, fmap_cons. rewrite <- Permutation_middle.
      rewrite <- !app_assoc. simpl. rewrite <- Permutation_middle. reflexivity. }
    destruct (parse_article_items _ _ _ _ _ _ H0)
      as [-> | (d & it & -> & _ & _ & Hlink & _)].
    + rewrite app_nil_r. repeat split; auto.
      * rewrite Hperm in He. rewrite <- app_assoc in He. simpl in He.
        apply NoDup_app in He as (He1 & He2 & He3).
        apply NoDup_app. repeat split; [assumption | | by inversion He3].
        intros u Hu Hu'. apply (He2 u Hu). right. exact Hu'.
      * intros u Hu. apply Hsub, Hes. rewrite Hperm.
        apply elem_of_app in Hu as [Hu | Hu]; apply elem_of_app;
          [left; apply elem_of_app; by left | by right].
    + rewrite fmap_app. simpl. rewrite Hlink, H. repeat split; auto.
      * rewrite <- Hperm. exact He.
      * intros u Hu. apply Hsub, Hes. rewrite Hperm. exact Hu.
  - (* a failed download *)
    assert (Hperm : (link <$> em) ++ (req_url <$> (fl1 ++ req :: fl2))
                    ≡ₚ req_url req :: (link <$> em) ++ (req_url <$> (fl1 ++ fl2))).
    { rewrite !fmap_app, fmap_cons. rewrite <- !Permutation_middle. reflexivity. }
    repeat split; auto.
    + rewrite Hperm in He. by inversion He.
    + intros u Hu. apply Hes. rewrite Hperm. by right.
Qed.

Lemma dedup_inv_reachable c y : reachable c y -> dedup_inv y.
Proof.
  unfold reachable. intros H.
  eapply (rtc_ind_r (fun y => dedup_inv y)); [apply dedup_inv_initial | | exact H].
  eauto using dedup_inv_step.
Qed.

Lemma emitted_in_window c y :
  reachable c y -> forall it, it ∈ emitted y -> dated_in_window c it.
Proof.
  unfold reachable. intros H.
  eapply (rtc_ind_r (fun y => forall it, it ∈ emitted y -> dated_in_window c it));
    [ | | exact H].
  - simpl. intros it Hit. inversion Hit.
  - clear. intros y z _ Hstep IH.
    destruct Hstep; cbn [emitted] in *; auto.
    intros it Hit. apply elem_of_app in Hit as [Hit | Hit]; [auto|].
    destruct (parse_article_items _ _ _ _ _ _ H0)
      as [-> | (d & it' & -> & _ & Hc & _ & Hdate)].
    + inversion Hit.
    + apply list_elem_of_singleton in Hit. subst it'.
      exists d. split; [assumption|]. by apply classify_IN_WINDOW.
Qed.

Lemma streak_inv_visit c s a s' reqs flow :
  visit_anchor c s a = (s', reqs, flow) -> streak_inv c s -> streak_inv c s'.
Proof.
  unfold streak_inv. intros H (H0 & H1 & H2).
  split_visit H; simpl in *; repeat split; intros; try lia; try congruence; auto.
Qed.

Lemma streak_inv_article c s r hint s' items :
  parse_article c s r hint = (s', items) -> streak_inv c s -> streak_inv c s'.
Proof.
  unfold streak_inv. intros H (H0 & H1 & H2).
  split_article H; simpl in *; repeat split; intros; try lia; try congruence; auto.
Qed.

Lemma streak_inv_step c y y' :
  step c y y' -> streak_inv c (st y) -> streak_inv c (st y').
Proof.
  destruct 1; simpl; eauto using streak_inv_visit, streak_inv_article.
Qed.

Lemma streak_inv_reachable c y : reachable c y -> streak_inv c (st y).
Proof.
  unfold reachable. intros H.
  eapply (rtc_ind_r (fun y => streak_inv c (st y))); [ | | exact H].
  - unfold streak_inv; simpl. repeat split; intros; lia.
  - eauto using streak_inv_step.
Qed.

Lemma visit_qualifying c s a :
  qualifies c a -> joined a ∉ seen_urls s ->
  exists s0,
    visit_anchor c s a =
      (add_seen (joined a) s0, [request_for a],
       if hit_max_urls c (add_seen (joined a) s0) then Break else Continue)
    /\ seen_urls s0 = seen_urls s /\ stop_requested s0 = stop_requested s.
Proof.
  intros (Hh & Hp & Hs & Hd) Hfresh.
  assert (Hcand : candidate s a = true).
  { unfold candidate. rewrite Hh, Hp, Hs. simpl.
    apply negb_true_iff, bool_decide_eq_false. exact Hfresh. }
  rewrite (visit_anchor_candidate c s a Hcand). unfold dispatch, request_for.
  destruct (_parse_datetime (listing_hint a)) as [d|].
  - rewrite Hd. exists (mark_recent s). auto.
  - exists s. auto.
Qed.

Lemma scan_until_max c m :
  max_urls c = Some m ->
  forall anchors s,
    Forall (qualifies c) anchors ->
    NoDup (joined <$> anchors) ->
    (forall a, a ∈ anchors -> joined a ∉ seen_urls s) ->
    Z.of_nat (size (seen_urls s)) < m ->
    (Z.to_nat (m - Z.of_nat (size (seen_urls s))) <= length anchors)%nat ->
    exists s',
      scan_anchors c s anchors
        = (s', request_for <$> take (Z.to_nat (m - Z.of_nat (size (seen_urls s)))) anchors)
      /\ seen_urls s'
         = list_to_set (joined <$> take (Z.to_nat (m - Z.of_nat (size (seen_urls s)))) anchors)
           ∪ seen_urls s
      /\ Z.of_nat (size (seen_urls s')) = m
      /\ stop_requested s' = stop_requested s.
Proof.
  intros Hm anchors. induction anchors as [|a rest IH]; intros s Hq Hnd Hfresh Hlt Hlen.
  - simpl in Hlen. lia.
  - apply Forall_cons in Hq as [Hqa Hq]. rewrite fmap_cons in Hnd.
    apply NoDup_cons in Hnd as [Hna Hnd].
    assert (Ha : joined a ∉ seen_urls s) by (apply Hfresh; left).
    destruct (visit_qualifying c s a Hqa Ha) as (s0 & Hv & Hseen & Hstop).
    assert (Hsize : size (seen_urls (add_seen (joined a) s0)) = S (size (seen_urls s))).
    { simpl. rewrite Hseen.
      rewrite size_union by (by apply disjoint_singleton_l).
      rewrite size_singleton. reflexivity. }
    cbn [scan_anchors]. rewrite Hv.
    remember (Z.to_nat (m - Z.of_nat (size (seen_urls s)))) as k eqn:Hk.
    destruct k as [|k]; [lia|]. cbn [take fmap list_fmap].
    unfold hit_max_urls at 1. rewrite Hm, Hsize.
    destruct (Z.leb_spec m (Z.of_nat (S (size (seen_urls s))))) as [Hge | Hless].
    + (* the limit is met: the loop breaks *)
      assert (k = 0%nat) by lia. subst k. rewrite take_0. simpl.
      eexists. split; [reflexivity|]. repeat split.
      * simpl. rewrite Hseen. set_solver.
      * rewrite Hsize. lia.
      * exact Hstop.
    + destruct (IH (add_seen (joined a) s0)) as (s' & Hscan & Hs' & Hsz & Hst); auto.
      * intros b Hb. simpl. rewrite Hseen.
        assert (joined b ≠ joined a).
        { intros E. apply Hna. rewrite <- E. apply list_elem_of_fmap. eauto. }
        assert (joined b ∉ seen_urls s) by (apply Hfresh; by right).
        set_solver.
      * rewrite Hsize. lia.
      * rewrite Hsize. simpl in Hlen. lia.
      * rewrite Hsize in Hscan, Hs'.
        replace (Z.to_nat (m - Z.of_nat (S (size (seen_urls s))))) with k in * by lia.
        rewrite Hscan. eexists. split; [reflexivity|].
        repeat split; [ | exact Hsz | simpl in Hst; congruence ].
        rewrite Hs'. simpl. rewrite Hseen. set_solver.
Qed.


(** ** The sample run *)

Lemma sample_run_reachable c a todo r s1 s2 items :
  hit_max_scroll c 0 = false ->
  visit_anchor c initial_state a = (s1, [request_for a], Continue) ->
  url r = joined a ->
  parse_article c s1 r (listing_hint a) = (s2, items) ->
  reachable c (Sample.after_first_article c a todo r)
  /\ Sample.after_first_article c a todo r
     = {| st := s2; archive := InRound 1 todo; in_flight := [];
          dispatched := [request_for a]; emitted := items |}.
Proof.
  intros Hms Hv Hu Hp. unfold Sample.after_first_article. cbv zeta.
  rewrite Hv. cbn [fst snd]. rewrite Hp. cbn [fst snd]. split; [|reflexivity].
  unfold reachable, initial.
  eapply rtc_l; [ apply (step_render c _ 0 _ _ _ (a :: todo)); [reflexivity | exact Hms] |].
  eapply rtc_l; [ apply (step_anchor c _ _ a todo); exact Hv |].
  apply rtc_once.
  exact (step_article c s1 (InRound 1 todo) [] (request_for a) []
           [request_for a] [] r s2 items Hu Hp).
Qed.

Lemma sample_visit max old :
  visit_anchor (Sample.config max old) initial_state Sample.half_past_nine
  = (add_seen (joined Sample.half_past_nine) (mark_recent initial_state),
     [request_for Sample.half_past_nine],
     if hit_max_urls (Sample.config max old)
          (add_seen (joined Sample.half_past_nine) (mark_recent initial_state))
     then Break else Continue).
Proof.
  assert (Hc : candidate initial_state Sample.half_past_nine = true)
    by (vm_compute; reflexivity).
  rewrite (visit_anchor_candidate _ _ _ Hc).
  assert (Hd : _parse_datetime (listing_hint Sample.half_past_nine)
               = Some {| naive := Sample.ten_o_clock - 1800 * US_PER_SECOND;
                         tz_of := Some TZ |})
    by (vm_compute; reflexivity).
  rewrite Hd. reflexivity.
Qed.

Lemma sample_pub_dt_end :
  pub_dt Sample.page_at_end (listing_hint Sample.half_past_nine)
  = Some (end_dt (Sample.config None 20)).
Proof. vm_compute. reflexivity. Qed.

Lemma sample_pub_dt_half_past :
  pub_dt Sample.page_at_half_past (listing_hint Sample.half_past_nine)
  = Some {| naive := Sample.ten_o_clock - 1800 * US_PER_SECOND; tz_of := Some TZ |}.
Proof. vm_compute. reflexivity. Qed.

Lemma sample_reachable old todo :
  reachable (Sample.config None old)
    (Sample.after_first_article (Sample.config None old)
       Sample.half_past_nine todo Sample.page_at_half_past).
Proof.
  eapply sample_run_reachable.
  - reflexivity.
  - apply (sample_visit None old).
  - reflexivity.
  - reflexivity.
Qed.

Lemma sample_state old todo :
  st (Sample.after_first_article (Sample.config None old)
        Sample.half_past_nine todo Sample.page_at_half_past)
  = count_item (mark_recent
      (add_seen (joined Sample.half_past_nine) (mark_recent initial_state))).
Proof.
  unfold Sample.after_first_article. cbv zeta. rewrite (sample_visit None old).
  cbn [fst snd st]. rewrite parse_article_cases, sample_pub_dt_half_past.
  reflexivity.
Qed.

(** The sample configuration is what [__init__] builds for
    [end="2024-06-01 10:00"]. *)
Lemma sample_config_init max old :
  __init__ Sample.ten_o_clock None max old 350
  = Some (Sample.config max old, initial_state)
  /\ fromisoformat "2024-06-01T10:00:00"
     = Some {| naive := Sample.ten_o_clock; tz_of := None |}.
Proof. split; reflexivity. Qed.

(** ** The window of emitted dates *)

(** Claim C1 as stated fails: an article whose resolved date is exactly
    [end_dt] passes both comparisons and is emitted, so emitted dates are
    not all strictly before the end of the window. *)
Lemma article_dated_at_end_is_emitted :
  ~ (forall c s r hint s' it d,
       parse_article c s r hint = (s', [it]) ->
       pub_dt r hint = Some d ->
       naive (start_dt c) <= naive d < naive (end_dt c)).
Proof.
  intros H.
  pose (c := Sample.config None 20).
  pose (hint := listing_hint Sample.half_past_nine).
  assert (Hp : exists s' it, parse_article c initial_state Sample.page_at_end hint = (s', [it])).
  { rewrite parse_article_cases. unfold hint. rewrite sample_pub_dt_end.
    unfold c. cbn. eauto. }
  destruct Hp as (s' & it & Hp).
  specialize (H c initial_state Sample.page_at_end hint s' it _ Hp sample_pub_dt_end).
  unfold c in H. cbn in H. lia.
Qed.

(** Claim C1, amended: every item emitted during a run carries a resolved
    date [d] with [start_dt <= d <= end_dt], both ends included; an article
    whose resolved date equals [end_dt] is in the window and is emitted. *)
Theorem emitted_dates_in_closed_window (c : Config) (y : Sys) :
  reachable c y ->
  (forall it, it ∈ emitted y -> dated_in_window c it)
  /\ (forall r hint d,
        pub_dt r hint = Some d ->
        naive d = naive (end_dt c) ->
        naive (start_dt c) <= naive (end_dt c) ->
        classify c d = IN_WINDOW
        /\ exists it,
             parse_article c (st y) r hint = (count_item (mark_recent (st y)), [it])
             /\ link it = url r /\ date it = isoformat d).
Proof.
  intros Hy. split; [exact (emitted_in_window c y Hy)|].
  intros r hint d Hd He Hse.
  assert (Hc : classify c d = IN_WINDOW) by (apply classify_IN_WINDOW; lia).
  split; [exact Hc|].
  rewrite parse_article_cases, Hd, Hc. eauto.
Qed.

Lemma emitted_dates_in_closed_window_witness :
  reachable (Sample.config None 20)
    (Sample.after_first_article (Sample.config None 20)
       Sample.half_past_nine [] Sample.page_at_half_past)
  /\ forall it,
       it ∈ emitted (Sample.after_first_article (Sample.config None 20)
                       Sample.half_past_nine [] Sample.page_at_half_past) ->
       dated_in_window (Sample.config None 20) it.
Proof.
  split; [apply sample_reachable|].
  apply (emitted_dates_in_closed_window _ _ (sample_reachable 20 [])).
Defined.

(** ** At most one request and one item per URL *)

(** Claim C2: in a run no URL is requested twice and no two emitted items
    share a link; an anchor whose URL is in [seen_urls] is passed over, and
    the URL of every request the loop yields is by then in [seen_urls]
    (and was not before). *)
Theorem each_url_requested_and_emitted_once (c : Config) (y : Sys) :
  reachable c y ->
  NoDup (req_url <$> dispatched y)
  /\ NoDup (link <$> emitted y)
  /\ (forall a, joined a ∈ seen_urls (st y) ->
        visit_anchor c (st y) a = (st y, [], Continue))
  /\ (forall a s' reqs flow,
        visit_anchor c (st y) a = (s', reqs, flow) ->
        forall q, q ∈ reqs ->
          req_url q = joined a /\ (req_url q ∈ seen_urls s')
          /\ (req_url q ∉ seen_urls (st y))).
Proof.
  intros Hy. destruct (dedup_inv_reachable c y Hy) as (Hd & He & _ & _).
  repeat split.
  - exact Hd.
  - by apply NoDup_app in He as (He & _ & _).
  - intros a Ha. apply visit_anchor_skip. unfold candidate.
    rewrite (bool_decide_eq_true_2 _ Ha). simpl. by rewrite andb_false_r.
  - destruct (visit_anchor_requests _ _ _ _ _ _ H) as [-> | (-> & _ & _)].
    + inversion H0.
    + apply list_elem_of_singleton in H0. by subst q.
  - destruct (visit_anchor_requests _ _ _ _ _ _ H) as [-> | (-> & _ & Hin)].
    + inversion H0.
    + apply list_elem_of_singleton in H0. by subst q.
  - destruct (visit_anchor_requests _ _ _ _ _ _ H) as [-> | (-> & Hfresh & _)].
    + inversion H0.
    + apply list_elem_of_singleton in H0. by subst q.
Qed.

Lemma each_url_requested_and_emitted_once_witness :
  reachable (Sample.config None 20)
    (Sample.after_first_article (Sample.config None 20)
       Sample.half_past_nine [] Sample.page_at_half_past)
  /\ NoDup (link <$> emitted
              (Sample.after_first_article (Sample.config None 20)
                 Sample.half_past_nine [] Sample.page_at_half_past)).
Proof.
  split; [apply sample_reachable|].
  apply (each_url_requested_and_emitted_once _ _ (sample_reachable 20 [])).
Defined.

(** ** The streak counter and the stop flag *)

Lemma visit_anchor_stop c s a s' reqs flow :
  visit_anchor c s a = (s', reqs, flow) -> streak_inv c s ->
  stop_requested s = false ->
  (stop_requested s' = true <->
   old_count_streak s' = old_count_streak s + 1
   /\ old_streak_stop c <= old_count_streak s').
Proof.
  unfold streak_inv. intros H (H0 & H1 & H2) Hs.
  split_visit H; simpl in *; split; intros; try split; try lia; try congruence.
Qed.

Lemma parse_article_stop c s r hint s' items :
  parse_article c s r hint = (s', items) -> streak_inv c s ->
  stop_requested s = false ->
  (stop_requested s' = true <->
   old_count_streak s' = old_count_streak s + 1
   /\ old_streak_stop c <= old_count_streak s').
Proof.
  unfold streak_inv. intros H (H0 & H1 & H2) Hs.
  split_article H; simpl in *; split; intros; try split; try lia; try congruence.
Qed.

Lemma visit_anchor_reach c s a s' reqs flow :
  visit_anchor c s a = (s', reqs, flow) -> 1 <= old_streak_stop c ->
  old_count_streak s <> old_streak_stop c ->
  old_count_streak s' = old_streak_stop c -> stop_requested s' = true.
Proof.
  intros H HT Hne Heq.
  split_visit H; simpl in *; try reflexivity; try lia; try congruence.
Qed.

Lemma parse_article_reach c s r hint s' items :
  parse_article c s r hint = (s', items) -> 1 <= old_streak_stop c ->
  old_count_streak s <> old_streak_stop c ->
  old_count_streak s' = old_streak_stop c -> stop_requested s' = true.
Proof.
  intros H HT Hne Heq.
  split_article H; simpl in *; try reflexivity; try lia; try congruence.
Qed.

Lemma step_stop_iff c y y' :
  step c y y' -> streak_inv c (st y) -> stop_requested (st y) = false ->
  (stop_requested (st y') = true <->
   old_count_streak (st y') = old_count_streak (st y) + 1
   /\ old_streak_stop c <= old_count_streak (st y')).
Proof.
  intros Hstep Hinv Hs.
  destruct Hstep; cbn [st] in *;
    eauto using visit_anchor_stop, parse_article_stop;
    split; intros; try split; try lia; try congruence.
Qed.

Lemma step_reach c y y' :
  step c y y' -> 1 <= old_streak_stop c ->
  old_count_streak (st y) <> old_streak_stop c ->
  old_count_streak (st y') = old_streak_stop c -> stop_requested (st y') = true.
Proof.
  intros Hstep HT Hne Heq.
  destruct Hstep; cbn [st] in *;
    eauto using visit_anchor_reach, parse_article_reach; congruence.
Qed.

Lemma sample_visit_old old s :
  seen_urls s = {[ joined Sample.half_past_nine ]} ∪ ∅ ->
  visit_anchor (Sample.config None old) s Sample.eight_o_clock
  = (after_old (Sample.config None old) s, [],
     if seen_recent_article s && (old <=? old_count_streak s + 1)
     then Break else Continue).
Proof.
  intros Hseen.
  assert (Hc : candidate s Sample.eight_o_clock = true).
  { unfold candidate. rewrite Hseen.
    apply andb_true_iff. split; [vm_compute; reflexivity|].
    apply negb_true_iff, bool_decide_eq_false.
    rewrite elem_of_union, elem_of_singleton, elem_of_empty.
    intros [E | []]. vm_compute in E. discriminate E. }
  rewrite (visit_anchor_candidate _ _ _ Hc).
  assert (Hd : _parse_datetime (listing_hint Sample.eight_o_clock)
               = Some {| naive := Sample.ten_o_clock - 7200 * US_PER_SECOND;
                         tz_of := Some TZ |})
    by (vm_compute; reflexivity).
  rewrite Hd. reflexivity.
Qed.

Lemma sample_article old s :
  exists it,
    parse_article (Sample.config None old) s Sample.page_at_half_past
      (listing_hint Sample.half_past_nine)
    = (count_item (mark_recent s), [it]).
Proof.
  rewrite parse_article_cases, sample_pub_dt_half_past. cbn. eauto.
Qed.

(** Claim C3 as stated fails when [old_streak_stop] is 0: the counter
    stands at the threshold from the start, no stop is requested then, and
    the stop is requested by the step that takes the counter to 1. *)
Lemma zero_threshold_stops_past_it :
  ~ (forall c y y',
       reachable c y -> step c y y' ->
       stop_requested (st y) = false -> stop_requested (st y') = true ->
       old_count_streak (st y') = old_streak_stop c).
Proof.
  intros H.
  pose (c := Sample.config None 0).
  destruct (sample_article 0
              (add_seen (joined Sample.half_past_nine) (mark_recent initial_state)))
    as [it Hart].
  destruct (sample_run_reachable c Sample.half_past_nine [Sample.eight_o_clock]
              Sample.page_at_half_past _ _ _ eq_refl (sample_visit None 0)
              eq_refl Hart) as [Hy Hshape].
  rewrite Hshape in Hy. clear Hshape.
  pose proof (sample_visit_old 0
                (count_item (mark_recent
                   (add_seen (joined Sample.half_past_nine) (mark_recent initial_state))))
                eq_refl) as Hv.
  specialize (H c _ _ Hy
                (step_anchor c _ 1 Sample.eight_o_clock [] []
                   [request_for Sample.half_past_nine] [it] _ _ _ Hv)).
  cbn in H. specialize (H eq_refl eq_refl). discriminate H.
Qed.

(** Claim C3, amended: an in-window classification resets the counter to 0
    at the listing check and at the article check; in a run, a stop is
    requested exactly by a step that increments the counter to
    [old_streak_stop] or beyond, and for [old_streak_stop >= 1] that is
    exactly the step in which the counter reaches [old_streak_stop]. *)
Theorem streak_reset_and_stop (c : Config) (y y' : Sys) :
  reachable c y -> step c y y' ->
  (forall s a d,
      candidate s a = true -> _parse_datetime (listing_hint a) = Some d ->
      classify c d = IN_WINDOW ->
      old_count_streak (visit_anchor c s a).1.1 = 0)
  /\ (forall s r hint d,
        pub_dt r hint = Some d -> classify c d = IN_WINDOW ->
        old_count_streak (parse_article c s r hint).1 = 0)
  /\ (stop_requested (st y) = false ->
      (stop_requested (st y') = true <->
       old_count_streak (st y') = old_count_streak (st y) + 1
       /\ old_streak_stop c <= old_count_streak (st y')))
  /\ (1 <= old_streak_stop c ->
      (stop_requested (st y) = false -> stop_requested (st y') = true ->
       old_count_streak (st y') = old_streak_stop c)
      /\ (old_count_streak (st y) <> old_streak_stop c ->
          old_count_streak (st y') = old_streak_stop c ->
          stop_requested (st y') = true)).
Proof.
  intros Hy Hstep.
  pose proof (streak_inv_reachable c y Hy) as Hinv.
  split; [|split; [|split]].
  - intros s a d Hc Hd Hw. rewrite (visit_anchor_candidate c s a Hc), Hd, Hw.
    reflexivity.
  - intros s r hint d Hd Hw. rewrite parse_article_cases, Hd, Hw. reflexivity.
  - intros Hs. exact (step_stop_iff c y y' Hstep Hinv Hs).
  - intros HT. split.
    + intros Hs Hs'.
      apply (step_stop_iff c y y' Hstep Hinv Hs) in Hs' as [Hinc Hge].
      destruct Hinv as (_ & _ & Hlt). specialize (Hlt HT Hs). lia.
    + exact (step_reach c y y' Hstep HT).
Qed.

Lemma streak_reset_and_stop_witness :
  reachable (Sample.config None 1)
    (Sample.after_first_article (Sample.config None 1)
       Sample.half_past_nine [Sample.eight_o_clock] Sample.page_at_half_past)
  /\ exists y',
       step (Sample.config None 1)
         (Sample.after_first_article (Sample.config None 1)
            Sample.half_past_nine [Sample.eight_o_clock] Sample.page_at_half_past) y'
       /\ stop_requested (st y') = true
       /\ old_count_streak (st y') = 1.
Proof.
  split; [apply sample_reachable|].
  pose proof (sample_reachable 1 [Sample.eight_o_clock]) as Hy.
  pose proof (sample_state 1 [Sample.eight_o_clock]) as Hst.
  assert (Hstep : exists y',
             step (Sample.config None 1)
               (Sample.after_first_article (Sample.config None 1)
                  Sample.half_past_nine [Sample.eight_o_clock]
                  Sample.page_at_half_past) y'
             /\ stop_requested (st y') = true).
  { destruct (sample_article 1
                (add_seen (joined Sample.half_past_nine) (mark_recent initial_state)))
      as [it Hart].
    destruct (sample_run_reachable (Sample.config None 1) Sample.half_past_nine
                [Sample.eight_o_clock] Sample.page_at_half_past _ _ _ eq_refl
                (sample_visit None 1) eq_refl Hart) as [_ ->].
    eexists. split.
    - apply step_anchor. apply (sample_visit_old 1). reflexivity.
    - reflexivity. }
  destruct Hstep as (y' & Hstep & Hstop).
  exists y'. split; [exact Hstep|]. split; [exact Hstop|].
  destruct (streak_reset_and_stop _ _ _ Hy Hstep) as (_ & _ & _ & Hexact).
  destruct (Hexact ltac:(simpl; lia)) as [Hbecomes _].
  apply Hbecomes; [rewrite Hst; reflexivity | exact Hstop].
Defined.

(** Claim C4: while no in-window item has been seen, a date before
    [start_dt] leaves the state as it is, at the listing check (no request
    either) and at the article check (no item either); in a run the
    counter is 0 until then, a step that increases it starts from a state
    in which an in-window item has been seen, and that flag is only ever
    raised by an in-window classification. *)
Theorem early_old_items_do_not_count (c : Config) (y : Sys) :
  reachable c y ->
  (seen_recent_article (st y) = false ->
   old_count_streak (st y) = 0
   /\ (forall a d,
         candidate (st y) a = true ->
         _parse_datetime (listing_hint a) = Some d -> classify c d = TOO_OLD ->
         visit_anchor c (st y) a = (st y, [], Continue))
   /\ (forall r hint d,
         pub_dt r hint = Some d -> classify c d = TOO_OLD ->
         parse_article c (st y) r hint = (st y, [])))
  /\ (forall y',
        step c y y' -> old_count_streak (st y) < old_count_streak (st y') ->
        seen_recent_article (st y) = true)
  /\ (forall a s' reqs flow,
        visit_anchor c (st y) a = (s', reqs, flow) ->
        seen_recent_article (st y) = false -> seen_recent_article s' = true ->
        exists d, _parse_datetime (listing_hint a) = Some d
                  /\ classify c d = IN_WINDOW)
  /\ (forall r hint s' items,
        parse_article c (st y) r hint = (s', items) ->
        seen_recent_article (st y) = false -> seen_recent_article s' = true ->
        exists d, pub_dt r hint = Some d /\ classify c d = IN_WINDOW).
Proof.
  intros Hy.
  pose proof (streak_inv_reachable c y Hy) as (H0 & Hzero & _).
  split; [|split; [|split]].
  - intros Hnot. split; [auto|]. split.
    + intros a d Hc Hd Hold.
      rewrite (visit_anchor_candidate c _ a Hc), Hd, Hold.
      unfold after_old. rewrite Hnot. reflexivity.
    + intros r hint d Hd Hold.
      rewrite parse_article_cases, Hd, Hold. unfold after_old. rewrite Hnot.
      reflexivity.
  - intros y' Hstep Hgrow.
    destruct (seen_recent_article (st y)) eqn:Hseen; [reflexivity|].
    specialize (Hzero eq_refl). exfalso.
    destruct Hstep; cbn [st] in *; try lia.
    + split_visit H; simpl in *; try lia; congruence.
    + split_article H1; simpl in *; try lia; congruence.
  - intros a s' reqs flow H Hn Hs'.
    destruct (candidate (st y) a) eqn:Hc.
    + rewrite (visit_anchor_candidate c _ a Hc) in H.
      destruct (_parse_datetime (listing_hint a)) as [d|].
      * exists d. split; [reflexivity|].
        destruct (classify c d); [ | reflexivity | ]; exfalso;
          [ | unfold after_old in H; rewrite Hn in H ]; simplify_eq; congruence.
      * exfalso. unfold dispatch in H. simplify_eq. simpl in Hs'. congruence.
    + rewrite (visit_anchor_skip c _ a Hc) in H. simplify_eq. congruence.
  - intros r hint s' items H Hn Hs'.
    rewrite parse_article_cases in H.
    destruct (pub_dt r hint) as [d|]; [|simplify_eq; congruence].
    exists d. split; [reflexivity|].
    destruct (classify c d); [ | reflexivity | ]; exfalso;
      [ | unfold after_old in H; rewrite Hn in H ]; simplify_eq; congruence.
Qed.

Lemma early_old_items_do_not_count_witness :
  reachable (Sample.config None 20) initial
  /\ visit_anchor (Sample.config None 20) initial_state Sample.eight_o_clock
     = (initial_state, [], Continue).
Proof.
  split; [apply rtc_refl|].
  destruct (early_old_items_do_not_count (Sample.config None 20) initial (rtc_refl _ _))
    as (Hearly & _).
  destruct (Hearly eq_refl) as (_ & Hlisting & _).
  apply (Hlisting Sample.eight_o_clock
           {| naive := Sample.ten_o_clock - 7200 * US_PER_SECOND; tz_of := Some TZ |}).
  - vm_compute. reflexivity.
  - vm_compute. reflexivity.
  - vm_compute. reflexivity.
Defined.

(** Claim C10: [stop_requested] and [seen_recent_article] start false, and
    neither callback, hence no sequence of steps of a run, sets either
    back to false or removes a URL from [seen_urls]. *)
Theorem flags_and_seen_urls_only_grow (c : Config) (y y' : Sys) :
  rtc (step c) y y' ->
  (stop_requested initial_state = false
   /\ seen_recent_article initial_state = false
   /\ seen_urls initial_state = ∅)
  /\ (forall s a s' reqs flow,
        visit_anchor c s a = (s', reqs, flow) -> flags_grow s s')
  /\ (forall s r hint s' items,
        parse_article c s r hint = (s', items) -> flags_grow s s')
  /\ (stop_requested (st y) = true -> stop_requested (st y') = true)
  /\ (seen_recent_article (st y) = true -> seen_recent_article (st y') = true)
  /\ seen_urls (st y) ⊆ seen_urls (st y').
Proof.
  intros Hsteps. split; [repeat split|].
  split; [intros; eapply visit_anchor_grows; eassumption|].
  split; [intros; eapply parse_article_grows; eassumption|].
  exact (steps_grow c y y' Hsteps).
Qed.

Lemma flags_and_seen_urls_only_grow_witness :
  rtc (step (Sample.config None 20)) initial
    (Sample.after_first_article (Sample.config None 20)
       Sample.half_past_nine [] Sample.page_at_half_past)
  /\ seen_urls (st initial)
     ⊆ seen_urls (st (Sample.after_first_article (Sample.config None 20)
                        Sample.half_past_nine [] Sample.page_at_half_past)).
Proof.
  split; [apply sample_reachable|].
  apply (flags_and_seen_urls_only_grow _ _ _ (sample_reachable 20 [])).
Defined.

(** ** The [max_urls] limit *)

(** The [for] loop and the [while] loop, run without any article callback
    in between, are sequences of steps of a run. *)
Lemma scan_anchors_steps c n anchors :
  forall s fl dsp em s' reqs,
    scan_anchors c s anchors = (s', reqs) ->
    rtc (step c) (mk_sys s (InRound n anchors) fl dsp em)
                 (mk_sys s' (AfterRound n) (fl ++ reqs) (dsp ++ reqs) em).
Proof.
  induction anchors as [|a rest IH]; intros s fl dsp em s' reqs H.
  - simpl in H. simplify_eq. rewrite !app_nil_r. apply rtc_once, step_round_end.
  - cbn [scan_anchors] in H.
    destruct (visit_anchor c s a) as [[s1 reqs1] flow] eqn:Hv.
    destruct flow.
    + destruct (scan_anchors c s1 rest) as [s2 more] eqn:Hrest. simplify_eq.
      eapply rtc_l; [exact (step_anchor c s n a rest fl dsp em _ _ _ Hv)|].
      rewrite !app_assoc. apply IH. exact Hrest.
    + simplify_eq.
      apply rtc_once. exact (step_anchor c s n a rest fl dsp em _ _ _ Hv).
Qed.

Lemma scroll_loop_steps c pages :
  forall s n fl dsp em s' reqs why,
    scroll_loop c s n pages = (s', reqs, why) ->
    rtc (step c) (mk_sys s (AtLoopTop n) fl dsp em)
                 (mk_sys s' (match why with
                             | OutOfPages => AtLoopTop (n + Z.of_nat (length pages))
                             | _ => Finished why
                             end) (fl ++ reqs) (dsp ++ reqs) em).
Proof.
  induction pages as [|anchors later IH]; intros s n fl dsp em s' reqs why H.
  - cbn [scroll_loop] in H.
    destruct (stop_requested s) eqn:Hstop;
      [simplify_eq; rewrite !app_nil_r; by apply rtc_once, step_stop|].
    destruct (hit_max_scroll c n) eqn:Hms;
      [simplify_eq; rewrite !app_nil_r; by apply rtc_once, step_max_scroll|].
    simplify_eq. rewrite !app_nil_r. simpl. rewrite Z.add_0_r. apply rtc_refl.
  - cbn [scroll_loop] in H.
    destruct (stop_requested s) eqn:Hstop;
      [simplify_eq; rewrite !app_nil_r; by apply rtc_once, step_stop|].
    destruct (hit_max_scroll c n) eqn:Hms;
      [simplify_eq; rewrite !app_nil_r; by apply rtc_once, step_max_scroll|].
    destruct (scan_anchors c s anchors) as [s1 reqs1] eqn:Hscan.
    eapply rtc_l; [exact (step_render c s n fl dsp em anchors Hstop Hms)|].
    etrans; [exact (scan_anchors_steps c _ _ _ _ _ _ _ _ Hscan)|].
    eapply rtc_l; [apply step_after_round|].
    destruct (hit_max_urls c s1) eqn:Hmax.
    + simplify_eq. apply rtc_refl.
    + destruct (scroll_loop c s1 (n + 1) later) as [[s2 more] why2] eqn:Hloop.
      simplify_eq. rewrite !app_assoc.
      replace (n + Z.of_nat (length (anchors :: later)))
        with (n + 1 + Z.of_nat (length later)) by (simpl length; lia).
      apply IH. exact Hloop.
Qed.

(** Claim C9: with [max_urls = 5] and [seen_urls] empty, a rendering with 8
    qualifying anchors (distinct URLs) yields requests for the first 5 and
    for no other, leaves exactly those 5 URLs in [seen_urls], and the
    [while] loop ends with that round whatever renderings would follow;
    as steps of a run, [parse_archive] goes from the top of its loop to
    its end with exactly these 5 requests added. *)
Theorem five_of_eight_then_stop (c : Config) (s : State) (n : Z)
    (anchors : list Anchor) (later : list (list Anchor)) :
  max_urls c = Some 5 ->
  seen_urls s = ∅ ->
  stop_requested s = false ->
  hit_max_scroll c n = false ->
  length anchors = 8%nat ->
  Forall (qualifies c) anchors ->
  NoDup (joined <$> anchors) ->
  exists s',
    scan_anchors c s anchors = (s', request_for <$> take 5 anchors)
    /\ scroll_loop c s n (anchors :: later)
       = (s', request_for <$> take 5 anchors, HitMaxUrls)
    /\ seen_urls s' = list_to_set (joined <$> take 5 anchors)
    /\ size (seen_urls s') = 5%nat
    /\ (forall fl dsp em,
          rtc (step c) (mk_sys s (AtLoopTop n) fl dsp em)
            (mk_sys s' (Finished HitMaxUrls)
               (fl ++ (request_for <$> take 5 anchors))
               (dsp ++ (request_for <$> take 5 anchors)) em)).
Proof.
  intros Hm Hseen Hstop Hscroll Hlen Hq Hnd.
  cut (exists s',
         scan_anchors c s anchors = (s', request_for <$> take 5 anchors)
         /\ scroll_loop c s n (anchors :: later)
            = (s', request_for <$> take 5 anchors, HitMaxUrls)
         /\ seen_urls s' = list_to_set (joined <$> take 5 anchors)
         /\ size (seen_urls s') = 5%nat).
  { intros (s' & Hscan & Hloop & Hset & Hsize). exists s'.
    repeat (split; [assumption|]). intros fl dsp em.
    exact (scroll_loop_steps c _ s n fl dsp em _ _ _ Hloop). }
  destruct (scan_until_max c 5 Hm anchors s Hq Hnd) as (s' & Hscan & Hs' & Hsz & _).
  - intros a _. rewrite Hseen. apply not_elem_of_empty.
  - rewrite Hseen, size_empty. lia.
  - rewrite Hseen, size_empty, Hlen. simpl. lia.
  - rewrite Hseen, size_empty in Hscan, Hs'.
    change (Z.to_nat (5 - Z.of_nat 0)) with 5%nat in Hscan, Hs'.
    exists s'. split; [exact Hscan|]. split; [|split].
    + cbn [scroll_loop]. rewrite Hstop, Hscroll, Hscan.
      unfold hit_max_urls. rewrite Hm.
      destruct (Z.leb_spec 5 (Z.of_nat (size (seen_urls s')))); [reflexivity|lia].
    + rewrite Hs'. set_solver.
    + lia.
Qed.

Lemma five_of_eight_then_stop_witness :
  exists s',
    scroll_loop (Sample.config (Some 5) 20) initial_state 0
      (Sample.eight_anchors :: [Sample.eight_anchors])
    = (s', request_for <$> take 5 Sample.eight_anchors, HitMaxUrls)
    /\ size (seen_urls s') = 5%nat.
Proof.
  destruct (five_of_eight_then_stop (Sample.config (Some 5) 20) initial_state 0
              Sample.eight_anchors [Sample.eight_anchors])
    as (s' & _ & Hloop & _ & Hsize & _).
  - reflexivity.
  - reflexivity.
  - reflexivity.
  - reflexivity.
  - reflexivity.
  - unfold Sample.eight_anchors.
    repeat (apply Forall_cons; split;
            [ repeat split; vm_compute; reflexivity | ]).
    apply Forall_nil. trivial.
  - compute_done.
  - exists s'. split; assumption.
Defined.

(** ** The date of an article *)

Lemma parse_datetime_falsy o : PyStr.truthy o = false -> _parse_datetime o = None.
Proof. intros H. unfold _parse_datetime. rewrite H. reflexivity. Qed.

Lemma parse_dt_str r : _parse_datetime (dt_str r) = _parse_datetime (first_present r).
Proof.
  unfold dt_str, first_present, PyStr.or_else.
  rewrite !filter_cons, filter_nil.
  destruct (time_datetime r) as [[|? ?]|];
    destruct (meta_published_time r) as [[|? ?]|];
    destruct (meta_pubdate r) as [[|? ?]|];
    cbn [PyStr.truthy]; repeat case_decide; try discriminate; try congruence;
    reflexivity.
Qed.

Lemma first_parsing_source_None r hint :
  first_parsing_source r hint = None ->
  _parse_datetime (time_datetime r) = None
  /\ _parse_datetime (meta_published_time r) = None
  /\ _parse_datetime (meta_pubdate r) = None
  /\ _parse_datetime hint = None.
Proof.
  unfold first_parsing_source. cbn [omap list_omap].
  destruct (_parse_datetime (time_datetime r)); [discriminate|].
  destruct (_parse_datetime (meta_published_time r)); [discriminate|].
  destruct (_parse_datetime (meta_pubdate r)); [discriminate|].
  destruct (_parse_datetime hint); [discriminate|]. auto.
Qed.

Lemma pub_dt_None_of_no_source r hint :
  first_parsing_source r hint = None -> pub_dt r hint = None.
Proof.
  intros H. apply first_parsing_source_None in H as (Ha & Hb & Hc & Hh).
  unfold pub_dt, dt_str, PyStr.or_else.
  repeat case_match; congruence.
Qed.

(** Claim C5 as stated fails: when the [<time>] attribute is present but is
    not a date, the meta tags are not consulted, although
    [article:published_time] would parse; with no listing hint the article
    is dropped. *)
Lemma unreadable_time_hides_meta_tags :
  ~ (forall r hint, pub_dt r hint = first_parsing_source r hint).
Proof.
  intros H. specialize (H Sample.page_with_bad_time None).
  vm_compute in H. discriminate H.
Qed.

(** Claim C5, amended: no item is emitted when none of the four sources
    resolves; otherwise the date is read from the first of the three page
    sources (time attribute, [article:published_time], [pubdate]) that is
    present and not empty, and, when that one does not parse or none is
    present, from the listing hint; an emitted item carries that date. *)
Theorem article_date_resolution (c : Config) (s : State) (r : Response)
    (hint : option string) :
  pub_dt r hint
  = match _parse_datetime (first_present r) with
    | Some d => Some d
    | None => _parse_datetime hint
    end
  /\ (first_parsing_source r hint = None -> parse_article c s r hint = (s, []))
  /\ (pub_dt r hint = None -> parse_article c s r hint = (s, []))
  /\ (forall s' items it,
        parse_article c s r hint = (s', items) -> it ∈ items ->
        exists d, pub_dt r hint = Some d /\ date it = isoformat d).
Proof.
  assert (Hdrop : pub_dt r hint = None -> parse_article c s r hint = (s, [])).
  { intros H. rewrite parse_article_cases, H. reflexivity. }
  repeat split.
  - unfold pub_dt. rewrite parse_dt_str. reflexivity.
  - intros H. apply Hdrop, pub_dt_None_of_no_source, H.
  - exact Hdrop.
  - intros s' items it H Hit.
    destruct (parse_article_items _ _ _ _ _ _ H)
      as [-> | (d & it' & -> & Hd & _ & _ & Hdate)].
    + inversion Hit.
    + apply list_elem_of_singleton in Hit. subst it'. eauto.
Qed.

Lemma article_date_resolution_witness :
  first_parsing_source (Sample.page "a.html" (Some "yesterday") None) (Some "soon") = None
  /\ parse_article (Sample.config None 20) initial_state
       (Sample.page "a.html" (Some "yesterday") None) (Some "soon")
     = (initial_state, []).
Proof.
  split; [vm_compute; reflexivity|].
  apply (article_date_resolution (Sample.config None 20) initial_state
           (Sample.page "a.html" (Some "yesterday") None) (Some "soon")).
  vm_compute. reflexivity.
Defined.

(** ** Name resolution in structured data *)

Lemma or_None_truthy s n : or_None s = Some n -> n = s /\ PyStr.truthy (Some n) = true.
Proof. destruct s; simpl; intros H; simplify_eq. split; reflexivity. Qed.

Lemma name_of_truthy items n : name_of items = Some n -> PyStr.truthy (Some n) = true.
Proof.
  unfold name_of.
  destruct (dict_get "name" items) as [[]|]; try discriminate.
  intros Hn. by apply or_None_truthy in Hn as [_ ?].
Qed.

Lemma join_truthy sep x rest :
  PyStr.truthy (Some x) = true -> PyStr.truthy (Some (PyStr.join sep (x :: rest))) = true.
Proof. destruct x; [discriminate|]. destruct rest; reflexivity. Qed.

(** The list collected from a sequence of persons: the members that
    resolve, in order. *)
Lemma person_names_collected (l : list value) :
  (fix collect (l : list value) : list string :=
     match l with
     | [] => []
     | item :: rest =>
         if PyStr.truthy (_extract_person_name item)
         then match _extract_person_name item with
              | Some n => n :: collect rest
              | None => collect rest
              end
         else collect rest
     end) l
  = filter (fun n => PyStr.truthy (Some n) = true) (omap _extract_person_name l).
Proof.
  induction l as [|v l IH]; [reflexivity|].
  cbn [omap list_omap]. cbv beta iota fix. rewrite IH.
  destruct (_extract_person_name v) as [n|] eqn:Hn; [|reflexivity].
  rewrite filter_cons. destruct (PyStr.truthy (Some n)) eqn:Ht.
  - rewrite decide_True by reflexivity. reflexivity.
  - rewrite decide_False by discriminate. reflexivity.
Qed.

Lemma person_name_truthy v n :
  _extract_person_name v = Some n -> PyStr.truthy (Some n) = true.
Proof.
  destruct v; try discriminate.
  - intros H. by apply or_None_truthy in H as [_ ?].
  - cbn [_extract_person_name]. cbv zeta. rewrite person_names_collected.
    destruct (filter _ _) as [|x rest] eqn:Hf; [discriminate|].
    intros H. simplify_eq. apply join_truthy.
    assert (Hx : x ∈ filter (fun n => PyStr.truthy (Some n) = true)
                      (omap _extract_person_name l)) by (rewrite Hf; left).
    apply list_elem_of_filter in Hx as [Hx _]. exact Hx.
  - apply name_of_truthy.
Qed.

Lemma person_names_all_truthy (l : list value) :
  filter (fun n => PyStr.truthy (Some n) = true) (omap _extract_person_name l)
  = omap _extract_person_name l.
Proof.
  induction l as [|v l IH]; [reflexivity|].
  cbn [omap list_omap].
  destruct (_extract_person_name v) as [n|] eqn:Hn; [|exact IH].
  rewrite filter_cons, decide_True by (eapply person_name_truthy; eassumption).
  by rewrite IH.
Qed.

Lemma org_first_found (l : list value) :
  (fix first (l : list value) : option string :=
     match l with
     | [] => None
     | item :: rest =>
         if PyStr.truthy (_extract_org_name item)
         then _extract_org_name item else first rest
     end) l
  = head (filter (fun n => PyStr.truthy (Some n) = true) (omap _extract_org_name l)).
Proof.
  induction l as [|v l IH]; [reflexivity|].
  cbn [omap list_omap]. cbv beta iota fix. rewrite IH.
  destruct (_extract_org_name v) as [n|] eqn:Hn; [|reflexivity].
  rewrite filter_cons. destruct (PyStr.truthy (Some n)) eqn:Ht.
  - rewrite decide_True by reflexivity. reflexivity.
  - rewrite decide_False by discriminate. reflexivity.
Qed.

Lemma org_name_truthy v n :
  _extract_org_name v = Some n -> PyStr.truthy (Some n) = true.
Proof.
  destruct v; try discriminate.
  - intros H. by apply or_None_truthy in H as [_ ?].
  - cbn [_extract_org_name]. cbv zeta. rewrite org_first_found.
    destruct (filter _ _) as [|x rest] eqn:Hf; [discriminate|].
    simpl. intros H. simplify_eq.
    assert (Hx : n ∈ filter (fun n => PyStr.truthy (Some n) = true)
                      (omap _extract_org_name l)) by (rewrite Hf; left).
    apply list_elem_of_filter in Hx as [Hx _]. exact Hx.
  - apply name_of_truthy.
Qed.

Lemma org_names_all_truthy (l : list value) :
  filter (fun n => PyStr.truthy (Some n) = true) (omap _extract_org_name l)
  = omap _extract_org_name l.
Proof.
  induction l as [|v l IH]; [reflexivity|].
  cbn [omap list_omap].
  destruct (_extract_org_name v) as [n|] eqn:Hn; [|exact IH].
  rewrite filter_cons, decide_True by (eapply org_name_truthy; eassumption).
  by rewrite IH.
Qed.

Lemma name_of_spec items n :
  name_of items = Some n <->
  exists name, dict_get "name" items = Some (JStr name)
               /\ n = PyStr.strip name /\ n <> EmptyString.
Proof.
  unfold name_of. split.
  - destruct (dict_get "name" items) as [[]|]; try discriminate.
    intros H. exists s. split; [reflexivity|].
    destruct (PyStr.strip s); simpl in H; simplify_eq.
    split; [reflexivity | discriminate].
  - intros (name & -> & -> & Hne). destruct (PyStr.strip name); [congruence|reflexivity].
Qed.

(** Claim C6 as stated fails: a plain string is not used as it is, its
    surrounding white space is removed (and a blank string yields
    nothing). *)
Lemma plain_string_is_stripped :
  ~ (forall s, _extract_person_name (JStr s) = Some s).
Proof.
  intros H. specialize (H " Bob "%string). vm_compute in H. discriminate H.
Qed.

(** Claim C6, amended: a plain string yields its text with surrounding
    white space removed, or nothing when that is empty; a mapping yields
    its [name] entry, stripped, exactly when that entry is a string that is
    not blank; a sequence yields the resolved member names joined with
    [", "] (nothing when no member resolves) in the author case and the
    first resolved member name in the provider case; any other value
    yields nothing. *)
Theorem name_resolution_rule :
  (forall s, _extract_person_name (JStr s) = or_None (PyStr.strip s)
             /\ _extract_org_name (JStr s) = or_None (PyStr.strip s))
  /\ (forall items n,
        (_extract_person_name (JDict items) = Some n <->
         exists name, dict_get "name" items = Some (JStr name)
                      /\ n = PyStr.strip name /\ n <> EmptyString)
        /\ (_extract_org_name (JDict items) = Some n <->
            exists name, dict_get "name" items = Some (JStr name)
                         /\ n = PyStr.strip name /\ n <> EmptyString))
  /\ (forall l,
        _extract_person_name (JList l)
        = match omap _extract_person_name l with
          | [] => None
          | names => Some (PyStr.join ", " names)
          end)
  /\ (forall l, _extract_org_name (JList l) = head (omap _extract_org_name l))
  /\ (forall v,
        match v with
        | JStr _ | JDict _ | JList _ => True
        | _ => _extract_person_name v = None /\ _extract_org_name v = None
        end).
Proof.
  split; [|split; [|split; [|split]]].
  - intros s. split; reflexivity.
  - intros items n. split; apply name_of_spec.
  - intros l. cbn [_extract_person_name]. cbv zeta.
    rewrite person_names_collected, person_names_all_truthy.
    destruct (omap _extract_person_name l); reflexivity.
  - intros l. cbn [_extract_org_name]. cbv zeta.
    rewrite org_first_found, org_names_all_truthy. reflexivity.
  - intros []; try exact I; split; reflexivity.
Qed.

Lemma name_resolution_rule_witness :
  _extract_person_name
    (JList [JStr " Ann "; JInt 7; JDict [("name"%string, JStr "Bob")]; JStr "  "])
  = Some "Ann, Bob"%string
  /\ _extract_org_name
       (JList [JNull; JDict [("name"%string, JStr " CNA ")]; JStr "Yahoo"])
     = Some "CNA"%string.
Proof.
  destruct name_resolution_rule as (_ & _ & Hperson & Horg & _).
  split; [rewrite Hperson | rewrite Horg]; vm_compute; reflexivity.
Defined.

(** ** Sorting the output by date *)

Lemma key_le_spec a b :
  key_le a b <->
  naive (date_key a.2) < naive (date_key b.2)
  \/ (naive (date_key a.2) = naive (date_key b.2) /\ (a.1 <= b.1)%nat).
Proof.
  unfold key_le, key_leb, ltb.
  rewrite orb_true_iff, andb_true_iff, Z.ltb_lt, Z.eqb_eq, Nat.leb_le. reflexivity.
Qed.

Lemma key_le_total a b : key_leb a b = false -> key_le b a.
Proof.
  intros H. apply key_le_spec.
  destruct (key_leb a b) eqn:E; [discriminate|].
  assert (Hn : ~ key_le a b) by (unfold key_le; congruence).
  rewrite key_le_spec in Hn. lia.
Qed.

#[local] Instance key_le_trans : Transitive key_le.
Proof. intros a b c. rewrite !key_le_spec. lia. Qed.

Lemma key_le_date a b : key_le a b -> naive (date_key a.2) <= naive (date_key b.2).
Proof. rewrite key_le_spec. lia. Qed.

Lemma insert_sorted_perm x l : insert_sorted x l ≡ₚ x :: l.
Proof.
  induction l as [|y l IH]; [reflexivity|]. simpl.
  destruct (key_leb x y); [reflexivity|]. rewrite IH. apply Permutation_swap.
Qed.

Lemma sort_pairs_perm l : sort_pairs l ≡ₚ l.
Proof.
  induction l as [|x l IH]; [reflexivity|]. simpl.
  rewrite insert_sorted_perm. by rewrite IH.
Qed.

Lemma insert_sorted_Sorted x l : Sorted key_le l -> Sorted key_le (insert_sorted x l).
Proof.
  induction l as [|y l IH]; intros Hs; simpl.
  - repeat constructor.
  - destruct (key_leb x y) eqn:E.
    + constructor; [exact Hs|]. constructor. exact E.
    + apply Sorted_inv in Hs as [Hs Hhd]. constructor; [auto|].
      destruct l as [|z l]; simpl.
      * constructor. by apply key_le_total.
      * destruct (key_leb x z); constructor.
        -- by apply key_le_total.
        -- by inversion Hhd.
Qed.

Lemma sort_pairs_Sorted l : Sorted key_le (sort_pairs l).
Proof.
  induction l as [|x l IH]; simpl; [constructor|]. by apply insert_sorted_Sorted.
Qed.

(** An ascending list is left as it is. *)
Lemma sort_pairs_fixed l : Sorted key_le l -> sort_pairs l = l.
Proof.
  induction l as [|x l IH]; intros Hs; [reflexivity|].
  apply Sorted_inv in Hs as [Hs Hhd]. simpl. rewrite (IH Hs).
  destruct Hhd as [|y l Hxy]; [reflexivity|]. simpl.
  unfold key_le in Hxy. by rewrite Hxy.
Qed.

Lemma enumerate_from_sorted k rows :
  date_sorted rows -> Sorted key_le (zip (seq k (length rows)) rows).
Proof.
  unfold date_sorted. intros Hs. revert k.
  induction Hs as [|r rows Hs IH Hhd]; intros k; simpl; constructor.
  - apply IH.
  - destruct Hhd as [|r' rows Hle]; simpl; constructor.
    apply key_le_spec. simpl. lia.
Qed.

Lemma Sorted_dates l : Sorted key_le l -> date_sorted (l.*2).
Proof.
  unfold date_sorted. induction 1 as [|x l Hs IH Hhd]; simpl; constructor.
  - exact IH.
  - destruct Hhd as [|y l Hxy]; simpl; constructor. by apply key_le_date.
Qed.

Lemma enumerate_rows rows : (enumerate rows).*2 = rows.
Proof. unfold enumerate. apply snd_zip. by rewrite length_seq. Qed.

Lemma sort_rows_length rows : length (sort_rows rows) = length rows.
Proof.
  unfold sort_rows. rewrite length_fmap.
  rewrite (Permutation_length (sort_pairs_perm _)).
  unfold enumerate. rewrite length_zip, length_seq. lia.
Qed.

Lemma sort_rows_fixed rows : date_sorted rows -> sort_rows rows = rows.
Proof.
  intros Hs. unfold sort_rows.
  rewrite sort_pairs_fixed by (apply enumerate_from_sorted, Hs).
  apply enumerate_rows.
Qed.

Lemma sort_rows_sorted rows : date_sorted (sort_rows rows).
Proof. apply Sorted_dates, sort_pairs_Sorted. Qed.

(** The ascending arrangement of the enumerated rows is unique: whatever
    procedure [list.sort] follows, it returns [sort_pairs]. *)
Lemma sort_pairs_unique rows l :
  l ≡ₚ enumerate rows -> Sorted key_le l -> l = sort_pairs (enumerate rows).
Proof.
  intros Hp Hs.
  apply (StronglySorted_unique_strong key_le).
  - intros [i r] [j r'] Hi Hj Hij Hji.
    apply key_le_spec in Hij. apply key_le_spec in Hji. simpl in *.
    assert (i = j) by lia. subst j.
    rewrite Hp in Hi. rewrite sort_pairs_perm in Hj.
    unfold enumerate in Hi, Hj.
    apply list_elem_of_lookup in Hi as [a Ha]. apply list_elem_of_lookup in Hj as [b Hb].
    apply lookup_zip_with_Some in Ha as (x & y & E1 & Hx & Hy).
    apply lookup_zip_with_Some in Hb as (x' & y' & E2 & Hx' & Hy').
    simplify_eq.
    rewrite lookup_seq in Hx, Hx'. destruct Hx as [Ea _], Hx' as [Eb _].
    simpl in Ea, Eb. subst a b. congruence.
  - exact (Sorted_StronglySorted key_le l Hs).
  - exact (Sorted_StronglySorted key_le _ (sort_pairs_Sorted _)).
  - by rewrite sort_pairs_perm.
Qed.

Lemma sort_rows_perm rows : sort_rows rows ≡ₚ rows.
Proof.
  unfold sort_rows. rewrite sort_pairs_perm. by rewrite enumerate_rows.
Qed.

Lemma sort_rows_idempotent rows : sort_rows (sort_rows rows) = sort_rows rows.
Proof. apply sort_rows_fixed, sort_rows_sorted. Qed.

Lemma sort_output_twice file :
  _sort_output_csv_by_date (_sort_output_csv_by_date file)
  = _sort_output_csv_by_date file.
Proof.
  destruct file as [[fields rows]|]; [|reflexivity].
  unfold _sort_output_csv_by_date. cbn [Spider.rows Spider.fieldnames].
  destruct (bool_decide (rows = []) || bool_decide (fields = [])
            || negb (bool_decide ("date"%string ∈ fields))) eqn:E.
  - cbn [Spider.rows Spider.fieldnames]. rewrite E. reflexivity.
  - cbn [Spider.rows Spider.fieldnames].
    assert (Hrows : bool_decide (sort_rows rows = []) = bool_decide (rows = [])).
    { apply bool_decide_ext. split; intros H.
      - apply length_zero_iff_nil. rewrite <- sort_rows_length, H. reflexivity.
      - subst rows. reflexivity. }
    rewrite Hrows, E, sort_rows_idempotent. reflexivity.
Qed.

(** Claim C8: the sort leaves a row sequence that is already in ascending
    date order (rows with equal dates in any order: their order is kept)
    as it is; hence sorting twice is sorting once, for the row sequence and
    for the file as a whole.  The result is in ascending date order and is
    a rearrangement of the rows. *)
Theorem sort_output_idempotent (rows : list Row) :
  (date_sorted rows -> sort_rows rows = rows)
  /\ sort_rows (sort_rows rows) = sort_rows rows
  /\ date_sorted (sort_rows rows)
  /\ sort_rows rows ≡ₚ rows
  /\ (forall file,
        _sort_output_csv_by_date (_sort_output_csv_by_date file)
        = _sort_output_csv_by_date file).
Proof.
  split; [apply sort_rows_fixed|].
  split; [apply sort_rows_idempotent|].
  split; [apply sort_rows_sorted|].
  split; [apply sort_rows_perm|].
  apply sort_output_twice.
Qed.

Lemma sort_output_idempotent_witness :
  date_sorted Sample.sorted_rows
  /\ sort_rows Sample.sorted_rows = Sample.sorted_rows
  /\ sort_rows Sample.unsorted_rows = Sample.sorted_rows.
Proof.
  assert (Hs : date_sorted Sample.sorted_rows).
  { unfold date_sorted, Sample.sorted_rows.
    repeat first
      [ apply Sorted_nil | apply HdRel_nil | apply Sorted_cons
      | apply HdRel_cons; apply Z.leb_le; vm_compute; reflexivity ]. }
  split; [exact Hs|]. split.
  - destruct (sort_output_idempotent Sample.sorted_rows) as [Hfixed _].
    exact (Hfixed Hs).
  - vm_compute. reflexivity.
Defined.

(** ** The calendar *)

Lemma month_day_split (r : Z) (leap : bool) :
  0 <= r < 365 + leap_extra leap ->
  let month0 := Z.shiftr (r + 50) 5 in
  let prec0 := DAYS_BEFORE_MONTH month0 + (if (2 <? month0) && leap then 1 else 0) in
  let month := if r <? prec0 then month0 - 1 else month0 in
  let prec := if r <? prec0
              then prec0 - (DAYS_IN_MONTH (month0 - 1) + (if (month0 - 1 =? 2) && leap then 1 else 0))
              else prec0 in
  1 <= month <= 12
  /\ prec = DAYS_BEFORE_MONTH month + (if (2 <? month) && leap then 1 else 0)
  /\ 1 <= r - prec + 1 <= DAYS_IN_MONTH month + (if (month =? 2) && leap then 1 else 0).
Proof.
  intros Hr. rewrite Z.shiftr_div_pow2 by lia. change (2 ^ 5) with 32.
  assert (Hm : 1 <= (r + 50) / 32 <= 12).
  { unfold leap_extra in Hr. destruct leap; split.
    all: try (apply Z.div_le_lower_bound; lia).
    all: apply Z.lt_succ_r; apply Z.div_lt_upper_bound; lia. }
  pose proof (Z.div_mod (r + 50) 32 ltac:(lia)) as Hdm.
  pose proof (Z.mod_pos_bound (r + 50) 32 ltac:(lia)) as Hmb.
  remember ((r + 50) / 32) as q eqn:Hq. clear Hq.
  remember ((r + 50) mod 32) as t eqn:Ht. clear Ht.
  assert (Hcases : q = 1 \/ q = 2 \/ q = 3 \/ q = 4 \/ q = 5 \/ q = 6 \/ q = 7
                   \/ q = 8 \/ q = 9 \/ q = 10 \/ q = 11 \/ q = 12) by lia.
  unfold leap_extra in Hr.
  destruct leap; cbv zeta;
    repeat (destruct Hcases as [-> | Hcases]); try subst q;
    match goal with |- context [ r <? ?k ] => destruct (Z.ltb_spec r k) end;
    cbv beta iota;
    repeat match goal with
      | |- context [DAYS_BEFORE_MONTH ?a] =>
          let v := eval vm_compute in (DAYS_BEFORE_MONTH a) in
          change (DAYS_BEFORE_MONTH a) with v
      | |- context [DAYS_IN_MONTH ?a] =>
          let v := eval vm_compute in (DAYS_IN_MONTH a) in
          change (DAYS_IN_MONTH a) with v
      | |- context [(?a =? 2) && ?b] =>
          let v := eval vm_compute in ((a =? 2) && b) in
          change ((a =? 2) && b) with v
      | |- context [(2 <? ?a) && ?b] =>
          let v := eval vm_compute in ((2 <? a) && b) in
          change ((2 <? a) && b) with v
      | H : context [DAYS_BEFORE_MONTH ?a] |- _ =>
          let v := eval vm_compute in (DAYS_BEFORE_MONTH a) in
          change (DAYS_BEFORE_MONTH a) with v in H
      | H : context [(2 <? ?a) && ?b] |- _ =>
          let v := eval vm_compute in ((2 <? a) && b) in
          change ((2 <? a) && b) with v in H
      end;
    cbv beta iota in *; lia.
Qed.

Lemma year_split (n0 : Z) :
  0 <= n0 < MAXORDINAL ->
  let n400 := n0 / 146097 in let r1 := n0 mod 146097 in
  let n100 := r1 / 36524 in let r2 := r1 mod 36524 in
  let n4 := r2 / 1461 in let r3 := r2 mod 1461 in
  let n1 := r3 / 365 in let r4 := r3 mod 365 in
  let year := n400 * 400 + 1 + n100 * 100 + n4 * 4 + n1 in
  if (n1 =? 4) || (n100 =? 4) then
    r4 = 0 /\ is_leap (year - 1) = true
    /\ days_before_year (year - 1) + 365 = n0 /\ 1 <= year - 1 <= 9999
  else
    let leap := (n1 =? 3) && (negb (n4 =? 24) || (n100 =? 3)) in
    is_leap year = leap /\ days_before_year year + r4 = n0
    /\ 1 <= year <= 9999 /\ 0 <= r4 < 365 + leap_extra leap.
Proof.
  unfold MAXORDINAL. intros Hn. cbv zeta.
  pose proof (Z.div_mod n0 146097 ltac:(lia)) as E1.
  pose proof (Z.mod_pos_bound n0 146097 ltac:(lia)) as B1.
  set (n400 := n0 / 146097) in *. set (r1 := n0 mod 146097) in *.
  pose proof (Z.div_mod r1 36524 ltac:(lia)) as E2.
  pose proof (Z.mod_pos_bound r1 36524 ltac:(lia)) as B2.
  set (n100 := r1 / 36524) in *. set (r2 := r1 mod 36524) in *.
  pose proof (Z.div_mod r2 1461 ltac:(lia)) as E3.
  pose proof (Z.mod_pos_bound r2 1461 ltac:(lia)) as B3.
  set (n4 := r2 / 1461) in *. set (r3 := r2 mod 1461) in *.
  pose proof (Z.div_mod r3 365 ltac:(lia)) as E4.
  pose proof (Z.mod_pos_bound r3 365 ltac:(lia)) as B4.
  set (n1 := r3 / 365) in *. set (r4 := r3 mod 365) in *.
  clearbody n400 r1 n100 r2 n4 r3 n1 r4.
  assert (0 <= n400 <= 24) by lia.
  assert (0 <= n100 <= 4) by lia.
  assert (0 <= n4 <= 24) by lia.
  assert (0 <= n1 <= 4) by lia.
  unfold is_leap, days_before_year, leap_extra.
  destruct (Z.eqb_spec n1 4) as [-> | N1]; cbn [orb];
    [| destruct (Z.eqb_spec n100 4) as [-> | N100]];
    cbv zeta;
    repeat match goal with
      | |- context [?a =? ?b] => destruct (Z.eqb_spec a b)
      end;
    cbn [andb orb negb];
    repeat split;
    lazymatch goal with
    | |- true = true => reflexivity
    | |- false = false => reflexivity
    | |- true = false => exfalso; Z.to_euclidean_division_equations; lia
    | |- false = true => exfalso; Z.to_euclidean_division_equations; lia
    | |- _ => Z.to_euclidean_division_equations; lia
    end.
Qed.

Lemma ord2ymd_spec (n : Z) :
  1 <= n <= MAXORDINAL ->
  exists y m d,
    ord2ymd n = (y, m, d) /\ ymd2ord y m d = n /\ check_date_fields y m d = true.
Proof.
  intros Hn.
  pose proof (year_split (n - 1) ltac:(unfold MAXORDINAL in *; lia)) as Hy.
  unfold ord2ymd, DI400Y, DI100Y, DI4Y. cbv zeta in Hy |- *.
  set (n400 := (n - 1) / 146097) in *. set (r1 := (n - 1) mod 146097) in *.
  set (n100 := r1 / 36524) in *. set (r2 := r1 mod 36524) in *.
  set (n4 := r2 / 1461) in *. set (r3 := r2 mod 1461) in *.
  set (n1 := r3 / 365) in *. set (r4 := r3 mod 365) in *.
  replace (n400 * 400 + 1 + n100 * 100 + n4 * 4 + n1)
    with (n400 * 400 + 1 + n100 * 100 + n4 * 4 + n1) in * by reflexivity.
  set (year := n400 * 400 + 1 + n100 * 100 + n4 * 4 + n1) in *.
  destruct ((n1 =? 4) || (n100 =? 4)).
  - destruct Hy as (Hr & Hleap & Hdays & Hrange).
    exists (year - 1), 12, 31. split; [reflexivity|]. split.
    + unfold ymd2ord, days_before_month. rewrite Hleap.
      replace (DAYS_BEFORE_MONTH 12 + (if (2 <? 12) && true then 1 else 0))
        with 335 by reflexivity.
      lia.
    + unfold check_date_fields, days_in_month, MINYEAR, MAXYEAR.
      replace (if (12 =? 2) && is_leap (year - 1) then 29 else DAYS_IN_MONTH 12)
        with 31 by reflexivity.
      repeat (apply andb_true_iff; split); try reflexivity; apply Z.leb_le; lia.
  - destruct Hy as (Hleap & Hdays & Hrange & Hr).
    set (leap := (n1 =? 3) && (negb (n4 =? 24) || (n100 =? 3))) in *.
    pose proof (month_day_split r4 leap Hr) as Hmd. cbv zeta in Hmd.
    set (month0 := Z.shiftr (r4 + 50) 5) in *.
    set (prec0 := DAYS_BEFORE_MONTH month0 + (if (2 <? month0) && leap then 1 else 0)) in *.
    destruct (r4 <? prec0); destruct Hmd as (Hm & Hprec & Hd).
    + eexists _, _, _. split; [reflexivity|]. split.
      * unfold ymd2ord, days_before_month. rewrite Hleap, <- Hprec. lia.
      * unfold check_date_fields, days_in_month, MINYEAR, MAXYEAR. rewrite Hleap.
        repeat (apply andb_true_iff; split); apply Z.leb_le; try lia.
        destruct (Z.eqb_spec (month0 - 1) 2) as [E | E];
          [ rewrite E in *; change (DAYS_IN_MONTH 2) with 28 in * | ];
          destruct leap; cbn [andb] in *; lia.
    + eexists _, _, _. split; [reflexivity|]. split.
      * unfold ymd2ord, days_before_month. rewrite Hleap, <- Hprec. lia.
      * unfold check_date_fields, days_in_month, MINYEAR, MAXYEAR. rewrite Hleap.
        repeat (apply andb_true_iff; split); apply Z.leb_le; try lia.
        destruct (Z.eqb_spec (month0) 2) as [E | E];
          [ rewrite E in *; change (DAYS_IN_MONTH 2) with 28 in * | ];
          destruct leap; cbn [andb] in *; lia.
Qed.

(** ** Readings and fields *)

Lemma fields_of_spec (n : Z) :
  0 <= n < MAX_US ->
  of_fields (fields_of n) = n
  /\ check_date_fields (year (fields_of n)) (month (fields_of n)) (day (fields_of n)) = true
  /\ check_time_fields (hour (fields_of n)) (minute (fields_of n))
       (second (fields_of n)) (microsecond (fields_of n)) = true.
Proof.
  unfold MAX_US, US_PER_DAY, US_PER_SECOND, MAXORDINAL. intros Hn.
  assert (Hday : 1 <= n / 86400000000 + 1 <= MAXORDINAL).
  { unfold MAXORDINAL. split.
    - assert (0 <= n / 86400000000) by (apply Z.div_pos; lia). lia.
    - assert (n / 86400000000 < 3652059) by (apply Z.div_lt_upper_bound; lia). lia. }
  destruct (ord2ymd_spec _ Hday) as (y & m & d & E & Hord & Hchk).
  unfold fields_of, of_fields, US_PER_DAY, US_PER_SECOND.
  change (86400 * 1000000) with 86400000000. rewrite E.
  cbn [year month day hour minute second microsecond].
  rewrite Hord. split; [|split; [exact Hchk|]].
  - Z.to_euclidean_division_equations; lia.
  - unfold check_time_fields.
    repeat (apply andb_true_iff; split); apply Z.leb_le;
      Z.to_euclidean_division_equations; lia.
Qed.

(** ** Strings *)

Lemma append_cons (c : ascii) (a b : string) : String c a +:+ b = String c (a +:+ b).
Proof. reflexivity. Qed.

Lemma append_nil_l (a : string) : EmptyString +:+ a = a.
Proof. reflexivity. Qed.

Lemma append_assoc (a b c : string) : (a +:+ b) +:+ c = a +:+ (b +:+ c).
Proof.
  induction a as [|x a IH]; [reflexivity|]. rewrite !append_cons. by f_equal.
Qed.

(** ** Fixed-width decimal fields *)

Lemma digit_of_char (d : Z) : 0 <= d <= 9 -> digit_of (digit_char d) = Some d.
Proof.
  intros Hd.
  assert (Hc : d = 0 \/ d = 1 \/ d = 2 \/ d = 3 \/ d = 4 \/ d = 5 \/ d = 6
                \/ d = 7 \/ d = 8 \/ d = 9) by lia.
  repeat (destruct Hc as [-> | Hc]; [reflexivity|]). subst d. reflexivity.
Qed.

Lemma parse_print_digits (k : nat) :
  forall v acc rest,
    0 <= v < 10 ^ Z.of_nat k ->
    parse_digits k acc (print_digits k v +:+ rest)
    = Some (acc * 10 ^ Z.of_nat k + v, rest).
Proof.
  induction k as [|k IH]; intros v acc rest Hv.
  - simpl in *. f_equal. f_equal. lia.
  - cbn [print_digits]. rewrite append_cons. cbn [parse_digits].
    rewrite Nat2Z.inj_succ, Z.pow_succ_r in * by lia.
    assert (Hp : 0 < 10 ^ Z.of_nat k) by (apply Z.pow_pos_nonneg; lia).
    assert (Hd : 0 <= v / 10 ^ Z.of_nat k <= 9).
    { split; [apply Z.div_pos; lia|].
      apply Z.lt_succ_r. apply Z.div_lt_upper_bound; lia. }
    rewrite (digit_of_char _ Hd). cbn [mbind option_bind].
    rewrite IH by (apply Z.mod_pos_bound; lia).
    f_equal. f_equal.
    pose proof (Z.div_mod v (10 ^ Z.of_nat k) ltac:(lia)). lia.
Qed.

Lemma parse_digits_app (a b : nat) :
  forall acc s,
    parse_digits (a + b) acc s
    = match parse_digits a acc s with
      | Some (v, s') => parse_digits b v s'
      | None => None
      end.
Proof.
  induction a as [|a IH]; intros acc s; [reflexivity|].
  cbn [Nat.add parse_digits]. destruct s as [|c s]; [reflexivity|].
  destruct (digit_of c); cbn [mbind option_bind]; [apply IH | reflexivity].
Qed.

Lemma parse_fraction_print (us : Z) (rest : string) :
  0 <= us <= 999999 ->
  parse_fraction (print_digits 6 us +:+ rest) = Some (us, rest).
Proof.
  intros Hus. unfold parse_fraction.
  pose proof (parse_print_digits 6 us 0 rest ltac:(simpl; lia)) as H6.
  change 6%nat with (3 + 3)%nat in H6 at 1. rewrite parse_digits_app in H6.
  destruct (parse_digits 3 0 (print_digits 6 us +:+ rest)) as [[f3 s3]|];
    [|discriminate].
  cbn [mbind option_bind]. rewrite H6. reflexivity.
Qed.

(** ** Reading back what [isoformat] writes *)

Lemma lit_append (c : ascii) (rest : string) :
  String c EmptyString +:+ rest = String c rest.
Proof. reflexivity. Qed.

Lemma parse_time_text (H M S us : Z) (tail : string) :
  0 <= H <= 99 -> 0 <= M <= 99 -> 0 <= S <= 99 -> 0 <= us <= 999999 ->
  offset_like tail ->
  parse_hh_mm_ss_ff (time_text H M S us +:+ tail) = Some (H, M, S, us, tail).
Proof.
  intros HH HM HS Hus Htail. unfold time_text, parse_hh_mm_ss_ff.
  rewrite !append_assoc.
  rewrite parse_print_digits by (simpl; lia). cbn [mbind option_bind].
  rewrite lit_append. cbv beta iota.
  rewrite parse_print_digits by (simpl; lia). cbn [mbind option_bind].
  rewrite lit_append. cbv beta iota.
  rewrite parse_print_digits by (simpl; lia). cbn [mbind option_bind].
  destruct (Z.eqb_spec us 0) as [-> | Hne].
  - rewrite append_nil_l.
    destruct Htail as [-> | (t & [-> | ->])]; reflexivity.
  - rewrite append_assoc, lit_append. cbv beta iota.
    rewrite parse_fraction_print by lia. reflexivity.
Qed.

Lemma check_date_fields_bounds y m d :
  check_date_fields y m d = true -> 1 <= y <= 9999 /\ 1 <= m <= 12 /\ 1 <= d <= 31.
Proof.
  unfold check_date_fields, MINYEAR, MAXYEAR, days_in_month.
  rewrite !andb_true_iff, !Z.leb_le. intros (((((? & ?) & ?) & ?) & ?) & Hd).
  repeat split; try lia.
  assert (DAYS_IN_MONTH m <= 31).
  { assert (Hc : m = 1 \/ m = 2 \/ m = 3 \/ m = 4 \/ m = 5 \/ m = 6 \/ m = 7
                  \/ m = 8 \/ m = 9 \/ m = 10 \/ m = 11 \/ m = 12) by lia.
    repeat (destruct Hc as [-> | Hc]; [simpl; lia|]). subst m. simpl. lia. }
  destruct ((m =? 2) && is_leap y); lia.
Qed.

Lemma check_time_fields_bounds H M S us :
  check_time_fields H M S us = true ->
  0 <= H <= 23 /\ 0 <= M <= 59 /\ 0 <= S <= 59 /\ 0 <= us <= 999999.
Proof.
  unfold check_time_fields. rewrite !andb_true_iff, !Z.leb_le. lia.
Qed.

Lemma format_naive_shape (n : Z) :
  format_naive n
  = print_digits 4 (year (fields_of n)) +:+ "-"
    +:+ print_digits 2 (month (fields_of n)) +:+ "-"
    +:+ print_digits 2 (day (fields_of n)) +:+ "T"
    +:+ time_text (hour (fields_of n)) (minute (fields_of n))
          (second (fields_of n)) (microsecond (fields_of n)).
Proof. reflexivity. Qed.

Lemma fields_eta (f : fields) :
  {| year := year f; month := month f; day := day f; hour := hour f;
     minute := minute f; second := second f; microsecond := microsecond f |} = f.
Proof. destruct f. reflexivity. Qed.

Lemma fromisoformat_format (n : Z) (tail : string) (tz : option tzinfo) :
  0 <= n < MAX_US ->
  offset_like tail ->
  parse_tz tail = Some tz ->
  fromisoformat (format_naive n +:+ tail) = Some {| naive := n; tz_of := tz |}.
Proof.
  intros Hn Htail Htz.
  destruct (fields_of_spec n Hn) as (Hof & Hdate & Htime).
  pose proof (check_date_fields_bounds _ _ _ Hdate) as (Hy & Hm & Hd).
  pose proof (check_time_fields_bounds _ _ _ _ Htime) as (HH & HM & HS & Hus).
  rewrite format_naive_shape. unfold fromisoformat.
  rewrite !append_assoc.
  rewrite parse_print_digits by (simpl; lia). cbn [mbind option_bind].
  rewrite lit_append. cbn [expect Ascii.eqb Bool.eqb]. cbn [mbind option_bind].
  rewrite parse_print_digits by (simpl; lia). cbn [mbind option_bind].
  rewrite lit_append. cbn [expect Ascii.eqb Bool.eqb]. cbn [mbind option_bind].
  rewrite parse_print_digits by (simpl; lia). cbn [mbind option_bind].
  rewrite lit_append.
  rewrite parse_time_text by (auto; lia). cbn [mbind option_bind].
  rewrite Htz. cbn [mbind option_bind].
  unfold new_datetime. cbn [year month day hour minute second microsecond].
  replace (0 * 10 ^ Z.of_nat 4 + year (fields_of n)) with (year (fields_of n)) by lia.
  replace (0 * 10 ^ Z.of_nat 2 + month (fields_of n)) with (month (fields_of n)) by lia.
  replace (0 * 10 ^ Z.of_nat 2 + day (fields_of n)) with (day (fields_of n)) by lia.
  rewrite Hdate, Htime. cbv beta iota delta [andb].
  rewrite fields_eta, Hof. reflexivity.
Qed.

(** ** [strip], [endswith] and [replace] on what [isoformat] writes *)

Lemma digit_char_cases (d : Z) :
  0 <= d <= 9 ->
  PyStr.is_space (digit_char d) = false /\ Ascii.eqb (digit_char d) "Z" = false.
Proof.
  intros Hd.
  assert (Hc : d = 0 \/ d = 1 \/ d = 2 \/ d = 3 \/ d = 4 \/ d = 5 \/ d = 6
                \/ d = 7 \/ d = 8 \/ d = 9) by lia.
  repeat (destruct Hc as [-> | Hc]; [split; reflexivity|]). subst d.
  split; reflexivity.
Qed.

Lemma print_digits_digit (k : nat) (v : Z) :
  0 <= v < 10 ^ Z.of_nat (S k) -> 0 <= v / 10 ^ Z.of_nat k <= 9.
Proof.
  rewrite Nat2Z.inj_succ, Z.pow_succ_r by lia. intros Hv.
  assert (Hp : 0 < 10 ^ Z.of_nat k) by (apply Z.pow_pos_nonneg; lia).
  split; [apply Z.div_pos; lia|].
  apply Z.lt_succ_r. apply Z.div_lt_upper_bound; lia.
Qed.



Lemma rstrip_append (a b : string) :
  b <> EmptyString -> PyStr.rstrip b = b -> PyStr.rstrip (a +:+ b) = a +:+ b.
Proof.
  intros Hb Hr. induction a as [|x a IH]; [exact Hr|].
  rewrite append_cons. cbn [PyStr.rstrip]. rewrite IH.
  destruct (a +:+ b) eqn:E; [|reflexivity].
  destruct a; [|rewrite append_cons in E; discriminate].
  rewrite append_nil_l in E. congruence.
Qed.

Lemma endswith_char_append (z : ascii) (a b : string) :
  b <> EmptyString ->
  PyStr.endswith (String z EmptyString) (a +:+ b)
  = PyStr.endswith (String z EmptyString) b.
Proof.
  intros Hb. induction a as [|x a IH]; [reflexivity|].
  rewrite append_cons. cbn [PyStr.endswith]. rewrite IH.
  replace (String.eqb (String x (a +:+ b)) (String z EmptyString)) with false;
    [reflexivity|].
  symmetry. apply String.eqb_neq. intros E. inversion E as [[E1 E2]].
  destruct a; [|rewrite append_cons in E2; discriminate].
  rewrite append_nil_l in E2. congruence.
Qed.


Lemma format_naive_head (n : Z) :
  0 <= n < MAX_US ->
  exists c rest, format_naive n = String c rest /\ PyStr.is_space c = false.
Proof.
  intros Hn.
  destruct (fields_of_spec n Hn) as (_ & Hdate & _).
  pose proof (check_date_fields_bounds _ _ _ Hdate) as (Hy & _).
  rewrite format_naive_shape. cbn [print_digits]. rewrite append_cons.
  eexists _, _. split; [reflexivity|].
  apply digit_char_cases. apply (print_digits_digit 3). simpl. lia.
Qed.

(** A formatted date followed by a suffix without trailing space is
    untouched by [strip]. *)
Lemma strip_formatted (n : Z) (tail : string) :
  0 <= n < MAX_US -> tail <> EmptyString -> PyStr.rstrip tail = tail ->
  PyStr.strip (format_naive n +:+ tail) = format_naive n +:+ tail
  /\ PyStr.truthy (Some (format_naive n +:+ tail)) = true.
Proof.
  intros Hn Ht Hr. destruct (format_naive_head n Hn) as (c & rest & E & Hc).
  unfold PyStr.strip. rewrite E, append_cons. cbn [PyStr.lstrip PyStr.truthy].
  rewrite Hc. split; [|reflexivity].
  rewrite <- append_cons. by apply rstrip_append.
Qed.

Lemma canonical_shape n : canonical n = format_naive n +:+ "+08:00".
Proof. reflexivity. Qed.

Lemma add_us_in_range n delta :
  0 <= n + delta < MAX_US -> add_us n delta = Some (n + delta).
Proof.
  intros H. unfold add_us.
  destruct (Z.leb_spec 0 (n + delta)); [|lia].
  destruct (Z.ltb_spec (n + delta) MAX_US); [reflexivity|lia].
Qed.

Lemma parse_with_offset (n : Z) (tail : string) (off : Z) :
  0 <= n < MAX_US ->
  offset_like tail -> tail <> EmptyString -> PyStr.rstrip tail = tail ->
  PyStr.endswith "Z" tail = false ->
  parse_tz tail = Some (Some (timezone off)) ->
  _parse_datetime (Some (format_naive n +:+ tail))
  = astimezone_TZ n (timezone off).
Proof.
  intros Hn Hlike Hne Hr Hz Htz.
  destruct (strip_formatted n tail Hn Hne Hr) as [Hstrip Htruthy].
  unfold _parse_datetime. rewrite Htruthy. cbn [negb]. rewrite Hstrip.
  rewrite endswith_char_append, Hz by exact Hne.
  rewrite (fromisoformat_format n tail _ Hn Hlike Htz). reflexivity.
Qed.

Lemma parse_canonical (n : Z) :
  utcoffset TZ <= n < MAX_US ->
  _parse_datetime (Some (canonical n)) = Some {| naive := n; tz_of := Some TZ |}.
Proof.
  intros Hn. assert (H8 : utcoffset TZ = 28800000000) by reflexivity.
  rewrite canonical_shape.
  rewrite (parse_with_offset n "+08:00" 28800000000);
    [ | lia | right; eexists; left; reflexivity | discriminate
      | reflexivity | reflexivity | reflexivity ].
  unfold astimezone_TZ.
  rewrite add_us_in_range by lia. cbn [mbind option_bind].
  rewrite add_us_in_range by lia. cbn [mbind option_bind].
  do 2 f_equal. lia.
Qed.




(** The first eight hours of year 1 on the reference clock have no UTC
    reading: [astimezone] overflows and the parser returns nothing. *)
Lemma first_hours_of_year_one :
  canonical 0 = "0001-01-01T00:00:00+08:00"%string
  /\ _parse_datetime (Some (canonical 0)) = None.
Proof. split; vm_compute; reflexivity. Qed.


Lemma since_1980_reading : SINCE_1980 = 62451129600000000.
Proof. vm_compute. reflexivity. Qed.



(** * Further properties *)

Import Ledger Text Stable Jsonld SamplePage Old Output Inv2 Words Reason.

(** ** [strip] *)

Lemma lstrip_head s :
  PyStr.lstrip s = EmptyString
  \/ exists c t, PyStr.lstrip s = String c t /\ PyStr.is_space c = false.
Proof.
  induction s as [|c s IH]; [by left|]. simpl.
  destruct (PyStr.is_space c) eqn:E; [exact IH|]. right. eauto.
Qed.

Lemma lstrip_fixed c t : PyStr.is_space c = false -> PyStr.lstrip (String c t) = String c t.
Proof. intros H. simpl. by rewrite H. Qed.

Lemma rstrip_idempotent s : PyStr.rstrip (PyStr.rstrip s) = PyStr.rstrip s.
Proof.
  induction s as [|c s IH]; [reflexivity|]. cbn [PyStr.rstrip].
  destruct (PyStr.rstrip s) as [|d r] eqn:E.
  - destruct (PyStr.is_space c) eqn:Hc; [reflexivity|]. simpl. by rewrite Hc.
  - cbn [PyStr.rstrip]. cbn [PyStr.rstrip] in IH.
    destruct (PyStr.rstrip r) as [|e r'] eqn:E'.
    + destruct (PyStr.is_space d); [discriminate|]. by rewrite IH.
    + by rewrite IH.
Qed.

Lemma rstrip_head c t :
  PyStr.is_space c = false -> exists t', PyStr.rstrip (String c t) = String c t'.
Proof.
  intros H. cbn [PyStr.rstrip]. destruct (PyStr.rstrip t); [rewrite H|]; eauto.
Qed.

Lemma strip_idempotent s : PyStr.strip (PyStr.strip s) = PyStr.strip s.
Proof.
  unfold PyStr.strip.
  destruct (lstrip_head s) as [-> | (c & t & -> & Hc)]; [reflexivity|].
  destruct (rstrip_head c t Hc) as [t' E]. rewrite E, (lstrip_fixed _ _ Hc), <- E.
  apply rstrip_idempotent.
Qed.

Lemma plain_append a b : plain (a +:+ b) = plain a && plain b.
Proof.
  induction a as [|c a IH]; [reflexivity|]. rewrite append_cons. cbn [plain].
  rewrite IH. by rewrite andb_assoc.
Qed.

Lemma plain_print_digits k :
  forall v, 0 <= v < 10 ^ Z.of_nat k -> plain (print_digits k v) = true.
Proof.
  induction k as [|k IH]; intros v Hv; [reflexivity|].
  cbn [print_digits plain].
  destruct (digit_char_cases _ (print_digits_digit k v Hv)) as [-> ->].
  rewrite IH; [reflexivity|].
  apply Z.mod_pos_bound. apply Z.pow_pos_nonneg; lia.
Qed.

Lemma plain_rstrip s : plain s = true -> PyStr.rstrip s = s.
Proof.
  induction s as [|c s IH]; [reflexivity|]. cbn [plain PyStr.rstrip].
  rewrite !andb_true_iff, !negb_true_iff. intros [[Hc _] Hs]. rewrite (IH Hs).
  destruct s; [by rewrite Hc | reflexivity].
Qed.

Lemma plain_lstrip s : plain s = true -> PyStr.lstrip s = s.
Proof.
  destruct s as [|c s]; [reflexivity|]. cbn [plain PyStr.lstrip].
  rewrite !andb_true_iff, !negb_true_iff. intros [[Hc _] _]. by rewrite Hc.
Qed.

Lemma plain_strip s : plain s = true -> PyStr.strip s = s.
Proof.
  intros H. unfold PyStr.strip. rewrite (plain_lstrip s H). by apply plain_rstrip.
Qed.

Lemma plain_no_Z s : plain s = true -> PyStr.endswith "Z" s = false.
Proof.
  induction s as [|c s IH]; [reflexivity|]. cbn [plain PyStr.endswith].
  rewrite !andb_true_iff, !negb_true_iff. intros [[_ Hz] Hs]. rewrite (IH Hs).
  rewrite orb_false_r. apply String.eqb_neq. intros E. inversion E; subst.
  by rewrite Ascii.eqb_refl in Hz.
Qed.

Lemma append_nil_r (a : string) : a +:+ EmptyString = a.
Proof.
  induction a as [|x a IH]; [reflexivity|]. rewrite append_cons. by f_equal.
Qed.

Lemma format_naive_plain n : 0 <= n < MAX_US -> plain (format_naive n) = true.
Proof.
  intros Hn.
  destruct (fields_of_spec n Hn) as (_ & Hdate & Htime).
  pose proof (check_date_fields_bounds _ _ _ Hdate) as (Hy & Hm & Hd).
  pose proof (check_time_fields_bounds _ _ _ _ Htime) as (HH & HM & HS & Hus).
  rewrite format_naive_shape. unfold time_text.
  rewrite !plain_append, !plain_print_digits by (simpl; lia).
  destruct (microsecond (fields_of n) =? 0); [reflexivity|].
  rewrite plain_append, plain_print_digits by (simpl; lia). reflexivity.
Qed.

Lemma format_naive_truthy n :
  0 <= n < MAX_US -> PyStr.truthy (Some (format_naive n)) = true.
Proof.
  intros Hn. destruct (format_naive_head n Hn) as (c & rest & -> & _). reflexivity.
Qed.

(** ** The offset suffix *)



(** ** Ranges *)

Lemma days_before_year_range y :
  1 <= y <= 9999 ->
  0 <= days_before_year y
  /\ days_before_year y + 365 + leap_extra (is_leap y) <= MAXORDINAL.
Proof.
  unfold days_before_year, MAXORDINAL, is_leap, leap_extra. intros Hy.
  split; [Z.to_euclidean_division_equations; lia|].
  destruct (Z.eq_dec y 9999) as [-> | Hne]; [vm_compute; discriminate|].
  destruct (_ && _); Z.to_euclidean_division_equations; lia.
Qed.

Lemma day_of_year_range y m d :
  1 <= m <= 12 -> 1 <= d <= days_in_month y m ->
  1 <= days_before_month y m + d <= 365 + leap_extra (is_leap y).
Proof.
  unfold days_before_month, days_in_month, leap_extra. intros Hm Hd.
  assert (Hc : m = 1 \/ m = 2 \/ m = 3 \/ m = 4 \/ m = 5 \/ m = 6 \/ m = 7
                \/ m = 8 \/ m = 9 \/ m = 10 \/ m = 11 \/ m = 12) by lia.
  destruct (is_leap y);
    repeat (destruct Hc as [-> | Hc]; [simpl in *; lia|]); subst m; simpl in *; lia.
Qed.

Lemma ymd2ord_range y m d :
  check_date_fields y m d = true -> 1 <= ymd2ord y m d <= MAXORDINAL.
Proof.
  unfold check_date_fields, MINYEAR, MAXYEAR.
  rewrite !andb_true_iff, !Z.leb_le. intros (((((? & ?) & ?) & ?) & ?) & ?).
  pose proof (days_before_year_range y ltac:(lia)).
  pose proof (day_of_year_range y m d ltac:(lia) ltac:(lia)).
  unfold ymd2ord. lia.
Qed.

Lemma new_datetime_range f tz dt :
  new_datetime f tz = Some dt -> 0 <= naive dt < MAX_US /\ tz_of dt = tz.
Proof.
  unfold new_datetime.
  destruct (check_date_fields _ _ _) eqn:Hd; [|discriminate].
  destruct (check_time_fields _ _ _ _) eqn:Ht; [|discriminate].
  cbn [andb]. intros E. simplify_eq. cbn [naive tz_of]. split; [|reflexivity].
  pose proof (ymd2ord_range _ _ _ Hd).
  pose proof (check_time_fields_bounds _ _ _ _ Ht).
  unfold of_fields, MAX_US, US_PER_DAY, US_PER_SECOND, MAXORDINAL in *. lia.
Qed.

Lemma parse_tz_result s tz :
  parse_tz s = Some tz -> tz = None \/ exists off, tz = Some (timezone off).
Proof.
  unfold parse_tz. intros H.
  destruct s as [|c s]; [simplify_eq; by left|].
  right. repeat (case_match || simplify_option_eq); eauto.
Qed.

Lemma fromisoformat_result s dt :
  fromisoformat s = Some dt ->
  0 <= naive dt < MAX_US
  /\ (tz_of dt = None \/ exists off, tz_of dt = Some (timezone off)).
Proof.
  unfold fromisoformat. intros H.
  destruct (parse_digits 4 0 s) as [[y s1]|]; [|discriminate]. cbn [mbind option_bind] in H.
  destruct (expect "-" s1) as [s2|]; [|discriminate]. cbn [mbind option_bind] in H.
  destruct (parse_digits 2 0 s2) as [[m s3]|]; [|discriminate]. cbn [mbind option_bind] in H.
  destruct (expect "-" s3) as [s4|]; [|discriminate]. cbn [mbind option_bind] in H.
  destruct (parse_digits 2 0 s4) as [[d s5]|]; [|discriminate]. cbn [mbind option_bind] in H.
  destruct s5 as [|sep s6].
  - apply new_datetime_range in H as [Hr Htz]. auto.
  - destruct (parse_hh_mm_ss_ff s6) as [[[[[hh mm] ss] ff] s7]|]; [|discriminate].
    cbn [mbind option_bind] in H.
    destruct (parse_tz s7) as [tz|] eqn:Htz; [|discriminate].
    cbn [mbind option_bind] in H.
    apply new_datetime_range in H as [Hr E]. split; [exact Hr|].
    rewrite E. by apply parse_tz_result in Htz.
Qed.

Lemma add_us_result n delta r : add_us n delta = Some r -> 0 <= r < MAX_US.
Proof.
  unfold add_us. cbv zeta.
  destruct (Z.leb_spec 0 (n + delta)); [|discriminate].
  destruct (Z.ltb_spec (n + delta) MAX_US); [|discriminate].
  cbn [andb]. intros E. injection E as <-. lia.
Qed.

Lemma astimezone_TZ_result n tz d :
  0 <= n < MAX_US -> astimezone_TZ n tz = Some d ->
  tz_of d = Some TZ /\ 0 <= naive d < MAX_US.
Proof.
  intros Hn. destruct tz as [|off]; cbn [astimezone_TZ].
  - intros E. simplify_eq. auto.
  - destruct (add_us n (- off)) as [utc|]; [|discriminate]. cbn [mbind option_bind].
    destruct (add_us utc (utcoffset TZ)) as [loc|] eqn:E; [|discriminate].
    cbn [mbind option_bind]. intros E'. simplify_eq. cbn [naive tz_of].
    split; [reflexivity|]. by apply add_us_result in E.
Qed.

Lemma parse_datetime_result o d :
  _parse_datetime o = Some d -> tz_of d = Some TZ /\ 0 <= naive d < MAX_US.
Proof.
  unfold _parse_datetime. destruct (PyStr.truthy o); [|discriminate]. cbn [negb].
  destruct o as [s|]; [|discriminate].
  set (text := if PyStr.endswith "Z" (PyStr.strip s)
               then fromisoformat (PyStr.replace_char "Z" "+00:00" (PyStr.strip s))
               else fromisoformat (PyStr.strip s)).
  assert (Hres : forall dt, text = Some dt ->
                   0 <= naive dt < MAX_US
                   /\ (tz_of dt = None \/ exists off, tz_of dt = Some (timezone off))).
  { intros dt. unfold text. destruct (PyStr.endswith _ _); apply fromisoformat_result. }
  destruct text as [dt|]; [|discriminate]. cbn [mbind option_bind].
  destruct (Hres dt eq_refl) as (Hr & [-> | (off & ->)]); by apply astimezone_TZ_result.
Qed.

(** ** What [_parse_datetime] accepts *)

(** ** What [_parse_datetime] returns *)

(** X1: whatever the text, a date returned by [_parse_datetime] is
    expressed in the reference timezone, and its wall-clock reading lies
    between [datetime.min] and [datetime.max]. *)
Theorem parse_datetime_in_reference_timezone (o : option string) (d : datetime) :
  _parse_datetime o = Some d -> tz_of d = Some TZ /\ 0 <= naive d < MAX_US.
Proof. apply parse_datetime_result. Qed.

Lemma parse_datetime_in_reference_timezone_witness :
  _parse_datetime (Some "2024-06-01T01:30:00Z")
  = Some {| naive := Sample.ten_o_clock - 1800 * US_PER_SECOND; tz_of := Some TZ |}
  /\ tz_of {| naive := Sample.ten_o_clock - 1800 * US_PER_SECOND; tz_of := Some TZ |}
     = Some TZ.
Proof.
  assert (H : _parse_datetime (Some "2024-06-01T01:30:00Z")
              = Some {| naive := Sample.ten_o_clock - 1800 * US_PER_SECOND;
                        tz_of := Some TZ |}) by (vm_compute; reflexivity).
  split; [exact H|].
  destruct (parse_datetime_in_reference_timezone _ _ H) as [Htz _]. exact Htz.
Defined.

(** X2: white space around the text does not matter to
    [_parse_datetime]; a text of white space only gives [None], as do the
    empty text and [None]. *)
Theorem parse_datetime_ignores_surrounding_space (s : string) :
  _parse_datetime (Some s) = _parse_datetime (Some (PyStr.strip s))
  /\ (PyStr.strip s = EmptyString -> _parse_datetime (Some s) = None)
  /\ _parse_datetime None = None.
Proof.
  assert (Hblank : PyStr.strip s = EmptyString -> _parse_datetime (Some s) = None).
  { intros E. unfold _parse_datetime. destruct (PyStr.truthy (Some s)); [|reflexivity].
    cbn [negb]. rewrite E. reflexivity. }
  split; [|split; [exact Hblank | reflexivity]].
  destruct (PyStr.strip s) as [|c t] eqn:E.
  - rewrite Hblank by reflexivity. reflexivity.
  - unfold _parse_datetime.
    assert (Hs : PyStr.truthy (Some s) = true).
    { destruct s; [discriminate E | reflexivity]. }
    rewrite Hs. cbn [PyStr.truthy negb]. rewrite <- E, strip_idempotent. reflexivity.
Qed.

Lemma parse_datetime_ignores_surrounding_space_witness :
  PyStr.strip "  " = EmptyString /\ _parse_datetime (Some "  ") = None.
Proof.
  split; [reflexivity|].
  destruct (parse_datetime_ignores_surrounding_space "  ") as (_ & Hblank & _).
  apply Hblank. reflexivity.
Defined.

(** X3: the text [isoformat] writes for a date without timezone is read
    as that same wall-clock reading in the reference timezone; nothing is
    shifted and no reading is out of range. *)
Theorem naive_text_is_read_on_the_reference_clock (n : Z) :
  0 <= n < MAX_US ->
  _parse_datetime (Some (isoformat {| naive := n; tz_of := None |}))
  = Some {| naive := n; tz_of := Some TZ |}.
Proof.
  intros Hn. unfold isoformat. cbn [naive tz_of]. rewrite append_nil_r.
  pose proof (format_naive_plain n Hn) as Hp.
  unfold _parse_datetime. rewrite (format_naive_truthy n Hn). cbn [negb].
  rewrite (plain_strip _ Hp), (plain_no_Z _ Hp).
  rewrite <- (append_nil_r (format_naive n)) at 1.
  rewrite (fromisoformat_format n EmptyString None Hn); [reflexivity | by left | reflexivity].
Qed.

Lemma naive_text_is_read_on_the_reference_clock_witness :
  0 <= Sample.ten_o_clock < MAX_US
  /\ _parse_datetime (Some (isoformat {| naive := Sample.ten_o_clock; tz_of := None |}))
     = Some {| naive := Sample.ten_o_clock; tz_of := Some TZ |}.
Proof.
  assert (H : 0 <= Sample.ten_o_clock < MAX_US) 
    by (split; [apply Z.leb_le | apply Z.ltb_lt]; vm_compute; reflexivity).
  split; [exact H|].
  apply (naive_text_is_read_on_the_reference_clock Sample.ten_o_clock H).
Defined.




(** ** Book-keeping of a run *)

Lemma visit_anchor_effect c s a s' reqs flow :
  visit_anchor c s a = (s', reqs, flow) ->
  item_count s' = item_count s
  /\ ((reqs = [] /\ seen_urls s' = seen_urls s)
      \/ (reqs = [request_for a] /\ seen_urls s' = {[ joined a ]} ∪ seen_urls s
          /\ url_ok (joined a))).
Proof.
  intros H. destruct (candidate s a) eqn:Hc.
  - assert (Hok : url_ok (joined a)).
    { unfold candidate in Hc. rewrite !andb_true_iff in Hc.
      destruct Hc as [[[_ ?] ?] _]. by split. }
    rewrite (visit_anchor_candidate c s a Hc) in H.
    unfold dispatch, after_old in H.
    repeat case_match; simplify_eq; simpl; split; auto; right; auto.
  - rewrite (visit_anchor_skip c s a Hc) in H. simplify_eq. auto.
Qed.

Lemma parse_article_effect c s r hint s' items :
  parse_article c s r hint = (s', items) ->
  seen_urls s' = seen_urls s
  /\ item_count s' = item_count s + Z.of_nat (length items)
  /\ (length items <= 1)%nat
  /\ forall it, it ∈ items -> link it = url r.
Proof.
  intros H. rewrite parse_article_cases in H. unfold after_old in H.
  repeat case_match; simplify_eq; simpl; repeat split; try lia; auto;
    try (intros it Hit; inversion Hit; fail).
  intros it Hit. apply list_elem_of_singleton in Hit. by subst it.
Qed.

Lemma books_inv_step c y y' : step c y y' -> books_inv y -> books_inv y'.
Proof.
  unfold books_inv. intros Hstep (Hcount & Hseen & Hsub & Hlen & Hok).
  destruct Hstep; cbn [st in_flight dispatched emitted] in *;
    try (repeat split; assumption).
  - destruct (visit_anchor_effect _ _ _ _ _ _ H) as (Hic & [[-> Hs] | (-> & Hs & Hu)]).
    + rewrite !app_nil_r. repeat split; first [assumption | congruence].
    + rewrite !fmap_app, !length_app. simpl. repeat split.
      * congruence.
      * rewrite Hs, Hseen, list_to_set_app_L. simpl. set_solver.
      * intros u Hu'. rewrite !elem_of_app in Hu'. apply elem_of_app.
        destruct Hu' as [Hu' | [Hu' | Hu']]; [| |by right].
        -- left. apply Hsub. apply elem_of_app. by left.
        -- left. apply Hsub. apply elem_of_app. by right.
      * lia.
      * apply Forall_app. split; [assumption|]. apply Forall_cons. split; [exact Hu | apply Forall_nil; trivial].
  - destruct (parse_article_effect _ _ _ _ _ _ H0) as (Hs & Hic & Hone & Hlink).
    rewrite !length_app in *. simpl in Hlen. repeat split.
    + rewrite Hic, Hcount. lia.
    + congruence.
    + intros u Hu. rewrite fmap_app in Hu. rewrite !elem_of_app in Hu.
      apply Hsub. rewrite fmap_app, fmap_cons, !elem_of_app, elem_of_cons.
      destruct Hu as [[Hu | Hu] | Hu].
      * tauto.
      * apply list_elem_of_fmap in Hu as (it & -> & Hit).
        rewrite (Hlink it Hit), H. tauto.
      * rewrite fmap_app, elem_of_app in Hu. tauto.
    + lia.
    + assumption.
  - rewrite !length_app in *. simpl in Hlen. repeat split; try assumption; [|lia].
    intros u Hu. apply Hsub.
    rewrite !fmap_app, fmap_cons, !elem_of_app, elem_of_cons in *. tauto.
Qed.

Lemma books_inv_reachable c y : reachable c y -> books_inv y.
Proof.
  unfold reachable. intros H.
  eapply (rtc_ind_r (fun y => books_inv y)); [ | | exact H].
  - unfold books_inv, initial; simpl. repeat split; try constructor; set_solver.
  - eauto using books_inv_step.
Qed.

(** ** The [max_urls] and [max_scroll] limits in a run *)

Lemma visit_anchor_size c s a s' reqs flow m :
  max_urls c = Some m ->
  visit_anchor c s a = (s', reqs, flow) ->
  (size (seen_urls s') = size (seen_urls s) /\ flow = Continue
   /\ seen_urls s' = seen_urls s)
  \/ (size (seen_urls s') = size (seen_urls s) /\ flow = Break /\ reqs = [])
  \/ (size (seen_urls s') = S (size (seen_urls s))
      /\ flow = if m <=? Z.of_nat (S (size (seen_urls s))) then Break else Continue).
Proof.
  intros Hm H. destruct (candidate s a) eqn:Hc.
  - assert (Hfresh : joined a ∉ seen_urls s).
    { unfold candidate in Hc. apply andb_true_iff in Hc as [_ Hc].
      apply negb_true_iff, bool_decide_eq_false in Hc. exact Hc. }
    assert (Hsz : forall X : gset string, joined a ∉ X -> size ({[joined a]} ∪ X) = S (size X)).
    { intros X HX. rewrite size_union by (by apply disjoint_singleton_l).
      by rewrite size_singleton. }
    rewrite (visit_anchor_candidate c s a Hc) in H.
    unfold dispatch, after_old, hit_max_urls in H. rewrite Hm in H.
    repeat case_match; simplify_eq; simpl in *; auto;
      rewrite (Hsz _ Hfresh) in *; try congruence;
      right; right; split; reflexivity.
  - rewrite (visit_anchor_skip c s a Hc) in H. simplify_eq. auto.
Qed.

Lemma below_limit_step c m y y' :
  max_urls c = Some m -> step c y y' -> below_limit m y -> below_limit m y'.
Proof.
  unfold below_limit. intros Hm Hstep (Hbound & Harch).
  destruct Hstep; cbn [st archive] in *; try (split; [assumption | exact I || assumption]).
  - destruct (visit_anchor_size _ _ _ _ _ _ _ Hm H)
      as [(Hsz & -> & _) | [(Hsz & -> & _) | (Hsz & ->)]].
    + rewrite Hsz. auto.
    + rewrite Hsz. auto.
    + rewrite Hsz.
      destruct (Z.leb_spec m (Z.of_nat (S (size (seen_urls s))))); split; try exact I; lia.
  - unfold hit_max_urls. rewrite Hm.
    destruct (Z.leb_spec m (Z.of_nat (size (seen_urls s)))); split; auto.
  - destruct (parse_article_effect _ _ _ _ _ _ H0) as (Hs & _). rewrite Hs.
    split; [assumption|]. destruct a; auto.
Qed.

Lemma below_limit_reachable c m y :
  max_urls c = Some m -> reachable c y -> below_limit m y.
Proof.
  unfold reachable. intros Hm H.
  eapply (rtc_ind_r (fun y => below_limit m y)); [ | | exact H].
  - unfold below_limit, initial. cbn [st archive initial_state seen_urls].
    rewrite size_empty. split; [lia|auto].
  - eauto using below_limit_step.
Qed.

(** ** After the loop has ended, and once a stop is requested *)

Lemma finished_stays c y y' why :
  rtc (step c) y y' -> archive y = Finished why ->
  archive y' = Finished why /\ dispatched y' = dispatched y
  /\ seen_urls (st y') = seen_urls (st y).
Proof.
  induction 1 as [y | y y1 y' Hstep _ IH]; intros Ha; [auto|].
  assert (archive y1 = Finished why /\ dispatched y1 = dispatched y
          /\ seen_urls (st y1) = seen_urls (st y)) as (Ha1 & Hd1 & Hs1).
  { destruct Hstep; cbn [archive dispatched st] in *; try discriminate; auto.
    destruct (parse_article_effect _ _ _ _ _ _ H0) as (Hs & _). auto. }
  destruct (IH Ha1) as (? & ? & ?). repeat split; congruence.
Qed.

Lemma scroll_loop_bounded c m pages :
  max_scroll c = Some m ->
  forall s n,
    scroll_loop c s n pages = scroll_loop c s n (take (Z.to_nat (m - n)) pages)
    /\ ((Z.to_nat (m - n) <= length pages)%nat ->
        (scroll_loop c s n pages).2 <> OutOfPages).
Proof.
  intros Hm. induction pages as [|anchors later IH]; intros s n.
  - rewrite take_nil. split; [reflexivity|]. intros Hlen. simpl in Hlen.
    cbn [scroll_loop]. destruct (stop_requested s); [discriminate|].
    unfold hit_max_scroll. rewrite Hm.
    destruct (Z.leb_spec m n); [discriminate|lia].
  - destruct (Z.to_nat (m - n)) as [|k] eqn:Hk.
    + assert (Hhit : hit_max_scroll c n = true).
      { unfold hit_max_scroll. rewrite Hm. apply Z.leb_le. lia. }
      cbn [take scroll_loop]. rewrite Hhit.
      split; [reflexivity|]. intros _. destruct (stop_requested s); discriminate.
    + cbn [take scroll_loop].
      destruct (stop_requested s); [split; [reflexivity | discriminate]|].
      destruct (hit_max_scroll c n); [split; [reflexivity | discriminate]|].
      destruct (scan_anchors c s anchors) as [s1 reqs].
      destruct (hit_max_urls c s1); [split; [reflexivity | discriminate]|].
      destruct (IH s1 (n + 1)) as [Heq Hne].
      replace (Z.to_nat (m - (n + 1))) with k in * by lia.
      rewrite <- Heq. split; [reflexivity|].
      intros Hlen. simpl in Hlen.
      destruct (scroll_loop c s1 (n + 1) later) as [[s2 more] why] eqn:E.
      simpl in *. apply Hne. lia.
Qed.


(** ** What the book-keeping gives *)

Lemma seen_urls_counted c y :
  reachable c y -> size (seen_urls (st y)) = length (dispatched y).
Proof.
  intros H.
  destruct (books_inv_reachable c y H) as (_ & Hseen & _).
  destruct (dedup_inv_reachable c y H) as (Hnd & _).
  rewrite Hseen, size_list_to_set by exact Hnd. apply length_fmap.
Qed.

(** X5: in every state of a run, [item_count] is the number of items yielded
    so far, [len(seen_urls)] is the number of article requests yielded so
    far, and the items together with the requests still in flight are no
    more than the requests. *)
Theorem counters_match_the_run (c : Config) (y : Sys) :
  reachable c y ->
  item_count (st y) = Z.of_nat (length (emitted y))
  /\ size (seen_urls (st y)) = length (dispatched y)
  /\ (length (emitted y) + length (in_flight y) <= length (dispatched y))%nat.
Proof.
  intros H. destruct (books_inv_reachable c y H) as (Hcount & _ & _ & Hlen & _).
  split; [exact Hcount|]. split; [exact (seen_urls_counted c y H) | exact Hlen].
Qed.

Lemma counters_match_the_run_witness :
  reachable (Sample.config None 20)
    (Sample.after_first_article (Sample.config None 20)
       Sample.half_past_nine [] Sample.page_at_half_past)
  /\ item_count (st (Sample.after_first_article (Sample.config None 20)
                       Sample.half_past_nine [] Sample.page_at_half_past))
     = Z.of_nat (length (emitted (Sample.after_first_article (Sample.config None 20)
                                    Sample.half_past_nine [] Sample.page_at_half_past))).
Proof.
  split; [apply sample_reachable|].
  apply (counters_match_the_run _ _ (sample_reachable 20 [])).
Defined.

(** X6: every article request of a run is for a URL that starts with
    [https://tw.news.yahoo.com/] and ends with [.html], and so is every
    URL in [seen_urls]. *)
Theorem only_site_articles_are_requested (c : Config) (y : Sys) :
  reachable c y ->
  Forall url_ok (req_url <$> dispatched y)
  /\ forall u, u ∈ seen_urls (st y) -> url_ok u.
Proof.
  intros H. destruct (books_inv_reachable c y H) as (_ & Hseen & _ & _ & Hok).
  split; [exact Hok|]. intros u Hu. rewrite Hseen in Hu.
  apply elem_of_list_to_set in Hu. rewrite Forall_forall in Hok. by apply Hok.
Qed.

Lemma only_site_articles_are_requested_witness :
  reachable (Sample.config None 20)
    (Sample.after_first_article (Sample.config None 20)
       Sample.half_past_nine [] Sample.page_at_half_past)
  /\ Forall url_ok
       (req_url <$> dispatched (Sample.after_first_article (Sample.config None 20)
                                  Sample.half_past_nine [] Sample.page_at_half_past)).
Proof.
  split; [apply sample_reachable|].
  apply (only_site_articles_are_requested _ _ (sample_reachable 20 [])).
Defined.

(** X7: with [max_urls = m] a run never yields more than [m] article
    requests, or one when [m] is below one. *)
Theorem max_urls_bounds_the_requests (c : Config) (m : Z) (y : Sys) :
  max_urls c = Some m ->
  reachable c y ->
  Z.of_nat (length (dispatched y)) <= Z.max m 1.
Proof.
  intros Hm H. rewrite <- (seen_urls_counted c y H).
  apply (below_limit_reachable c m y Hm H).
Qed.

Lemma sample_reachable_max m old todo :
  2 <= m ->
  reachable (Sample.config (Some m) old)
    (Sample.after_first_article (Sample.config (Some m) old)
       Sample.half_past_nine todo Sample.page_at_half_past).
Proof.
  intros Hm.
  assert (Hhit : hit_max_urls (Sample.config (Some m) old)
                   (add_seen (joined Sample.half_past_nine) (mark_recent initial_state))
                 = false).
  { unfold hit_max_urls.
    cbn [max_urls Sample.config add_seen mark_recent seen_urls initial_state].
    rewrite (right_id_L ∅ (∪)), size_singleton. apply Z.leb_gt. lia. }
  eapply sample_run_reachable.
  - reflexivity.
  - rewrite sample_visit, Hhit. reflexivity.
  - reflexivity.
  - reflexivity.
Qed.

Lemma max_urls_bounds_the_requests_witness :
  max_urls (Sample.config (Some 5) 20) = Some 5
  /\ reachable (Sample.config (Some 5) 20)
       (Sample.after_first_article (Sample.config (Some 5) 20)
          Sample.half_past_nine [] Sample.page_at_half_past)
  /\ Z.of_nat (length (dispatched
                 (Sample.after_first_article (Sample.config (Some 5) 20)
                    Sample.half_past_nine [] Sample.page_at_half_past)))
     <= Z.max 5 1.
Proof.
  split; [reflexivity|]. split; [apply sample_reachable_max; lia|].
  apply (max_urls_bounds_the_requests (Sample.config (Some 5) 20) 5 _ eq_refl
           (sample_reachable_max 5 20 [] ltac:(lia))).
Defined.

(** X8: the limit is tested only after a request has been yielded: with
    [max_urls] at one or below (zero and negative values included), the
    first listing entry that qualifies is still requested, and the loop
    ends right after it for the reason [max_urls]. *)
Theorem first_request_precedes_the_limit (c : Config) (m : Z) (a : Anchor) :
  max_urls c = Some m -> m <= 1 ->
  hit_max_scroll c 0 = false ->
  qualifies c a ->
  exists s,
    reachable c {| st := s; archive := Finished HitMaxUrls;
                   in_flight := [request_for a]; dispatched := [request_for a];
                   emitted := [] |}.
Proof.
  intros Hm Hle Hscroll Hq.
  destruct (visit_qualifying c initial_state a Hq) as (s0 & Hvisit & Hseen & _);
    [set_solver|].
  assert (Hhit : hit_max_urls c (add_seen (joined a) s0) = true).
  { unfold hit_max_urls. rewrite Hm. cbn [add_seen seen_urls]. rewrite Hseen.
    cbn [initial_state seen_urls]. rewrite (right_id_L ∅ (∪)), size_singleton.
    apply Z.leb_le. lia. }
  rewrite Hhit in Hvisit.
  exists (add_seen (joined a) s0). unfold reachable, initial.
  eapply rtc_l; [apply (step_render c _ _ _ _ _ [a]); [reflexivity | exact Hscroll]|].
  eapply rtc_l; [apply (step_anchor c _ _ _ _ _ _ _ _ _ _ Hvisit)|].
  eapply rtc_l; [apply step_after_round|].
  rewrite Hhit. apply rtc_refl.
Qed.

Lemma first_request_precedes_the_limit_witness :
  exists s,
    reachable (Sample.config (Some 0) 20)
      {| st := s; archive := Finished HitMaxUrls;
         in_flight := [request_for Sample.half_past_nine];
         dispatched := [request_for Sample.half_past_nine];
         emitted := [] |}.
Proof.
  apply (first_request_precedes_the_limit (Sample.config (Some 0) 20) 0
           Sample.half_past_nine eq_refl ltac:(lia) eq_refl).
  repeat split; vm_compute; reflexivity.
Defined.

(** ** After a stop request, and after the loop *)

Lemma visit_anchor_requests_shape c s a s' reqs flow :
  visit_anchor c s a = (s', reqs, flow) -> reqs = [] \/ reqs = [request_for a].
Proof.
  intros H. destruct (visit_anchor_effect _ _ _ _ _ _ H) as (_ & [[-> _] | (-> & _)]); auto.
Qed.

(** X9: once a stop is requested, no further rendering is taken: the
    round counter stays as it is until the loop ends, and the only
    requests still yielded are for anchors of the rendering in progress
    that had not been visited yet, in their order. *)
Theorem stop_request_ends_the_listing (c : Config) (y y' : Sys) :
  stop_requested (st y) = true ->
  rtc (step c) y y' ->
  stop_requested (st y') = true
  /\ (scroll_round_of (archive y') = scroll_round_of (archive y)
      \/ exists why, archive y' = Finished why)
  /\ exists reqs,
       dispatched y' = dispatched y ++ reqs
       /\ reqs `sublist_of` (request_for <$> todo_of (archive y)).
Proof.
  intros Hstop Hrun. revert Hstop.
  induction Hrun as [y | y y1 y' Hstep _ IH]; intros Hstop.
  - split; [exact Hstop|]. split; [by left|].
    exists []. rewrite app_nil_r. split; [reflexivity | apply sublist_nil_l].
  - pose proof (step_grows _ _ _ Hstep) as (Hkeep & _).
    destruct (IH (Hkeep Hstop)) as (Hstop' & Hround & reqs & Hd & Hsub).
    split; [exact Hstop'|].
    destruct Hstep; cbn [st archive dispatched todo_of scroll_round_of] in *;
      try congruence.
    + split; [|eauto].
      destruct Hround as [Hround | Hround]; [|by right].
      destruct (archive y') eqn:Ha; cbn [scroll_round_of] in Hround; try discriminate.
      eauto.
    + split.
      * destruct flow; cbn [scroll_round_of] in Hround; exact Hround.
      * exists (reqs0 ++ reqs). rewrite Hd, <- app_assoc. split; [reflexivity|].
        rewrite fmap_cons.
        assert (Hrest : reqs `sublist_of` (request_for <$> todo)).
        { destruct flow; [exact Hsub|]. cbn [todo_of] in Hsub.
          apply sublist_nil_r in Hsub. subst reqs. apply sublist_nil_l. }
        destruct (visit_anchor_requests_shape _ _ _ _ _ _ H) as [-> | ->].
        -- by apply sublist_cons.
        -- by apply sublist_skip.
    + split; [exact Hround|]. exists reqs. split; [exact Hd|].
      apply sublist_nil_r in Hsub. subst reqs. apply sublist_nil_l.
    + split.
      * destruct (hit_max_urls c s); cbn [scroll_round_of] in Hround; [|exact Hround].
        destruct Hround as [Hround | Hround]; [|by right].
        destruct (archive y') eqn:Ha; cbn [scroll_round_of] in Hround; try discriminate.
        eauto.
      * exists reqs. split; [exact Hd|].
        destruct (hit_max_urls c s); exact Hsub.
    + split; [exact Hround|]. eauto.
    + split; [exact Hround|]. eauto.
Qed.

Lemma stop_request_ends_the_listing_witness :
  rtc (step (Sample.config None 20))
    {| st := request_stop initial_state; archive := AtLoopTop 3;
       in_flight := []; dispatched := []; emitted := [] |}
    {| st := request_stop initial_state; archive := Finished StopRequested;
       in_flight := []; dispatched := []; emitted := [] |}
  /\ stop_requested (request_stop initial_state) = true.
Proof.
  assert (Hrun : rtc (step (Sample.config None 20))
            {| st := request_stop initial_state; archive := AtLoopTop 3;
               in_flight := []; dispatched := []; emitted := [] |}
            {| st := request_stop initial_state; archive := Finished StopRequested;
               in_flight := []; dispatched := []; emitted := [] |}).
  { apply rtc_once. by apply step_stop. }
  split; [exact Hrun|].
  destruct (stop_request_ends_the_listing (Sample.config None 20)
              (mk_sys (request_stop initial_state) (AtLoopTop 3) [] [] [])
              (mk_sys (request_stop initial_state) (Finished StopRequested) [] [] [])
              eq_refl Hrun)
    as [Hstop _].
  exact Hstop.
Defined.

(** X10: after the listing loop has ended, for whatever reason, the
    callbacks of the articles still in flight add no request and add no
    URL to [seen_urls]. *)
Theorem nothing_is_requested_after_the_loop (c : Config) (y y' : Sys) (why : StopReason) :
  archive y = Finished why ->
  rtc (step c) y y' ->
  archive y' = Finished why
  /\ dispatched y' = dispatched y
  /\ seen_urls (st y') = seen_urls (st y).
Proof. intros Ha Hrun. exact (finished_stays c y y' why Hrun Ha). Qed.

Lemma nothing_is_requested_after_the_loop_witness :
  rtc (step (Sample.config None 20))
    {| st := initial_state; archive := Finished HitMaxScroll;
       in_flight := [request_for Sample.half_past_nine];
       dispatched := [request_for Sample.half_past_nine]; emitted := [] |}
    {| st := initial_state; archive := Finished HitMaxScroll;
       in_flight := [];
       dispatched := [request_for Sample.half_past_nine]; emitted := [] |}
  /\ dispatched {| st := initial_state; archive := Finished HitMaxScroll;
                   in_flight := [];
                   dispatched := [request_for Sample.half_past_nine]; emitted := [] |}
     = [request_for Sample.half_past_nine].
Proof.
  assert (Hrun : rtc (step (Sample.config None 20))
    {| st := initial_state; archive := Finished HitMaxScroll;
       in_flight := [request_for Sample.half_past_nine];
       dispatched := [request_for Sample.half_past_nine]; emitted := [] |}
    {| st := initial_state; archive := Finished HitMaxScroll;
       in_flight := [];
       dispatched := [request_for Sample.half_past_nine]; emitted := [] |}).
  { apply rtc_once.
    apply (step_fetch_failed _ initial_state (Finished HitMaxScroll) []
             (request_for Sample.half_past_nine) []). }
  split; [exact Hrun|].
  destruct (nothing_is_requested_after_the_loop (Sample.config None 20)
              (mk_sys initial_state (Finished HitMaxScroll)
                 [request_for Sample.half_past_nine]
                 [request_for Sample.half_past_nine] [])
              (mk_sys initial_state (Finished HitMaxScroll) []
                 [request_for Sample.half_past_nine] [])
              HitMaxScroll eq_refl Hrun) as (_ & Hd & _).
  exact Hd.
Defined.

(** X11: with [max_scroll = m] the loop looks at no rendering beyond the
    first [m - scroll_round], and it ends by one of its own [break]s
    whenever that many renderings are available. *)
Theorem max_scroll_bounds_the_renderings (c : Config) (m : Z)
    (pages : list (list Anchor)) (s : State) (n : Z) :
  max_scroll c = Some m ->
  scroll_loop c s n pages = scroll_loop c s n (take (Z.to_nat (m - n)) pages)
  /\ ((Z.to_nat (m - n) <= length pages)%nat ->
      (scroll_loop c s n pages).2 <> OutOfPages).
Proof. intros Hm. apply (scroll_loop_bounded c m pages Hm). Qed.

Lemma max_scroll_bounds_the_renderings_witness :
  scroll_loop
    {| max_scroll := Some 1; max_urls := None; old_streak_stop := 20;
       scroll_wait_ms := 350;
       start_dt := start_dt (Sample.config None 20);
       end_dt := end_dt (Sample.config None 20) |}
    initial_state 0 [[]; Sample.eight_anchors]
  = scroll_loop
    {| max_scroll := Some 1; max_urls := None; old_streak_stop := 20;
       scroll_wait_ms := 350;
       start_dt := start_dt (Sample.config None 20);
       end_dt := end_dt (Sample.config None 20) |}
    initial_state 0 [[]].
Proof.
  destruct (max_scroll_bounds_the_renderings
              {| max_scroll := Some 1; max_urls := None; old_streak_stop := 20;
                 scroll_wait_ms := 350;
                 start_dt := start_dt (Sample.config None 20);
                 end_dt := end_dt (Sample.config None 20) |}
              1 [[]; Sample.eight_anchors] initial_state 0 eq_refl) as [Heq _].
  exact Heq.
Defined.

(** ** What ends the loop when no limit is set *)

Lemma visit_anchor_stop_recent c s a s' reqs flow :
  visit_anchor c s a = (s', reqs, flow) ->
  (stop_requested s = true -> seen_recent_article s = true) ->
  stop_requested s' = true -> seen_recent_article s' = true.
Proof.
  intros H Hinv. destruct (candidate s a) eqn:Hc.
  - rewrite (visit_anchor_candidate c s a Hc) in H. unfold dispatch, after_old in H.
    repeat case_match; simplify_eq; cbn; intros Hs;
      first [reflexivity | assumption | specialize (Hinv Hs); congruence].
  - rewrite (visit_anchor_skip c s a Hc) in H. by simplify_eq.
Qed.

Lemma parse_article_stop_recent c s r hint s' items :
  parse_article c s r hint = (s', items) ->
  (stop_requested s = true -> seen_recent_article s = true) ->
  stop_requested s' = true -> seen_recent_article s' = true.
Proof.
  intros H Hinv. rewrite parse_article_cases in H. unfold after_old in H.
  repeat case_match; simplify_eq; cbn; intros Hs;
    first [reflexivity | assumption | specialize (Hinv Hs); congruence].
Qed.

Lemma stop_inv_step c y y' :
  max_scroll c = None -> max_urls c = None ->
  step c y y' -> stop_inv y -> stop_inv y'.
Proof.
  unfold stop_inv. intros Hms Hmu Hstep [Hstop Hfin].
  assert (Hscroll : forall n, hit_max_scroll c n = false)
    by (intros n; unfold hit_max_scroll; by rewrite Hms).
  assert (Hurls : forall s, hit_max_urls c s = false)
    by (intros s; unfold hit_max_urls; by rewrite Hmu).
  destruct Hstep; cbn [st archive] in *.
  - split; [exact Hstop|]. intros why E. by simplify_eq.
  - rewrite Hscroll in *. discriminate.
  - split; [exact Hstop|]. intros why E. discriminate.
  - split; [by eapply visit_anchor_stop_recent|]. intros why E. by destruct flow.
  - split; [exact Hstop|]. intros why E. discriminate.
  - split; [exact Hstop|]. intros why E. rewrite Hurls in E. discriminate.
  - split; [by eapply parse_article_stop_recent|]. intros why E.
    destruct (Hfin why E) as [-> Hs]. split; [reflexivity|].
    by apply (parse_article_grows _ _ _ _ _ _ H0).
  - split; [exact Hstop|]. exact Hfin.
Qed.

(** X12: a stop is requested only after an in-window date has been seen:
    old entries alone never end the crawl.  So when neither [max_scroll]
    nor [max_urls] is set, the listing loop can end only for a requested
    stop, and never before an in-window date has been seen. *)
Theorem without_limits_only_the_streak_ends_the_loop
    (c : Config) (y : Sys) (why : StopReason) :
  max_scroll c = None -> max_urls c = None ->
  reachable c y ->
  (stop_requested (st y) = true -> seen_recent_article (st y) = true)
  /\ (archive y = Finished why ->
      why = StopRequested /\ seen_recent_article (st y) = true).
Proof.
  intros Hms Hmu H.
  assert (Hinv : stop_inv y).
  { eapply (rtc_ind_r (fun y => stop_inv y)); [ | | exact H].
    - split; [discriminate|]. intros w E. discriminate.
    - intros y1 y2 _ Hstep Hy1. by eapply stop_inv_step. }
  destruct Hinv as [Hstop Hfin]. split; [exact Hstop|].
  intros E. destruct (Hfin why E) as [-> Hs]. auto.
Qed.

Lemma without_limits_only_the_streak_ends_the_loop_witness :
  reachable (Sample.config None 20)
    (Sample.after_first_article (Sample.config None 20)
       Sample.half_past_nine [] Sample.page_at_half_past)
  /\ (stop_requested (st (Sample.after_first_article (Sample.config None 20)
                            Sample.half_past_nine [] Sample.page_at_half_past)) = true ->
      seen_recent_article (st (Sample.after_first_article (Sample.config None 20)
                            Sample.half_past_nine [] Sample.page_at_half_past)) = true).
Proof.
  split; [apply sample_reachable|].
  destruct (without_limits_only_the_streak_ends_the_loop (Sample.config None 20)
              (Sample.after_first_article (Sample.config None 20)
                 Sample.half_past_nine [] Sample.page_at_half_past)
              StopRequested eq_refl eq_refl (sample_reachable 20 [])) as [H _].
  exact H.
Defined.

(** ** From the item to the sorter *)

Lemma pub_dt_result r hint d :
  pub_dt r hint = Some d -> tz_of d = Some TZ /\ 0 <= naive d < MAX_US.
Proof.
  unfold pub_dt. destruct (_parse_datetime (dt_str r)) as [d'|] eqn:E.
  - intros H. simplify_eq. by eapply parse_datetime_result.
  - apply parse_datetime_result.
Qed.

Lemma emitted_stamped c y :
  reachable c y -> forall it, it ∈ emitted y -> stamped_in_window c it.
Proof.
  unfold reachable. intros H.
  eapply (rtc_ind_r (fun y => forall it, it ∈ emitted y -> stamped_in_window c it));
    [ | | exact H].
  - intros it Hit. inversion Hit.
  - intros y1 y2 _ Hstep IH it Hit.
    destruct Hstep; cbn [emitted] in *; auto.
    apply elem_of_app in Hit as [Hit | Hit]; [auto|].
    destruct (parse_article_items _ _ _ _ _ _ H1)
      as [-> | (d & it' & -> & Hd & Hwin & _ & Hdate)]; [inversion Hit|].
    apply list_elem_of_singleton in Hit. subst it'.
    destruct (pub_dt_result _ _ _ Hd) as [Htz Hrange].
    exists d. split; [exact Hdate|]. split; [exact Htz|].
    split; [by apply classify_IN_WINDOW | exact Hrange].
Qed.

Lemma canonical_truthy n : 0 <= n < MAX_US -> PyStr.truthy (Some (canonical n)) = true.
Proof.
  intros Hn. rewrite canonical_shape.
  destruct (format_naive_head n Hn) as (ch & rest & -> & _). reflexivity.
Qed.

(** X13: for a window that starts in 1980 or later, where the reference
    timezone is at +08:00, the [date] text of every item is read back by
    the sorter as the date it was written from: whatever row holds that
    text in its [date] column, its sort key is that date, which lies in
    the window. *)
Theorem emitted_dates_are_read_back_by_the_sorter
    (c : Config) (y : Sys) (it : Item) (row : Row) :
  SINCE_1980 <= naive (start_dt c) ->
  reachable c y ->
  it ∈ emitted y ->
  row_get "date" row = Some (date it) ->
  date it = isoformat (date_key row)
  /\ tz_of (date_key row) = Some TZ
  /\ naive (start_dt c) <= naive (date_key row) <= naive (end_dt c).
Proof.
  intros Hlate H Hit Hrow. pose proof since_1980_reading as H80.
  assert (H8 : utcoffset TZ = 28800000000) by reflexivity.
  destruct (emitted_stamped c y H it Hit) as (d & Hdate & Htz & Hwin & Hrange).
  assert (Hd : isoformat d = canonical (naive d)).
  { unfold canonical. destruct d as [n tz]. cbn [tz_of naive] in *. by subst tz. }
  assert (Hkey : date_key row = d).
  { unfold date_key. rewrite Hrow.
    assert (Ht : PyStr.or_else (Some (date it)) (Some EmptyString) = Some (date it)).
    { rewrite Hdate, Hd. unfold PyStr.or_else.
      by rewrite (canonical_truthy (naive d) Hrange). }
    rewrite Ht, Hdate, Hd, parse_canonical by lia.
    destruct d as [n tz]. cbn [tz_of naive] in *. by subst tz. }
  rewrite Hkey. auto.
Qed.

Lemma emitted_dates_are_read_back_by_the_sorter_witness :
  exists it,
    emitted (Sample.after_first_article (Sample.config None 20)
               Sample.half_past_nine [] Sample.page_at_half_past) = [it]
    /\ date it = isoformat (date_key [("date"%string, Some (date it))]).
Proof.
  destruct (sample_article 20
              (add_seen (joined Sample.half_past_nine) (mark_recent initial_state)))
    as [it Hit].
  assert (Hem : emitted (Sample.after_first_article (Sample.config None 20)
                           Sample.half_past_nine [] Sample.page_at_half_past) = [it]).
  { unfold Sample.after_first_article. cbv zeta. cbn [emitted].
    rewrite sample_visit. cbn [fst snd]. by rewrite Hit. }
  exists it. split; [exact Hem|].
  destruct (emitted_dates_are_read_back_by_the_sorter (Sample.config None 20)
              (Sample.after_first_article (Sample.config None 20)
                 Sample.half_past_nine [] Sample.page_at_half_past)
              it [("date"%string, Some (date it))]) as (Hdate & _).
  - apply Z.leb_le. vm_compute. reflexivity.
  - apply sample_reachable.
  - rewrite Hem. left.
  - reflexivity.
  - exact Hdate.
Defined.

(** ** The request for the listing page *)

Lemma attempts_length (fuel : nat) :
  forall r, (length (Retry.attempts fuel r) <= Z.to_nat (Z.max 1 (3 - r)))%nat.
Proof.
  induction fuel as [|fuel IH]; intros r; cbn [Retry.attempts length]; [lia|].
  unfold Retry.on_archive_error, Retry._make_archive_request.
  change (default 0 (Some r)) with r. cbv zeta.
  destruct (Z.ltb_spec r 2); [|cbn [mbind list_bind length]; lia].
  rewrite bind_cons, app_nil_r. cbn [length]. specialize (IH (r + 1)). lia.
Qed.

(** X14: the spider yields the request for the listing page at most
    three times: when every one of them fails, it yields it with the retry
    counts 0, 1 and 2 and then gives up; no request carries a count above
    2. *)
Theorem listing_page_is_tried_three_times (fuel : nat) (meta : option Z) (r : Z) :
  ((2 <= fuel)%nat -> Retry.start_requests ≫= Retry.attempts fuel = [0; 1; 2])
  /\ (length (Retry.attempts fuel r) <= Z.to_nat (Z.max 1 (3 - r)))%nat
  /\ Forall (fun r' => r' <= 2) (Retry.on_archive_error meta).
Proof.
  split; [|split].
  - intros H. destruct fuel as [|[|fuel]]; [lia | lia |]. by destruct fuel.
  - apply attempts_length.
  - unfold Retry.on_archive_error, Retry._make_archive_request.
    destruct (Z.ltb_spec (default 0 meta) 2); repeat constructor. lia.
Qed.

Lemma listing_page_is_tried_three_times_witness :
  Retry.start_requests ≫= Retry.attempts 5 = [0; 1; 2].
Proof.
  destruct (listing_page_is_tried_three_times 5 None 0) as [H _]. apply H. lia.
Defined.

(** ** The window fixed by [__init__] *)

(** X15: [__init__] fixes the window to the hour that ends at [end], both
    ends included: a date is in the window exactly when it is not after
    [end] and at most one hour before it.  The state starts empty.  An
    [end] in the first hour of the year 1 makes [__init__] raise. *)
Theorem window_is_the_hour_before_end
    (e : Z) (ms mu : option Z) (old wait : Z) :
  0 <= e < MAX_US ->
  (3600 * US_PER_SECOND <= e ->
   exists c,
     __init__ e ms mu old wait = Some (c, initial_state)
     /\ max_scroll c = ms /\ max_urls c = mu /\ old_streak_stop c = old
     /\ naive (end_dt c) - naive (start_dt c) = 3600 * US_PER_SECOND
     /\ forall d, classify c d = IN_WINDOW
                  <-> e - 3600 * US_PER_SECOND <= naive d <= e)
  /\ (e < 3600 * US_PER_SECOND -> __init__ e ms mu old wait = None).
Proof.
  intros He. assert (Hus : US_PER_SECOND = 1000000) by reflexivity.
  unfold __init__. split; intros Hh.
  - rewrite add_us_in_range by lia. cbn [mbind option_bind].
    eexists. split; [reflexivity|]. cbn [max_scroll max_urls old_streak_stop end_dt start_dt naive].
    split; [reflexivity|]. split; [reflexivity|]. split; [reflexivity|].
    split; [lia|]. intros d. rewrite classify_IN_WINDOW. cbn [end_dt start_dt naive]. lia.
  - unfold add_us. cbv zeta.
    destruct (Z.leb_spec 0 (e + - (3600 * US_PER_SECOND))); [lia|]. reflexivity.
Qed.

Lemma window_is_the_hour_before_end_witness :
  __init__ Sample.ten_o_clock None None 20 350
  = Some (Sample.config None 20, initial_state)
  /\ __init__ 5 None None 20 350 = None.
Proof.
  split; [reflexivity|].
  destruct (window_is_the_hour_before_end 5 None None 20 350) as [_ H].
  - split; [apply Z.leb_le | apply Z.ltb_lt]; vm_compute; reflexivity.
  - apply H. apply Z.ltb_lt. vm_compute. reflexivity.
Defined.

(** ** Listing entries dated before the window *)

Lemma visit_old_entry c s a :
  seen_recent_article s = true ->
  old_entry c s a ->
  old_count_streak s + 1 < old_streak_stop c ->
  visit_anchor c s a = (bump_streak s, [], Continue).
Proof.
  intros Hrecent (Hc & d & Hd & Hold) Hlt.
  rewrite (visit_anchor_candidate c s a Hc), Hd, Hold.
  unfold after_old. rewrite Hrecent. cbn [andb].
  destruct (Z.leb_spec (old_streak_stop c) (old_count_streak s + 1)); [lia|reflexivity].
Qed.

Lemma old_entry_bump c s a : old_entry c s a -> old_entry c (bump_streak s) a.
Proof. intros H. exact H. Qed.

(** X16: a listing entry dated before the window is not put in
    [seen_urls], so it counts towards the streak every time it is met:
    once an in-window entry has been seen, a pass over [k] such entries,
    repeated or not, adds [k] to the streak, requests nothing and leaves
    the set as it was, as long as the threshold is not reached. *)
Theorem old_entries_count_each_time_they_are_met
    (c : Config) (anchors : list Anchor) (s : State) :
  seen_recent_article s = true ->
  Forall (old_entry c s) anchors ->
  old_count_streak s + Z.of_nat (length anchors) < old_streak_stop c ->
  exists s',
    scan_anchors c s anchors = (s', [])
    /\ old_count_streak s' = old_count_streak s + Z.of_nat (length anchors)
    /\ seen_urls s' = seen_urls s
    /\ stop_requested s' = stop_requested s.
Proof.
  revert s. induction anchors as [|a anchors IH]; intros s Hrecent Hall Hlt.
  - exists s. cbn. repeat split; lia.
  - apply Forall_cons in Hall as [Ha Hall]. cbn [length] in Hlt.
    cbn [scan_anchors]. rewrite (visit_old_entry c s a Hrecent Ha) by lia.
    destruct (IH (bump_streak s)) as (s' & Hscan & Hstreak & Hseen & Hstop).
    + exact Hrecent.
    + eapply Forall_impl; [exact Hall|]. intros b Hb. by apply old_entry_bump.
    + cbn [bump_streak old_count_streak]. lia.
    + exists s'. rewrite Hscan. cbn [bump_streak old_count_streak seen_urls stop_requested] in *.
      repeat split; try assumption. cbn [length]. lia.
Qed.

Lemma old_entries_count_each_time_they_are_met_witness :
  exists s',
    scan_anchors (Sample.config None 20) (mark_recent initial_state)
      [Sample.eight_o_clock; Sample.eight_o_clock; Sample.eight_o_clock] = (s', [])
    /\ old_count_streak s' = 3.
Proof.
  destruct (old_entries_count_each_time_they_are_met (Sample.config None 20)
              [Sample.eight_o_clock; Sample.eight_o_clock; Sample.eight_o_clock]
              (mark_recent initial_state)) as (s' & Hscan & Hstreak & _).
  - reflexivity.
  - assert (H : old_entry (Sample.config None 20) (mark_recent initial_state)
                  Sample.eight_o_clock).
    { split; [vm_compute; reflexivity|].
      exists {| naive := Sample.ten_o_clock - 7200 * US_PER_SECOND; tz_of := Some TZ |}.
      split; vm_compute; reflexivity. }
    repeat (apply Forall_cons; split; [exact H|]). apply Forall_nil. trivial.
  - apply Z.ltb_lt. vm_compute. reflexivity.
  - exists s'. split; [exact Hscan|]. rewrite Hstreak. reflexivity.
Defined.

(** ** Stability of the sort *)

Lemma insert_sorted_dated k x l :
  Forall (fun y => (x.1 <= y.1)%nat) l ->
  dated_pairs k (insert_sorted x l) = dated_pairs k (x :: l).
Proof.
  unfold dated_pairs. induction l as [|y l IH]; intros Hall; [reflexivity|].
  apply Forall_cons in Hall as [Hxy Hall]. cbn [insert_sorted].
  destruct (key_leb x y) eqn:E; [reflexivity|].
  rewrite filter_cons, (IH Hall), !filter_cons.
  assert (Hlt : naive (date_key y.2) < naive (date_key x.2)).
  { assert (Hn : ~ key_le x y) by (unfold key_le; congruence).
    rewrite key_le_spec in Hn. lia. }
  repeat case_decide; try reflexivity; lia.
Qed.

Lemma sort_pairs_dated k l :
  StronglySorted (fun a b => (a.1 <= b.1)%nat) l ->
  dated_pairs k (sort_pairs l) = dated_pairs k l.
Proof.
  induction 1 as [|x l Hs IH Hall]; [reflexivity|]. cbn [sort_pairs].
  rewrite insert_sorted_dated.
  - unfold dated_pairs in *. rewrite !filter_cons, IH. reflexivity.
  - rewrite Forall_forall in Hall |- *. intros y Hy. apply Hall.
    by rewrite <- (sort_pairs_perm l).
Qed.

Lemma enumerate_from_ordered k rows :
  StronglySorted (fun a b : nat * Row => (a.1 <= b.1)%nat)
    (zip (seq k (length rows)) rows).
Proof.
  revert k. induction rows as [|r rows IH]; intros k; simpl; constructor; [apply IH|].
  apply Forall_forall. intros [i r'] Hi.
  apply list_elem_of_lookup in Hi as [j Hj].
  apply lookup_zip_with_Some in Hj as (x & y & E & Hx & _). simplify_eq.
  rewrite lookup_seq in Hx. simpl. lia.
Qed.

Lemma dated_pairs_rows k l : (dated_pairs k l).*2 = dated k (l.*2).
Proof.
  unfold dated_pairs, dated. induction l as [|p l IH]; [reflexivity|].
  rewrite fmap_cons, !filter_cons. case_decide; [rewrite fmap_cons|]; by rewrite IH.
Qed.

Lemma sort_rows_dated k rows : dated k (sort_rows rows) = dated k rows.
Proof.
  unfold sort_rows. rewrite <- dated_pairs_rows, sort_pairs_dated.
  - by rewrite dated_pairs_rows, enumerate_rows.
  - apply enumerate_from_ordered.
Qed.

Lemma date_key_nonneg r : 0 <= naive (date_key r).
Proof.
  unfold date_key. destruct (_parse_datetime _) as [d|] eqn:E; [|simpl; lia].
  apply parse_datetime_result in E. lia.
Qed.

Lemma filter_none {A} (P : A -> Prop) `{forall x, Decision (P x)} (l : list A) :
  Forall (fun x => ~ P x) l -> filter P l = [].
Proof.
  induction 1 as [|x l Hx _ IH]; [reflexivity|].
  by rewrite filter_cons, decide_False.
Qed.

Lemma filter_all {A} (P : A -> Prop) `{forall x, Decision (P x)} (l : list A) :
  Forall P l -> filter P l = l.
Proof.
  induction 1 as [|x l Hx _ IH]; [reflexivity|].
  by rewrite filter_cons, decide_True, IH.
Qed.

Lemma sorted_split rows :
  date_sorted rows ->
  rows = dated 0 rows ++ filter (fun r => naive (date_key r) <> 0) rows.
Proof.
  unfold date_sorted, dated. intros Hs.
  apply Sorted_StronglySorted in Hs; [|intros a b c; lia].
  induction Hs as [|r rows Hs IH Hall]; [reflexivity|].
  rewrite !filter_cons.
  destruct (decide (naive (date_key r) = 0)) as [E | E].
  - rewrite decide_False by lia. simpl. by rewrite <- IH.
  - rewrite decide_True by exact E.
    pose proof (date_key_nonneg r).
    rewrite filter_none, filter_all; [reflexivity | |];
      (eapply Forall_impl; [exact Hall|]); simpl; intros; lia.
Qed.

(** X17: the sort is stable: the rows of one date keep the order they had
    in the file. *)
Theorem sort_is_stable (rows : list Row) (k : Z) :
  filter (fun r => naive (date_key r) = k) (sort_rows rows)
  = filter (fun r => naive (date_key r) = k) rows.
Proof. apply sort_rows_dated. Qed.

(** X18: rows whose date is missing or unreadable take the key
    [datetime.min], below which no date sorts: after the sort they come
    first, in the order they had in the file. *)
Theorem unreadable_dates_sort_first (rows : list Row) :
  sort_rows rows
  = filter (fun r => naive (date_key r) = 0) rows
    ++ filter (fun r => naive (date_key r) <> 0) (sort_rows rows)
  /\ (forall r,
        _parse_datetime (PyStr.or_else (row_get "date" r) (Some EmptyString)) = None ->
        naive (date_key r) = 0)
  /\ (forall r, 0 <= naive (date_key r)).
Proof.
  split; [|split].
  - rewrite (sorted_split (sort_rows rows) (sort_rows_sorted rows)) at 1.
    by rewrite (sort_rows_dated 0 rows).
  - intros r E. unfold date_key. rewrite E. reflexivity.
  - apply date_key_nonneg.
Qed.

Lemma unreadable_dates_sort_first_witness :
  _parse_datetime
    (PyStr.or_else (row_get "date" (Sample.row "a.html" "soon")) (Some EmptyString))
  = None
  /\ naive (date_key (Sample.row "a.html" "soon")) = 0.
Proof.
  assert (H : _parse_datetime
                (PyStr.or_else (row_get "date" (Sample.row "a.html" "soon"))
                   (Some EmptyString)) = None) by (vm_compute; reflexivity).
  split; [exact H|].
  destruct (unreadable_dates_sort_first []) as (_ & Hkey & _).
  apply Hkey, H.
Defined.

(** X19: sorting the output file keeps its header and its rows, every
    cell of a row being keyed by a column name: the rows after the call
    are a rearrangement of the rows before it, none lost and none
    repeated; when there is a [date] column they are in ascending order of
    date. *)
Theorem sort_output_keeps_every_row (csv : Csv) :
  exists rows',
    _sort_output_csv_by_date (Some csv)
    = Some {| fieldnames := fieldnames csv; rows := rows' |}
    /\ rows' ≡ₚ rows csv
    /\ ("date" ∈ fieldnames csv -> date_sorted rows').
Proof.
  unfold _sort_output_csv_by_date.
  destruct (bool_decide (rows csv = [])) eqn:Hrows.
  - apply bool_decide_eq_true in Hrows. exists (rows csv). cbn [orb].
    split; [by destruct csv|]. split; [reflexivity|].
    intros _. rewrite Hrows. constructor.
  - destruct (bool_decide (fieldnames csv = [])) eqn:Hnames.
    + apply bool_decide_eq_true in Hnames. exists (rows csv). cbn [orb].
      split; [by destruct csv|]. split; [reflexivity|].
      rewrite Hnames. intros Hin. inversion Hin.
    + destruct (bool_decide ("date" ∈ fieldnames csv)) eqn:Hdate; cbn [orb negb].
      * exists (sort_rows (rows csv)).
        split; [reflexivity|]. split; [apply sort_rows_perm|].
        intros _. apply sort_rows_sorted.
      * apply bool_decide_eq_false in Hdate. exists (rows csv).
        split; [by destruct csv|]. split; [reflexivity|]. intros Hin. contradiction.
Qed.

Lemma sort_output_keeps_every_row_witness :
  exists rows',
    _sort_output_csv_by_date
      (Some {| fieldnames := ["link"; "date"]%string; rows := Sample.unsorted_rows |})
    = Some {| fieldnames := ["link"; "date"]%string; rows := rows' |}
    /\ date_sorted rows'.
Proof.
  destruct (sort_output_keeps_every_row
              {| fieldnames := ["link"; "date"]%string; rows := Sample.unsorted_rows |})
    as (rows' & Hout & _ & Hsorted).
  exists rows'. split; [exact Hout|]. apply Hsorted.
  cbn [fieldnames]. right. left.
Defined.

(** ** Structured data *)

Lemma value_induction (P : value -> Prop) :
  P JNull -> (forall b, P (JBool b)) -> (forall n, P (JInt n)) ->
  (forall m e, P (JFloat m e)) -> (forall s, P (JStr s)) ->
  (forall l, Forall P l -> P (JList l)) ->
  (forall items, Forall (fun kv => P kv.2) items -> P (JDict items)) ->
  forall v, P v.
Proof.
  intros HN HB HI HF HS HL HD. fix IH 1.
  intros [ | b | n | m e | s | l | items];
    [exact HN | apply HB | apply HI | apply HF | apply HS | | ].
  - apply HL. induction l as [|v l IHl]; constructor; [apply IH | exact IHl].
  - apply HD. induction items as [|[k v] items IHl]; constructor; [apply IH | exact IHl].
Qed.

Lemma walk_list (l : list value) :
  _walk_json_nodes (JList l) = l ≫= _walk_json_nodes.
Proof.
  cbn [_walk_json_nodes].
  induction l as [|v l IH]; [reflexivity|]. rewrite bind_cons, <- IH. reflexivity.
Qed.

Lemma walk_dict (items : list (string * value)) :
  _walk_json_nodes (JDict items) = JDict items :: (items.*2 ≫= _walk_json_nodes).
Proof.
  cbn [_walk_json_nodes]. f_equal.
  induction items as [|[k v] items IH]; [reflexivity|].
  rewrite fmap_cons, bind_cons, <- IH. reflexivity.
Qed.

Lemma walk_inside node v :
  node ∈ _walk_json_nodes v -> is_dict node /\ inside node v.
Proof.
  revert v. apply (value_induction (fun v =>
    node ∈ _walk_json_nodes v -> is_dict node /\ inside node v));
    try (intros; match goal with H : _ ∈ _ |- _ => inversion H end; fail).
  - intros l IH. rewrite walk_list, list_elem_of_bind.
    intros (item & Hnode & Hitem).
    rewrite Forall_forall in IH. destruct (IH item Hitem Hnode) as [Hd Hin].
    split; [exact Hd|]. eapply inside_list; eassumption.
  - intros items IH. rewrite walk_dict, elem_of_cons, list_elem_of_bind.
    intros [-> | (v & Hnode & Hv)].
    + split; [exact I | constructor].
    + apply list_elem_of_fmap in Hv as ([k v'] & -> & Hkv).
      rewrite Forall_forall in IH. destruct (IH _ Hkv Hnode) as [Hd Hin].
      split; [exact Hd|]. eapply inside_dict; eassumption.
Qed.

Lemma inside_walk node v :
  inside node v -> is_dict node -> node ∈ _walk_json_nodes v.
Proof.
  induction 1 as [ | l item Hitem _ IH | items k v Hkv _ IH]; intros Hd.
  - destruct node; try contradiction. rewrite walk_dict. left.
  - rewrite walk_list, list_elem_of_bind. eauto.
  - rewrite walk_dict, elem_of_cons, list_elem_of_bind. right.
    exists v. split; [auto|]. apply list_elem_of_fmap. by exists (k, v).
Qed.

(** X20: [_walk_json_nodes] yields the mappings of the payload, at any
    depth below lists and below the values of mappings, and nothing else:
    the [isinstance] test of the caller never skips a node.  A mapping
    comes before the mappings nested in it. *)
Theorem walk_yields_the_nested_mappings (data node : value) :
  (node ∈ _walk_json_nodes data <-> is_dict node /\ inside node data)
  /\ (is_dict data -> head (_walk_json_nodes data) = Some data).
Proof.
  split.
  - split; [apply walk_inside|]. intros [Hd Hin]. by apply inside_walk.
  - destruct data; try contradiction. intros _. by rewrite walk_dict.
Qed.

Lemma walk_yields_the_nested_mappings_witness :
  JDict [("name"%string, JStr "x")]
  ∈ _walk_json_nodes (JList [JInt 1; JDict [("a"%string, JList [JDict [("name"%string, JStr "x")]])]]).
Proof.
  apply (walk_yields_the_nested_mappings
           (JList [JInt 1; JDict [("a"%string, JList [JDict [("name"%string, JStr "x")]])]])
           (JDict [("name"%string, JStr "x")])).
  split; [exact I|].
  eapply inside_list; [right; left|].
  eapply inside_dict; [left|].
  eapply inside_list; [left|]. constructor.
Defined.

(** *** Substrings *)

Lemma startswith_spec p s :
  PyStr.startswith p s = true <-> exists t, s = p +:+ t.
Proof.
  revert s. induction p as [|a p IH]; intros s.
  - split; [intros _; by exists s | reflexivity].
  - destruct s as [|b s]; cbn [PyStr.startswith].
    + split; [discriminate | intros [t Ht]; discriminate].
    + destruct (Ascii.eqb_spec a b) as [->|Hne].
      * rewrite IH. split; intros [t Ht]; exists t.
        -- by rewrite append_cons, Ht.
        -- rewrite append_cons in Ht. by injection Ht.
      * split; [discriminate|]. intros [t Ht]. rewrite append_cons in Ht.
        injection Ht as -> _. contradiction.
Qed.

Lemma contains_spec p s :
  contains p s = true <-> exists pre post, s = pre +:+ p +:+ post.
Proof.
  induction s as [|c s IH]; cbn [contains]; rewrite orb_true_iff, startswith_spec.
  - split.
    + intros [[t Ht] | ?]; [|discriminate]. by exists EmptyString, t.
    + intros (pre & post & H). left. exists post.
      destruct pre; [exact H | discriminate].
  - rewrite IH. split.
    + intros [[t Ht] | (pre & post & Ht)].
      * by exists EmptyString, t.
      * exists (String c pre), post. by rewrite append_cons, Ht.
    + intros (pre & post & H). destruct pre as [|d pre].
      * left. by exists post.
      * right. rewrite append_cons in H. injection H as _ ->. eauto.
Qed.

Lemma contains_suffix a b s : contains (a +:+ b) s = true -> contains b s = true.
Proof.
  rewrite !contains_spec. intros (pre & post & ->).
  exists (pre +:+ a), post. by rewrite !append_assoc.
Qed.

(** *** The loop over the nodes *)

Lemma named_None : named None.
Proof. intros n H. discriminate. Qed.

Lemma named_truthy o : named o -> PyStr.truthy o = negb (is_None o).
Proof. destruct o as [n|]; [|reflexivity]. intros H. by apply H. Qed.

Lemma named_first_of a b : named a -> named b -> named (first_of a b).
Proof. by destruct a. Qed.

Lemma candidate_or_name_of node held :
  candidate_or node held = first_of (name_of node) held.
Proof.
  unfold candidate_or, name_of.
  destruct (dict_get "name" node) as [[ | | | |s| | ]|]; try reflexivity.
  by destruct (PyStr.strip s).
Qed.

Section Extract.
Variable loads : string -> option value.
Variable py_str : value -> string.

Lemma author_of_named node : named (author_of py_str node).
Proof.
  destruct node as [ | | | | | |node]; try apply named_None.
  intros n. cbn [author_of]. cbv zeta.
  destruct (contains "article" _).
  - destruct (dict_get "author" node) as [v|]; cbn [mbind option_bind].
    + destruct (_extract_person_name v) as [m|] eqn:E.
      * intros H. simplify_eq. eapply person_name_truthy, E.
      * destruct (contains "person" _); [apply name_of_truthy | discriminate].
    + destruct (contains "person" _); [apply name_of_truthy | discriminate].
  - destruct (contains "person" _); [apply name_of_truthy | discriminate].
Qed.

Lemma provider_of_named node : named (provider_of py_str node).
Proof.
  destruct node as [ | | | | | |node]; try apply named_None.
  intros n. cbn [provider_of]. cbv zeta.
  destruct (contains "article" _).
  - destruct (dict_get "provider" node) as [v|]; cbn [mbind option_bind].
    + destruct (_extract_org_name v) as [m|] eqn:E.
      * intros H. simplify_eq. eapply org_name_truthy, E.
      * destruct (contains "organization" _); [apply name_of_truthy | discriminate].
    + destruct (contains "organization" _); [apply name_of_truthy | discriminate].
  - destruct (contains "organization" _); [apply name_of_truthy | discriminate].
Qed.

Lemma visit_node_offers a p node :
  visit_node py_str (a, p) node
  = (first_of a (author_of py_str (JDict node)),
     first_of p (provider_of py_str (JDict node))).
Proof.
  unfold visit_node. cbn [author_of provider_of]. cbv zeta.
  assert (Hnews : contains "newsarticle" (ntype_lower py_str node)
                  || contains "article" (ntype_lower py_str node)
                  = contains "article" (ntype_lower py_str node)).
  { destruct (contains "newsarticle" _) eqn:Hnews; [|reflexivity].
    by rewrite (contains_suffix "news" "article" _ Hnews). }
  rewrite Hnews. clear Hnews.
  generalize (dict_get "author" node ≫= λ v : value, _extract_person_name v).
  generalize (dict_get "provider" node ≫= λ v : value, _extract_org_name v).
  intros pr au.
  destruct (contains "article" _), (contains "person" _), (contains "organization" _),
    au, pr, a, p;
    cbn [is_None first_of andb]; rewrite ?candidate_or_name_of;
    destruct (name_of node); reflexivity.
Qed.

Lemma head_omap_cons {A B} (f : A -> option B) x l :
  head (omap f (x :: l)) = match f x with Some y => Some y | None => head (omap f l) end.
Proof. cbn [omap list_omap]. by destruct (f x). Qed.

Lemma first_of_assoc a b c : first_of (first_of a b) c = first_of a (first_of b c).
Proof. by destruct a. Qed.

Lemma scan_nodes_offers nodes :
  forall a p, named a -> named p ->
    let out := scan_nodes py_str (a, p) nodes in
    named out.1.1 /\ named out.1.2
    /\ (out.2 = true -> is_None out.1.1 = false /\ is_None out.1.2 = false)
    /\ out.1 = (first_of a (head (omap (author_of py_str) nodes)),
                first_of p (head (omap (provider_of py_str) nodes))).
Proof.
  induction nodes as [|node nodes IH]; intros a p Ha Hp.
  - cbn. repeat split; try assumption; try discriminate; by destruct a, p.
  - assert (Hskip : ~ is_dict node -> scan_nodes py_str (a, p) (node :: nodes)
                                   = scan_nodes py_str (a, p) nodes
                                  /\ author_of py_str node = None
                                  /\ provider_of py_str node = None).
    { destruct node; try (intros _; repeat split; reflexivity). intros H. by destruct H. }
    destruct node as [ | | | | | |node];
      try (destruct Hskip as (-> & Ea & Ep); [by intros []|];
           rewrite !head_omap_cons, Ea, Ep; by apply IH).
    clear Hskip. cbn [scan_nodes]. cbv zeta. rewrite visit_node_offers.
    set (a1 := first_of a (author_of py_str (JDict node))).
    set (p1 := first_of p (provider_of py_str (JDict node))).
    assert (Ha1 : named a1) by (apply named_first_of; auto using author_of_named).
    assert (Hp1 : named p1) by (apply named_first_of; auto using provider_of_named).
    cbn [fst snd]. rewrite (named_truthy a1 Ha1), (named_truthy p1 Hp1).
    assert (Hout : (first_of a (head (omap (author_of py_str) (JDict node :: nodes))),
                    first_of p (head (omap (provider_of py_str) (JDict node :: nodes))))
                   = (first_of a1 (head (omap (author_of py_str) nodes)),
                      first_of p1 (head (omap (provider_of py_str) nodes)))).
    { rewrite !head_omap_cons. unfold a1, p1. rewrite !first_of_assoc.
      f_equal; f_equal.
      - by destruct (author_of py_str (JDict node)).
      - by destruct (provider_of py_str (JDict node)). }
    rewrite Hout.
    destruct (is_None a1) eqn:Ea1; cbn [negb andb]; [by apply IH|].
    destruct (is_None p1) eqn:Ep1; cbn [negb andb]; [by apply IH|].
    cbn [fst snd]. repeat split; try assumption.
    destruct a1, p1; try discriminate. reflexivity.
Qed.

Lemma head_app_first {A} (l1 l2 : list A) :
  head (l1 ++ l2) = match head l1 with Some x => Some x | None => head l2 end.
Proof. by destruct l1. Qed.

Lemma first_of_head_app (a : option string) (l1 l2 : list string) :
  first_of (first_of a (head l1)) (head l2) = first_of a (head (l1 ++ l2)).
Proof. rewrite first_of_assoc, head_app_first. by destruct (head l1). Qed.

Lemma scan_scripts_offers scripts :
  forall a p, named a -> named p ->
    scan_scripts loads py_str (a, p) scripts
    = (first_of a (head (omap (author_of py_str) (nodes loads scripts))),
       first_of p (head (omap (provider_of py_str) (nodes loads scripts)))).
Proof.
  unfold nodes, payloads.
  induction scripts as [|raw scripts IH]; intros a p Ha Hp.
  - cbn. by destruct a, p.
  - cbn [scan_scripts omap list_omap]. cbv zeta.
    assert (Hraw : (if PyStr.truthy (Some raw) then PyStr.strip raw else EmptyString)
                   = PyStr.strip raw) by (by destruct raw).
    rewrite Hraw.
    destruct (negb (PyStr.truthy (Some (PyStr.strip raw)))); [by apply IH|].
    destruct (loads (PyStr.strip raw)) as [payload|]; [|by apply IH].
    rewrite bind_cons, !omap_app, <- !first_of_head_app.
    destruct (scan_nodes_offers (_walk_json_nodes payload) a p Ha Hp)
      as (Ha1 & Hp1 & Hret & Hout).
    destruct (scan_nodes py_str (a, p) (_walk_json_nodes payload))
      as [[a1 p1] returned].
    cbn [fst snd] in *.
    assert (Ea : first_of a (head (omap (author_of py_str) (_walk_json_nodes payload)))
                 = a1) by congruence.
    assert (Ep : first_of p (head (omap (provider_of py_str) (_walk_json_nodes payload)))
                 = p1) by congruence.
    rewrite Ea, Ep.
    destruct returned.
    + destruct (Hret eq_refl) as [Na Np]. destruct a1, p1; try discriminate. reflexivity.
    + by apply IH.
Qed.

Lemma extract_from_jsonld_offers scripts :
  _extract_from_jsonld loads py_str scripts
  = (head (omap (author_of py_str) (nodes loads scripts)),
     head (omap (provider_of py_str) (nodes loads scripts))).
Proof.
  destruct scripts as [|raw scripts]; [reflexivity|].
  unfold _extract_from_jsonld.
  apply (scan_scripts_offers (raw :: scripts) None None named_None named_None).
Qed.

End Extract.

(** X21: each of the two names [_extract_from_jsonld] returns is the first
    one that a node of the page offers, the nodes taken script after
    script in document order: the author does not depend on whether or
    where a provider is found, nor the provider on the author, and the
    early [return] changes nothing. *)
Theorem jsonld_names_are_the_first_offers
    (loads : string -> option value) (py_str : value -> string)
    (scripts : list string) :
  _extract_from_jsonld loads py_str scripts
  = (head (omap (author_of py_str) (nodes loads scripts)),
     head (omap (provider_of py_str) (nodes loads scripts))).
Proof. apply extract_from_jsonld_offers. Qed.

(** *** Names without white space around them *)

Lemma trimmed_strip s : PyStr.strip s <> EmptyString -> trimmed (PyStr.strip s).
Proof. intros H. split; [exact H | apply strip_idempotent]. Qed.

Lemma trimmed_ends s :
  trimmed s ->
  (exists c t, s = String c t /\ PyStr.is_space c = false) /\ PyStr.rstrip s = s.
Proof.
  intros [Hne Hs]. unfold PyStr.strip in Hs.
  destruct (lstrip_head s) as [E | (c & t & E & Hc)].
  - rewrite E in Hs. simpl in Hs. congruence.
  - rewrite E in Hs. destruct (rstrip_head c t Hc) as [t' E'].
    assert (Hs' : s = String c t') by congruence.
    split; [eauto|]. rewrite <- Hs at 2. rewrite Hs', (lstrip_fixed _ _ Hc) in E.
    congruence.
Qed.

Lemma trimmed_of_ends c t :
  PyStr.is_space c = false -> PyStr.rstrip (String c t) = String c t ->
  trimmed (String c t).
Proof.
  intros Hc Hr. split; [discriminate|].
  unfold PyStr.strip. by rewrite (lstrip_fixed _ _ Hc).
Qed.

Lemma append_not_nil (a b : string) : b <> EmptyString -> a +:+ b <> EmptyString.
Proof. destruct a; [by rewrite append_nil_l | by rewrite append_cons]. Qed.

Lemma trimmed_append a sep b : trimmed a -> trimmed b -> trimmed (a +:+ sep +:+ b).
Proof.
  intros Ha Hb.
  destruct (trimmed_ends a Ha) as ((c & t & -> & Hc) & _).
  destruct (trimmed_ends b Hb) as (_ & Hr). destruct Hb as [Hne _].
  rewrite append_cons. apply trimmed_of_ends; [exact Hc|].
  rewrite <- append_cons. apply rstrip_append.
  - by apply append_not_nil.
  - by apply rstrip_append.
Qed.

Lemma join_trimmed sep names :
  Forall trimmed names -> names <> [] -> trimmed (PyStr.join sep names).
Proof.
  induction 1 as [|x rest Hx Hrest IH]; [done|]. intros _.
  destruct rest as [|y rest]; [exact Hx|].
  change (PyStr.join sep (x :: y :: rest))
    with (x +:+ sep +:+ PyStr.join sep (y :: rest)).
  apply trimmed_append; [exact Hx | by apply IH].
Qed.

Lemma or_None_trimmed s n : or_None (PyStr.strip s) = Some n -> trimmed n.
Proof.
  intros H. apply or_None_truthy in H as [-> Ht]. apply trimmed_strip.
  intros E. by rewrite E in Ht.
Qed.

Lemma name_of_trimmed node n : name_of node = Some n -> trimmed n.
Proof.
  unfold name_of. destruct (dict_get "name" node) as [[]|]; try discriminate.
  apply or_None_trimmed.
Qed.

Lemma person_name_trimmed v : forall n, _extract_person_name v = Some n -> trimmed n.
Proof.
  apply (value_induction (fun v => forall n, _extract_person_name v = Some n -> trimmed n));
    try discriminate.
  - intros s n. apply or_None_trimmed.
  - intros l IH n. cbn [_extract_person_name]. cbv zeta.
    rewrite person_names_collected, person_names_all_truthy.
    destruct (omap _extract_person_name l) as [|x rest] eqn:E; [discriminate|].
    intros H. simplify_eq. apply join_trimmed; [|done].
    rewrite <- E. apply Forall_forall. intros m Hm.
    apply list_elem_of_omap in Hm as (item & Hitem & Hm).
    rewrite Forall_forall in IH. eauto.
  - intros items _ n. apply name_of_trimmed.
Qed.

Lemma org_name_trimmed v : forall n, _extract_org_name v = Some n -> trimmed n.
Proof.
  apply (value_induction (fun v => forall n, _extract_org_name v = Some n -> trimmed n));
    try discriminate.
  - intros s n. apply or_None_trimmed.
  - intros l IH n. cbn [_extract_org_name]. cbv zeta.
    rewrite org_first_found, org_names_all_truthy.
    intros H. apply head_Some_elem_of in H.
    apply list_elem_of_omap in H as (item & Hitem & Hm).
    rewrite Forall_forall in IH. eauto.
  - intros items _ n. apply name_of_trimmed.
Qed.

Lemma author_of_trimmed py_str node n : author_of py_str node = Some n -> trimmed n.
Proof.
  destruct node as [ | | | | | |node]; try discriminate.
  cbn [author_of]. cbv zeta.
  destruct (contains "article" _).
  - destruct (dict_get "author" node) as [v|]; cbn [mbind option_bind].
    + destruct (_extract_person_name v) as [m|] eqn:E.
      * intros H. simplify_eq. eapply person_name_trimmed, E.
      * destruct (contains "person" _); [apply name_of_trimmed | discriminate].
    + destruct (contains "person" _); [apply name_of_trimmed | discriminate].
  - destruct (contains "person" _); [apply name_of_trimmed | discriminate].
Qed.

Lemma provider_of_trimmed py_str node n : provider_of py_str node = Some n -> trimmed n.
Proof.
  destruct node as [ | | | | | |node]; try discriminate.
  cbn [provider_of]. cbv zeta.
  destruct (contains "article" _).
  - destruct (dict_get "provider" node) as [v|]; cbn [mbind option_bind].
    + destruct (_extract_org_name v) as [m|] eqn:E.
      * intros H. simplify_eq. eapply org_name_trimmed, E.
      * destruct (contains "organization" _); [apply name_of_trimmed | discriminate].
    + destruct (contains "organization" _); [apply name_of_trimmed | discriminate].
  - destruct (contains "organization" _); [apply name_of_trimmed | discriminate].
Qed.

Lemma head_omap_Some {A B} (f : A -> option B) l y :
  head (omap f l) = Some y -> exists x, x ∈ l /\ f x = Some y.
Proof.
  intros H. apply head_Some_elem_of, list_elem_of_omap in H. exact H.
Qed.

Lemma extract_from_jsonld_trimmed loads py_str scripts a p :
  _extract_from_jsonld loads py_str scripts = (a, p) ->
  (forall n, a = Some n -> trimmed n) /\ (forall n, p = Some n -> trimmed n).
Proof.
  rewrite extract_from_jsonld_offers. intros H. simplify_eq. split; intros n Hn.
  - apply head_omap_Some in Hn as (node & _ & Hn). eapply author_of_trimmed, Hn.
  - apply head_omap_Some in Hn as (node & _ & Hn). eapply provider_of_trimmed, Hn.
Qed.

(** X22: a name resolved from structured data, by either resolver or by
    [_extract_from_jsonld], is never empty and has no white space at
    either end; this holds for the joined names of several persons as
    well. *)
Theorem resolved_names_are_trimmed
    (loads : string -> option value) (py_str : value -> string)
    (scripts : list string) (v : value) (n : string) :
  (_extract_person_name v = Some n -> trimmed n)
  /\ (_extract_org_name v = Some n -> trimmed n)
  /\ ((_extract_from_jsonld loads py_str scripts).1 = Some n -> trimmed n)
  /\ ((_extract_from_jsonld loads py_str scripts).2 = Some n -> trimmed n).
Proof.
  split; [apply person_name_trimmed|]. split; [apply org_name_trimmed|].
  destruct (_extract_from_jsonld loads py_str scripts) as [a p] eqn:E.
  destruct (extract_from_jsonld_trimmed _ _ _ _ _ E) as [Ha Hp].
  split; [apply Ha | apply Hp].
Qed.

Lemma resolved_names_are_trimmed_witness :
  (_extract_from_jsonld sample_loads sample_str [" article "%string]).1 = Some "Ann, Bob"%string
  /\ trimmed "Ann, Bob".
Proof.
  assert (H : (_extract_from_jsonld sample_loads sample_str [" article "%string]).1
              = Some "Ann, Bob"%string) by (vm_compute; reflexivity).
  split; [exact H|].
  destruct (resolved_names_are_trimmed sample_loads sample_str [" article "%string]
              JNull "Ann, Bob") as (_ & _ & Ha & _).
  apply Ha, H.
Defined.

(** *** The texts of an item *)

Lemma parse_article_fields c s r hint s' items it :
  parse_article c s r hint = (s', items) -> it ∈ items ->
  link it = url r
  /\ title it = strip_or_None (h1_text r)
  /\ author it = strip_or_None
       (PyStr.or_else (PyStr.or_else (jsonld_author r) (meta_author r)) (rel_author r))
  /\ provider it = strip_or_None
       (PyStr.or_else (PyStr.or_else (jsonld_provider r) (og_site_name r))
          (application_name r)).
Proof.
  rewrite parse_article_cases. intros H Hit.
  repeat case_match; simplify_eq; try (inversion Hit; fail).
  apply list_elem_of_singleton in Hit. subst it. repeat split.
Qed.

Lemma strip_or_None_stripped o : stripped (strip_or_None o).
Proof.
  intros t. unfold strip_or_None. destruct (PyStr.truthy o); [|discriminate].
  destruct o as [x|]; [|discriminate]. cbn. intros H. simplify_eq.
  apply strip_idempotent.
Qed.

Lemma strip_or_None_None o : strip_or_None o = None <-> PyStr.truthy o = false.
Proof.
  unfold strip_or_None. destruct o as [[|c x]|]; cbn; split; congruence.
Qed.

Lemma or_else_falsy a b :
  PyStr.truthy (PyStr.or_else a b) = false <-> PyStr.truthy a = false /\ PyStr.truthy b = false.
Proof.
  unfold PyStr.or_else. destruct (PyStr.truthy a) eqn:E.
  - rewrite E. split; [discriminate | intros [? _]; discriminate].
  - split; [auto | intros [_ ?]; assumption].
Qed.

(** X23: in every item, [title], [author] and [provider] are [None] or a
    text without white space at either end, and each is [None] exactly
    when every one of its sources is missing or empty; a source made of
    white space only gives the empty text, not [None]. *)
Theorem item_texts_are_stripped (c : Config) (s s' : State) (r : Response)
    (hint : option string) (it : Item) :
  parse_article c s r hint = (s', [it]) ->
  stripped (title it) /\ stripped (author it) /\ stripped (provider it)
  /\ (forall x, h1_text r = Some x -> x <> EmptyString ->
      title it = Some (PyStr.strip x))
  /\ (title it = None <-> PyStr.truthy (h1_text r) = false)
  /\ (author it = None <->
      PyStr.truthy (jsonld_author r) = false /\ PyStr.truthy (meta_author r) = false
      /\ PyStr.truthy (rel_author r) = false)
  /\ (provider it = None <->
      PyStr.truthy (jsonld_provider r) = false /\ PyStr.truthy (og_site_name r) = false
      /\ PyStr.truthy (application_name r) = false).
Proof.
  intros H.
  destruct (parse_article_fields c s r hint s' [it] it H) as (_ & -> & -> & ->); [left|].
  rewrite !strip_or_None_None, !or_else_falsy.
  split; [apply strip_or_None_stripped|]. split; [apply strip_or_None_stripped|].
  split; [apply strip_or_None_stripped|].
  split; [intros x -> Hx; by destruct x|]. tauto.
Qed.

Lemma strip_or_None_first x b c :
  x <> EmptyString ->
  strip_or_None (PyStr.or_else (PyStr.or_else (Some x) b) c) = Some (PyStr.strip x).
Proof. destruct x; [done | reflexivity]. Qed.

Lemma sample_page_item :
  exists it,
    parse_article (Sample.config None 20) initial_state sample_page None
    = (count_item (mark_recent initial_state), [it]).
Proof.
  rewrite parse_article_cases.
  assert (Hd : pub_dt sample_page None
               = Some {| naive := Sample.ten_o_clock - 1800 * US_PER_SECOND;
                         tz_of := Some TZ |}) by (vm_compute; reflexivity).
  rewrite Hd. cbn. eauto.
Qed.

Lemma item_texts_are_stripped_witness :
  exists it,
    parse_article (Sample.config None 20) initial_state sample_page None
    = (count_item (mark_recent initial_state), [it])
    /\ stripped (title it) /\ provider it <> None.
Proof.
  destruct sample_page_item as [it Hit]. exists it. split; [exact Hit|].
  destruct (item_texts_are_stripped (Sample.config None 20) initial_state
              (count_item (mark_recent initial_state)) sample_page None it Hit)
    as (Ht & _ & _ & _ & _ & _ & Hp).
  split; [exact Ht|]. intros E. apply Hp in E as (E & _). discriminate E.
Defined.

(** X24: a name found in the structured data of the page is the one the
    item carries, letter for letter, whatever the [meta] tags and the
    [rel=author] element say. *)
Theorem structured_names_reach_the_item
    (loads : string -> option value) (py_str : value -> string)
    (scripts : list string) (c : Config) (s s' : State) (r : Response)
    (hint : option string) (it : Item) :
  _extract_from_jsonld loads py_str scripts = (jsonld_author r, jsonld_provider r) ->
  parse_article c s r hint = (s', [it]) ->
  (forall n, jsonld_author r = Some n -> author it = Some n)
  /\ (forall n, jsonld_provider r = Some n -> provider it = Some n).
Proof.
  intros Hld H.
  destruct (parse_article_fields c s r hint s' [it] it H) as (_ & _ & -> & ->); [left|].
  destruct (extract_from_jsonld_trimmed _ _ _ _ _ Hld) as [Ha Hp].
  split; intros n Hn.
  - destruct (Ha n Hn) as [Hne Hs]. by rewrite Hn, strip_or_None_first, Hs.
  - destruct (Hp n Hn) as [Hne Hs]. by rewrite Hn, strip_or_None_first, Hs.
Qed.

Lemma structured_names_reach_the_item_witness :
  exists it,
    parse_article (Sample.config None 20) initial_state sample_page None
    = (count_item (mark_recent initial_state), [it])
    /\ author it = Some "Ann, Bob"%string.
Proof.
  destruct sample_page_item as [it Hit]. exists it. split; [exact Hit|].
  destruct (structured_names_reach_the_item sample_loads sample_str [" article "%string]
              (Sample.config None 20) initial_state
              (count_item (mark_recent initial_state)) sample_page None it)
    as [Ha _]; [vm_compute; reflexivity | exact Hit |].
  apply Ha. reflexivity.
Defined.

(** ** The name of the output file *)

Lemma fields_of_date n :
  (year (fields_of n), month (fields_of n), day (fields_of n))
  = ord2ymd (n / US_PER_DAY + 1).
Proof. unfold fields_of. by destruct (ord2ymd _) as [[y m] d]. Qed.

Lemma fields_of_time n :
  hour (fields_of n) = n mod US_PER_DAY / US_PER_SECOND / 3600
  /\ minute (fields_of n) = (n mod US_PER_DAY / US_PER_SECOND) mod 3600 / 60.
Proof. unfold fields_of. by destruct (ord2ymd _) as [[y m] d]. Qed.

Lemma ord2ymd_inj a b :
  1 <= a <= MAXORDINAL -> 1 <= b <= MAXORDINAL -> ord2ymd a = ord2ymd b -> a = b.
Proof.
  intros Ha Hb E.
  destruct (ord2ymd_spec a Ha) as (y & m & d & E1 & <- & _).
  destruct (ord2ymd_spec b Hb) as (y' & m' & d' & E2 & <- & _).
  congruence.
Qed.

Lemma hour_before (e : Z) :
  0 <= e < MAX_US -> 3600 * US_PER_SECOND <= e ->
  let h := hour (fields_of e) in
  let start := e - 3600 * US_PER_SECOND in
  minute (fields_of start) = minute (fields_of e)
  /\ hour (fields_of start) = (h + 23) mod 24
  /\ start / US_PER_DAY = e / US_PER_DAY - (if 1 <=? h then 0 else 1)
  /\ 1 <= e / US_PER_DAY + 1 <= MAXORDINAL
  /\ 1 <= start / US_PER_DAY + 1 <= MAXORDINAL.
Proof.
  intros He Hh. cbv zeta.
  destruct (fields_of_time e) as [-> ->].
  destruct (fields_of_time (e - 3600 * US_PER_SECOND)) as [-> ->].
  unfold MAX_US, US_PER_DAY, US_PER_SECOND, MAXORDINAL in *.
  destruct (Z.leb_spec 1 (e mod (86400 * 1000000) / 1000000 / 3600));
    Z.to_euclidean_division_equations; lia.
Qed.

Lemma build_output_filename_form (e : Z) (c : Config) :
  0 <= e < MAX_US -> 3600 * US_PER_SECOND <= e ->
  start_dt c = {| naive := e - 3600 * US_PER_SECOND; tz_of := Some TZ |} ->
  end_dt c = {| naive := e; tz_of := Some TZ |} ->
  (date_of (start_dt c) = date_of (end_dt c) <-> 1 <= hour (fields_of e))
  /\ strftime_HM (start_dt c)
     = print_digits 2 ((hour (fields_of e) + 23) mod 24)
       +:+ print_digits 2 (minute (fields_of e)).
Proof.
  intros He Hh Hs Hend.
  destruct (hour_before e He Hh) as (Hm & Hhour & Hday & Ho1 & Ho2).
  split.
  - unfold date_of. rewrite Hs, Hend. cbn [naive]. cbv zeta.
    rewrite !fields_of_date. split.
    + intros E. apply ord2ymd_inj in E; [|assumption|assumption].
      destruct (Z.leb_spec 1 (hour (fields_of e))); lia.
    + intros H1. f_equal. rewrite Hday.
      destruct (Z.leb_spec 1 (hour (fields_of e))); lia.
  - unfold strftime_HM. rewrite Hs. cbn [naive]. cbv zeta. by rewrite Hm, Hhour.
Qed.

(** X25: the automatic file name has its short form,
    [result_<date>_<HHMM>~<HHMM>.csv], exactly when [end] is at 01:00 or
    later; before that the window starts on the previous day and the name
    carries both dates.  The start time in the name is one hour before
    the end time, minute for minute. *)
Theorem output_file_name_follows_end
    (e : Z) (ms mu : option Z) (old wait : Z) (c : Config) (s : State) :
  0 <= e < MAX_US ->
  __init__ e ms mu old wait = Some (c, s) ->
  _build_output_filename c
  = (if 1 <=? hour (fields_of e)
     then "result_" +:+ strftime_Ymd (end_dt c) +:+ "_"
          +:+ (strftime_HM (start_dt c) +:+ "~" +:+ strftime_HM (end_dt c)) +:+ ".csv"
     else "result_" +:+ strftime_Ymd (start_dt c) +:+ "-" +:+ strftime_HM (start_dt c)
          +:+ "~" +:+ strftime_Ymd (end_dt c) +:+ "-" +:+ strftime_HM (end_dt c)
          +:+ ".csv")
  /\ strftime_HM (start_dt c)
     = print_digits 2 ((hour (fields_of e) + 23) mod 24)
       +:+ print_digits 2 (minute (fields_of e))
  /\ strftime_HM (end_dt c)
     = print_digits 2 (hour (fields_of e)) +:+ print_digits 2 (minute (fields_of e)).
Proof.
  intros He Hinit. unfold __init__ in Hinit.
  destruct (add_us e (- (3600 * US_PER_SECOND))) as [start|] eqn:Hadd; [|discriminate].
  cbn [mbind option_bind] in Hinit. injection Hinit as <- <-.
  assert (Hstart : start = e - 3600 * US_PER_SECOND /\ 3600 * US_PER_SECOND <= e).
  { unfold add_us in Hadd. cbv zeta in Hadd.
    destruct (Z.leb_spec 0 (e + - (3600 * US_PER_SECOND))); [|discriminate].
    destruct (e + - (3600 * US_PER_SECOND) <? MAX_US); [|discriminate].
    cbn [andb] in Hadd. injection Hadd as <-. lia. }
  destruct Hstart as [-> Hh].
  match goal with
  | |- context [_build_output_filename ?c] =>
      destruct (build_output_filename_form e c He Hh eq_refl eq_refl) as [Hdate HHM]
  end.
  split; [|split; [exact HHM | reflexivity]].
  unfold _build_output_filename. cbv zeta.
  destruct (Z.leb_spec 1 (hour (fields_of e))) as [H1 | H0].
  - rewrite decide_True by (by apply Hdate). reflexivity.
  - rewrite decide_False by (rewrite Hdate; lia). reflexivity.
Qed.

Lemma output_file_name_follows_end_witness :
  _build_output_filename (Sample.config None 20) = "result_20240601_0900~1000.csv"%string.
Proof.
  destruct (output_file_name_follows_end Sample.ten_o_clock None None 20 350
              (Sample.config None 20) initial_state) as (Hname & _).
  - split; [apply Z.leb_le | apply Z.ltb_lt]; vm_compute; reflexivity.
  - reflexivity.
  - rewrite Hname. vm_compute. reflexivity.
Defined.

(** X26: when neither [FEEDS] nor [FEED_URI] is configured, the file that
    is sorted at the end of the run is the automatically named one, which
    is never an empty name; otherwise it is the first feed whose name ends
    in [.csv], letter case ignored, and [FEED_URI] when there is none. *)
Theorem sorted_file_is_the_configured_one
    (c : Config) (feeds feeds' : list string) (feed_uri : option string) :
  (feeds = [] -> PyStr.truthy feed_uri = false ->
   _pick_output_csv_uri (from_crawler feeds feed_uri c) feeds' feed_uri
   = Some (_build_output_filename c))
  /\ (feeds <> [] \/ PyStr.truthy feed_uri = true ->
      from_crawler feeds feed_uri c = None
      /\ _pick_output_csv_uri (from_crawler feeds feed_uri c) feeds feed_uri
         = match head (filter (fun uri => PyStr.endswith ".csv" (Jsonld.lower uri) = true)
                         feeds) with
           | Some uri => Some uri
           | None => feed_uri
           end).
Proof.
  assert (Hname : PyStr.truthy (Some (_build_output_filename c)) = true).
  { unfold _build_output_filename. by destruct (decide _). }
  split.
  - intros -> Hf. unfold from_crawler. rewrite Hf. cbn [negb andb].
    rewrite bool_decide_eq_true_2 by reflexivity. cbn [andb].
    unfold _pick_output_csv_uri. by rewrite Hname.
  - intros Hcfg.
    assert (Hnone : from_crawler feeds feed_uri c = None).
    { unfold from_crawler. destruct Hcfg as [Hne | Hf].
      - by rewrite bool_decide_eq_false_2.
      - rewrite Hf. cbn [negb]. by rewrite andb_false_r. }
    split; [exact Hnone|]. rewrite Hnone. unfold _pick_output_csv_uri.
    cbn [PyStr.truthy]. by destruct (filter _ feeds).
Qed.

Lemma sorted_file_is_the_configured_one_witness :
  _pick_output_csv_uri (from_crawler [] None (Sample.config None 20)) [] None
  = Some (_build_output_filename (Sample.config None 20)).
Proof.
  destruct (sorted_file_is_the_configured_one (Sample.config None 20) [] [] None)
    as [H _].
  apply H; reflexivity.
Defined.

(** ** Why the loop has ended *)

Lemma justified_grows c s s' why :
  flags_grow s s' -> seen_urls s' = seen_urls s -> justified c s why -> justified c s' why.
Proof.
  intros (Hstop & _) Hseen. destruct why; cbn [justified]; auto.
  by rewrite Hseen.
Qed.

(** X27: when the listing loop has ended, the reason it logs is true of
    the state, and stays true: for a requested stop the flag is set, for
    [max_scroll] that limit is set, for [max_urls] that limit is set and
    [seen_urls] holds at least that many URLs. *)
Theorem loop_ends_for_the_logged_reason (c : Config) (y : Sys) (why : StopReason) :
  reachable c y ->
  archive y = Finished why ->
  justified c (st y) why.
Proof.
  unfold reachable. intros H. revert why.
  eapply (rtc_ind_r (fun y => forall why, archive y = Finished why ->
                                          justified c (st y) why)); [ | | exact H].
  - intros why E. discriminate.
  - intros y1 y2 _ Hstep IH why E.
    destruct Hstep; cbn [st archive] in *; simplify_eq; cbn [justified]; auto.
    + unfold hit_max_scroll in *. destruct (max_scroll c) eqn:Hm; [eauto | discriminate].
    + by destruct flow.
    + destruct (hit_max_urls c s) eqn:Hhit; [|discriminate]. simplify_eq.
      unfold hit_max_urls in Hhit. destruct (max_urls c) as [m|] eqn:Hm; [|discriminate].
      exists m. split; [exact Hm|]. by apply Z.leb_le.
    + destruct (parse_article_effect _ _ _ _ _ _ H1) as (Hseen & _).
      eapply justified_grows; [by eapply parse_article_grows | exact Hseen | auto].
Qed.

Lemma loop_ends_for_the_logged_reason_witness :
  exists s,
    reachable (Sample.config (Some 1) 20)
      {| st := s; archive := Finished HitMaxUrls;
         in_flight := [request_for Sample.half_past_nine];
         dispatched := [request_for Sample.half_past_nine];
         emitted := [] |}
    /\ justified (Sample.config (Some 1) 20) s HitMaxUrls.
Proof.
  assert (Hq : qualifies (Sample.config (Some 1) 20) Sample.half_past_nine)
    by (repeat split; vm_compute; reflexivity).
  destruct (visit_qualifying (Sample.config (Some 1) 20) initial_state
              Sample.half_past_nine Hq) as (s0 & Hvisit & Hseen & _); [set_solver|].
  assert (Hhit : hit_max_urls (Sample.config (Some 1) 20)
                   (add_seen (joined Sample.half_past_nine) s0) = true).
  { unfold hit_max_urls. cbn [max_urls Sample.config add_seen seen_urls].
    rewrite Hseen. cbn [initial_state seen_urls].
    rewrite (right_id_L ∅ (∪)), size_singleton. reflexivity. }
  rewrite Hhit in Hvisit.
  assert (Hrun : reachable (Sample.config (Some 1) 20)
            {| st := add_seen (joined Sample.half_past_nine) s0;
               archive := Finished HitMaxUrls;
               in_flight := [request_for Sample.half_past_nine];
               dispatched := [request_for Sample.half_past_nine];
               emitted := [] |}).
  { unfold reachable, initial.
    eapply rtc_l; [apply (step_render _ _ _ _ _ _ [Sample.half_past_nine]); reflexivity|].
    eapply rtc_l; [apply (step_anchor _ _ _ _ _ _ _ _ _ _ _ Hvisit)|].
    eapply rtc_l; [apply step_after_round|].
    rewrite Hhit. apply rtc_refl. }
  exists (add_seen (joined Sample.half_past_nine) s0). split; [exact Hrun|].
  apply (loop_ends_for_the_logged_reason _ _ HitMaxUrls Hrun eq_refl).
Defined.

(** ** A list of types *)

Lemma lower_append a b : lower (a +:+ b) = lower a +:+ lower b.
Proof.
  induction a as [|c a IH]; [reflexivity|].
  rewrite append_cons. cbn [lower]. by rewrite IH, append_cons.
Qed.

Lemma lower_join l : lower (PyStr.join " " l) = PyStr.join " " (lower <$> l).
Proof.
  induction l as [|x l IH]; [reflexivity|].
  destruct l as [|y l]; [reflexivity|].
  change (PyStr.join " " (x :: y :: l)) with (x +:+ " " +:+ PyStr.join " " (y :: l)).
  rewrite !lower_append, IH. reflexivity.
Qed.

Lemma startswith_before_space p :
  spaceless p = true ->
  forall a b, PyStr.startswith p (a +:+ String " " b) = PyStr.startswith p a.
Proof.
  induction p as [|x p IH]; intros Hp a b; [reflexivity|].
  cbn [spaceless] in Hp. apply andb_true_iff in Hp as [Hx Hp].
  apply negb_true_iff in Hx.
  destruct a as [|y a].
  - rewrite append_nil_l. cbn [PyStr.startswith]. by rewrite Hx.
  - rewrite append_cons. cbn [PyStr.startswith]. by rewrite IH.
Qed.

Lemma contains_around_space p a b :
  spaceless p = true -> p <> EmptyString ->
  contains p (a +:+ String " " b) = contains p a || contains p b.
Proof.
  intros Hp Hne. induction a as [|c a IH].
  - rewrite append_nil_l. cbn [contains].
    rewrite <- (append_nil_l (String " " b)), (startswith_before_space p Hp).
    destruct p; [done|]. reflexivity.
  - rewrite append_cons. cbn [contains].
    rewrite <- append_cons, (startswith_before_space p Hp), IH.
    by rewrite orb_assoc.
Qed.

Lemma contains_join p l :
  spaceless p = true -> p <> EmptyString ->
  contains p (PyStr.join " " l) = existsb (contains p) l.
Proof.
  intros Hp Hne. induction l as [|x l IH].
  - destruct p; [done|]. reflexivity.
  - destruct l as [|y l].
    + cbn [PyStr.join existsb]. by rewrite orb_false_r.
    + change (PyStr.join " " (x :: y :: l))
        with (x +:+ " " +:+ PyStr.join " " (y :: l)).
      rewrite lit_append, (contains_around_space p _ _ Hp Hne), IH. reflexivity.
Qed.

(** X28: a node whose [@type] is a list counts as an article, a person or
    an organisation exactly when one of the listed types does: joining
    the types with spaces lets no keyword match across two of them, and
    letter case is ignored. *)
Theorem a_list_of_types_matches_by_member
    (py_str : value -> string) (node : list (string * value))
    (types : list value) (p : string) :
  dict_get "@type" node = Some (JList types) ->
  spaceless p = true -> p <> EmptyString ->
  contains p (ntype_lower py_str node)
  = existsb (fun t => contains p (lower (str py_str t))) types.
Proof.
  intros Htype Hp Hne. unfold ntype_lower. rewrite Htype. cbv zeta.
  cbn [str]. rewrite lower_join, (contains_join p _ Hp Hne).
  rewrite <- list_fmap_compose. clear Htype.
  induction types as [|t types IH]; [reflexivity|].
  rewrite fmap_cons. cbn [existsb compose]. by rewrite IH.
Qed.

Lemma a_list_of_types_matches_by_member_witness :
  contains "article"
    (ntype_lower sample_str
       [("@type"%string, JList [JStr "Thing"; JStr "NewsArticle"])])
  = true.
Proof.
  rewrite (a_list_of_types_matches_by_member sample_str
             [("@type"%string, JList [JStr "Thing"; JStr "NewsArticle"])]
             [JStr "Thing"; JStr "NewsArticle"] "article").
  - vm_compute. reflexivity.
  - reflexivity.
  - reflexivity.
  - discriminate.
Defined.
